(** * Cytomine project migrator: a model of the importer and its properties

    The definitions below follow [cytomineprojectmigrator/importer.py]
    (class [Importer], and the paths and options of its script) and, of
    [cytomineprojectmigrator/exporter.py], the batch of downloads, the
    users, the documents and the metadata.  The Cytomine server reached
    through the Python client is represented by the collections the
    importer fetches, a counter of fresh identifiers and the ordered log of
    the calls the importer issues; it accepts every call. *)

From Stdlib Require Import ZArith Lia Ascii.
From stdpp Require Import base decidable option list gmap strings pretty.

(** ** Python strings

    A string is a sequence of code points below 256. *)

Module PyStr.

(** [str.isspace] on one code point: TAB..CR, FS..US, SPACE, NEL, NBSP. *)
Definition isspace (a : ascii) : bool :=
  let n := nat_of_ascii a in
  ((9 <=? n) && (n <=? 13)) || ((28 <=? n) && (n <=? 32))
  || (n =? 133) || (n =? 160).

Fixpoint lstrip (s : string) : string :=
  match s with
  | EmptyString => EmptyString
  | String a s' => if isspace a then lstrip s' else s
  end.

Fixpoint rstrip (s : string) : string :=
  match s with
  | EmptyString => EmptyString
  | String a s' =>
      match rstrip s' with
      | EmptyString => if isspace a then EmptyString else String a EmptyString
      | r => String a r
      end
  end.

(** [s.strip()] *)
Definition strip (s : string) : string := rstrip (lstrip s).

(** [bytes(s, "utf-8").decode("ascii", "ignore")]: a code point of 128 or
    more is encoded by bytes that are all at least 128, and all dropped. *)
Fixpoint ascii_ignore (s : string) : string :=
  match s with
  | EmptyString => EmptyString
  | String a s' =>
      if (nat_of_ascii a <? 128) then String a (ascii_ignore s')
      else ascii_ignore s'
  end.

(** [s.replace("/", "-")] *)
Fixpoint replace_slash (s : string) : string :=
  match s with
  | EmptyString => EmptyString
  | String a s' =>
      String (if Ascii.eqb a "/"%char then "-"%char else a) (replace_slash s')
  end.

(** [f"{name} ({i})"] *)
Definition suffixed (name : string) (i : nat) : string :=
  name +:+ " (" +:+ pretty i +:+ ")".

End PyStr.

(** ** Exceptions, and a state monad that keeps the state when one is raised *)

Inductive exn : Type :=
| KeyError (k : Z)              (* [d[k]] on a dict of identifiers *)
| KeyErrorStr (k : string)      (* [d[k]] on a dict of file names *)
| IndexError                    (* [l[0]], [l.pop()] on an empty list *)
| TypeError                     (* iterating [None] *)
| AttributeError                (* attribute of [None] or [False] *)
| ValueError                    (* [open] in binary mode with an encoding *)
| LoopBound.                    (* no Python exception: the bound the model
                                   puts on a [while] loop was reached *)

Inductive outcome (A : Type) : Type :=
| Return (a : A)
| Raise (e : exn).
Arguments Return {A} a.
Arguments Raise {A} e.

Definition M (S A : Type) : Type := S → S * outcome A.

Definition ret {S A} (a : A) : M S A := λ s, (s, Return a).

Definition bind {S A B} (m : M S A) (k : A → M S B) : M S B :=
  λ s, match m s with
       | (s', Return a) => k a s'
       | (s', Raise e) => (s', Raise e)
       end.

Definition raise {S A} (e : exn) : M S A := λ s, (s, Raise e).
Definition get {S} : M S S := λ s, (s, Return s).
Definition gets {S A} (f : S → A) : M S A := λ s, (s, Return (f s)).
Definition modify {S} (f : S → S) : M S unit := λ s, (f s, Return tt).

Declare Scope py_scope.
Delimit Scope py_scope with py.
Notation "x <- m ;; k" := (bind m (λ x, k))
  (at level 100, m at next level, right associativity) : py_scope.
Notation "m ;;; k" := (bind m (λ _, k))
  (at level 100, right associativity) : py_scope.
Local Open Scope py_scope.

(** [for x in l: body x] *)
Fixpoint for_each {S A} (l : list A) (body : A → M S unit) : M S unit :=
  match l with
  | [] => ret tt
  | x :: l' => body x ;;; for_each l' body
  end.

(** [[f x for x in l]] where [f] may raise *)
Fixpoint map_each {S A B} (l : list A) (f : A → M S B) : M S (list B) :=
  match l with
  | [] => ret []
  | x :: l' => y <- f x ;; ys <- map_each l' f ;; ret (y :: ys)
  end.

(** [joblib.Parallel(n_jobs=-1, backend="threading")(delayed(f)(x) for x in l)]

    The tasks are handed to worker threads, one per processor.  The threads
    decide which task takes effect before which; once a task has raised, no
    new task is started, the tasks already started may still take effect,
    and one of the exceptions raised is raised again in the caller.  A
    [Schedule] holds these decisions, which may differ from one call to the
    next: they are given for the state in which [Parallel] is called.

    A task is one step of the model: the state holds the effects of a task
    together, in the order in which the task made them.  For a task with at
    most one effect ([_add_annotation], [_download_image]) this is the order
    of a real run; the effects of two tasks with several effects
    ([_export_metadata]) may alternate in a real run, and the state then
    groups them by task. *)
Class Schedule (S : Type) := mkSchedule {
  (** at each step, which of the tasks left takes effect next *)
  turn : S → nat → nat;
  (** how many of the tasks left still take effect once one has raised *)
  linger : S → nat;
  (** which of the exceptions raised is raised again in the caller *)
  blame : S → nat }.

(** The tasks in the order in which they take effect: at each step the task
    at the position [turn step], counted round the tasks left, for [fuel]
    steps. *)
Fixpoint scheduled {A} (turn : nat → nat) (step fuel : nat) (l : list A)
    : list A :=
  match fuel with
  | O => []
  | Datatypes.S fuel' =>
      let i := (turn step `mod` length l)%nat in
      match l !! i with
      | Some x => x :: scheduled turn (Datatypes.S step) fuel' (delete i l)
      | None => []
      end
  end.

(** The tasks that take effect after one has raised, with the exceptions
    they raise. *)
Fixpoint lingering {S A} (l : list A) (task : A → M S unit) (s : S)
    : S * list exn :=
  match l with
  | [] => (s, [])
  | x :: l' =>
      match task x s with
      | (s', Return _) => lingering l' task s'
      | (s', Raise e) =>
          let '(s'', es) := lingering l' task s' in (s'', e :: es)
      end
  end.

(** The tasks [l], in the order in which they take effect. *)
Fixpoint run_tasks {S A} (linger blame : nat) (l : list A)
    (task : A → M S unit) (s : S) : S * outcome unit :=
  match l with
  | [] => (s, Return tt)
  | x :: l' =>
      match task x s with
      | (s', Return _) => run_tasks linger blame l' task s'
      | (s', Raise e) =>
          let '(s'', es) := lingering (take linger l') task s' in
          (s'', Raise (default e ((e :: es) !! (blame `mod` length (e :: es))%nat)))
      end
  end.

Definition Parallel {S} `{!Schedule S} {A} (l : list A) (task : A → M S unit)
    : M S unit :=
  λ s, run_tasks (linger s) (blame s) (scheduled (turn s) 0 (length l) l) task s.

(** [find_first] *)
Definition find_first {A} (l : list A) : option A :=
  match l with
  | x :: _ => Some x
  | [] => None
  end.

(** ** Entities of the snapshot and of the target server

    Identifiers are Python integers.  A timestamp, a reviewer and the
    parent of a term may be [None]. *)

Record User := mkUser {
  user_id : Z; username : string; password : option string;
  roles : list string; user_created : option Z; user_updated : option Z }.

Record Ontology := mkOntology {
  ontology_id : Z; ontology_name : string; ontology_user : Z;
  ontology_created : option Z; ontology_updated : option Z }.

Record Term := mkTerm {
  term_id : Z; term_name : string; term_color : string; term_ontology : Z;
  term_parent : option Z; term_created : option Z; term_updated : option Z }.

Record Project := mkProject {
  project_id : Z; project_name : string; project_ontology : Z;
  project_discipline : option Z; project_users : list Z;
  project_admins : list Z;
  project_created : option Z; project_updated : option Z }.

Record Storage := mkStorage { storage_id : Z; storage_user : Z }.

Record AbstractImage := mkAbstractImage {
  ai_id : Z; ai_originalFilename : string; ai_width : Z; ai_height : Z;
  ai_magnification : option Z;
  ai_created : option Z; ai_updated : option Z }.

Record ImageInstance := mkImageInstance {
  ii_id : Z; ii_baseImage : Z; ii_originalFilename : string;
  ii_instanceFilename : string; ii_user : Z; ii_width : Z; ii_height : Z;
  ii_magnification : option Z;
  ii_reviewStart : option Z; ii_reviewStop : option Z;
  ii_reviewUser : option Z;
  ii_created : option Z; ii_updated : option Z }.

(** An annotation as sent to the server: [id] and [slice] can be [None];
    [location] is the geometry; [a_rest] stands for every other field of the
    document, by name. *)
Record Annotation := mkAnnotation {
  a_id : option Z; a_slice : option Z;
  a_project : Z; a_image : Z; a_user : Z; a_term : list Z;
  a_created : option Z; a_updated : option Z;
  a_location : string; a_rest : list (string * string) }.

Record Property := mkProperty {
  prop_id : option Z; prop_domainIdent : Z; prop_domainClassName : string;
  prop_key : string; prop_value : string }.

Record AttachedFile := mkAttachedFile {
  af_id : option Z; af_domainIdent : Z; af_domainClassName : string;
  af_filename : string }.

Record Description := mkDescription {
  desc_id : option Z; desc_domainIdent : Z; desc_domainClassName : string;
  desc_data : string }.

(** The documents of one exported project, as [json.load] returns them. *)
Record Snapshot := mkSnapshot {
  snap_users : list User;
  snap_ontology : Ontology;
  snap_terms : list Term;
  snap_project : Project;
  snap_images : list ImageInstance;
  snap_annotations : list Annotation;
  snap_properties : list (list Property);
  snap_files : list (list AttachedFile);
  snap_descriptions : list Description }.

(** Calls issued to the server, in order.  A [Sleep] is in milliseconds. *)
Inductive call : Type :=
| ConnectAs (user : Z) (open_admin_session : bool)
| SaveUser (u : User)
| SaveOntology (o : Ontology)
| SaveTerm (t : Term)
| SaveRelationTerm (parent child : Z)
| SaveProject (p : Project)
| SaveImageInstance (base project : Z)
| UploadImage (host filename : string) (storage project : Z)
| FetchImageInstances (project : Z)
| Sleep (ms : Z)
| UpdateImageInstance (i : ImageInstance)
| UpdateAbstractImage (a : AbstractImage)
| SaveAnnotation (a : Annotation)
| SaveProperty (p : Property)
| SaveAttachedFile (f : AttachedFile)
| SaveDescription (d : Description) (object_class : string) (object_id : Z).

(** The importer's attributes that change during a run, and the target
    server: the collections the importer fetches, the abstract images and
    the successive answers to the query of the project's image instances
    once the uploads are being deployed, and the next fresh identifier. *)
Record World := mkWorld {
  id_mapping : gmap Z Z;
  remote_users : list User;
  remote_project : option Project;
  super_admin : Z;
  current_user : Z;
  users : list User;
  ontologies : list Ontology;
  terms : list Term;
  projects : list Project;
  storages : list Storage;
  abstract_images : list AbstractImage;
  abstract_store : gmap Z AbstractImage;
  image_feed : nat → list ImageInstance;
  next_id : Z;
  calls : list call }.

Definition set_id_mapping (f : gmap Z Z → gmap Z Z) (w : World) : World :=
  mkWorld (f (id_mapping w)) (remote_users w) (remote_project w)
    (super_admin w) (current_user w) (users w) (ontologies w) (terms w)
    (projects w) (storages w) (abstract_images w) (abstract_store w)
    (image_feed w) (next_id w) (calls w).

Definition set_remote_users (l : list User) (w : World) : World :=
  mkWorld (id_mapping w) l (remote_project w)
    (super_admin w) (current_user w) (users w) (ontologies w) (terms w)
    (projects w) (storages w) (abstract_images w) (abstract_store w)
    (image_feed w) (next_id w) (calls w).

Definition set_remote_project (p : Project) (w : World) : World :=
  mkWorld (id_mapping w) (remote_users w) (Some p)
    (super_admin w) (current_user w) (users w) (ontologies w) (terms w)
    (projects w) (storages w) (abstract_images w) (abstract_store w)
    (image_feed w) (next_id w) (calls w).

Definition set_super_admin (u : Z) (w : World) : World :=
  mkWorld (id_mapping w) (remote_users w) (remote_project w)
    u (current_user w) (users w) (ontologies w) (terms w)
    (projects w) (storages w) (abstract_images w) (abstract_store w)
    (image_feed w) (next_id w) (calls w).

(** What the server does with a call: it logs it, and a creation takes the
    next fresh identifier and joins its collection. *)
Definition server (c : call) (w : World) : World :=
  let w' :=
    mkWorld (id_mapping w) (remote_users w) (remote_project w) (super_admin w)
      (match c with ConnectAs u _ => u | _ => current_user w end)
      (match c with
       | SaveUser u => users w ++ [u] | _ => users w end)
      (match c with
       | SaveOntology o => ontologies w ++ [o] | _ => ontologies w end)
      (match c with
       | SaveTerm t => terms w ++ [t] | _ => terms w end)
      (match c with
       | SaveProject p => projects w ++ [p] | _ => projects w end)
      (storages w) (abstract_images w)
      (match c with
       | UpdateAbstractImage a => <[ai_id a := a]> (abstract_store w)
       | _ => abstract_store w end)
      (image_feed w)
      (match c with
       | SaveUser _ | SaveOntology _ | SaveTerm _ | SaveProject _ =>
           (next_id w + 1)%Z
       | _ => next_id w end)
      (calls w ++ [c]) in
  w'.

Definition do_call (c : call) : M World unit := modify (server c).

(** ** The identifier mapping: a Python dict from origin to target ids *)

(** [d[k]] *)
Definition dict_get (d : gmap Z Z) (k : Z) : outcome Z :=
  match d !! k with
  | Some v => Return v
  | None => Raise (KeyError k)
  end.

(** [d[k] = v] *)
Definition dict_set (d : gmap Z Z) (k v : Z) : gmap Z Z := <[k := v]> d.

(** [self.id_mapping[k]] *)
Definition lookup_id (k : Z) : M World Z :=
  λ w, (w, dict_get (id_mapping w) k).

(** [self.id_mapping[k] = v] *)
Definition assign_id (k v : Z) : M World unit :=
  modify (set_id_mapping (λ d, dict_set d k v)).

(** [connect_as(User().fetch(u))] and [connect_as(self.super_admin, True)] *)
Definition connect_as (u : Z) (open_admin_session : bool) : M World unit :=
  do_call (ConnectAs u open_admin_session).

Definition connect_as_admin : M World unit :=
  w <- get ;; connect_as (super_admin w) true.

(** [x.save()] for the entities the server stores in a fetched collection:
    the server's identifier comes back in [x.id]. *)
Definition fresh_id : M World Z := gets next_id.

(** Python truth value of an optional identifier: [None] and [0] are false. *)
Definition truthy (o : option Z) : option Z :=
  match o with
  | Some z => if (z =? 0)%Z then None else Some z
  | None => None
  end.

(** ** Ontology and terms: [Importer.import_ontology] *)

Definition term_pair (t : Term) : string * string := (term_name t, term_color t).

(** The inner function [ontology_exists], reading [remote_ontology.name]
    as [name]. *)
Definition ontology_exists (ontologies : list Ontology) (terms remote_terms : list Term)
    (name : string) : bool * option Ontology :=
  match find_first
          (filter (λ o, ontology_name o = PyStr.strip name) ontologies) with
  | Some compatible_ontology =>
      let set1 : gset (string * string) :=
        list_to_set
          (term_pair <$>
             filter (λ t, term_ontology t = ontology_id compatible_ontology) terms) in
      let difference := filter (λ term, term_pair term ∉ set1) remote_terms in
      if (length difference =? 0)%nat then (true, Some compatible_ontology)
      else (false, None)
  | None => (true, None)
  end.

(** The loop [while not found], entered with [i]; [fuel] bounds the number
    of iterations. *)
Fixpoint ontology_probe (ontologies : list Ontology) (terms remote_terms : list Term)
    (remote_name : string) (fuel i : nat) : option (string * option Ontology) :=
  match fuel with
  | O => None
  | S fuel' =>
      let name := PyStr.suffixed remote_name i in
      match ontology_exists ontologies terms remote_terms name with
      | (true, existing_ontology) => Some (name, existing_ontology)
      | (false, _) =>
          ontology_probe ontologies terms remote_terms remote_name fuel' (S i)
      end
  end.

(** Lines 190-196: the name the ontology ends with, and the ontology to
    reuse, if any.  One more name than there are target ontologies is
    never needed ([ontology_resolve_total]). *)
Definition ontology_resolve (ontologies : list Ontology) (terms remote_terms : list Term)
    (remote_name : string) : option (string * option Ontology) :=
  match ontology_exists ontologies terms remote_terms remote_name with
  | (true, existing_ontology) => Some (remote_name, existing_ontology)
  | (false, _) =>
      ontology_probe ontologies terms remote_terms remote_name
        (length ontologies) 1
  end.

Definition loop_bound_reached {A} : M World A := raise LoopBound.

Section importer.

(** The attributes of the importer that a run does not change, the parsed
    snapshot, and the password drawn by [random_string(8)] for a user. *)
Variable with_original_date : bool.
Variable host_upload working_path : string.
Variable random_string : User → string.
Variable snapshot : Snapshot.
(** The decisions of the worker threads of [joblib]. *)
Context {schedule : Schedule World}.

Definition keep_date (d : option Z) : option Z :=
  if with_original_date then d else None.

Definition new_term (remote_term : Term) (ontology id : Z) : Term :=
  mkTerm id (term_name remote_term) (term_color remote_term) ontology None
    (keep_date (term_created remote_term))
    (keep_date (term_updated remote_term)).

(** Lines 211-222 *)
Definition create_term (remote_term : Term) : M World unit :=
  ontology <- lookup_id (term_ontology remote_term) ;;
  id <- fresh_id ;;
  do_call (SaveTerm (new_term remote_term ontology id)) ;;;
  assign_id (term_id remote_term) id.

(** Lines 224-231 *)
Definition create_relation (relation : option Z * Z) : M World unit :=
  let '(parent, child) := relation in
  match truthy parent with
  | Some parent =>
      p <- lookup_id parent ;;
      c <- lookup_id child ;;
      do_call (SaveRelationTerm p c)
  | None => ret tt
  end.

(** Lines 235-239 *)
Definition link_term (ontology_terms : list Term) (remote_term : Term)
    : M World unit :=
  match find_first
          (filter (λ t, term_name t = term_name remote_term) ontology_terms) with
  | Some t => assign_id (term_id remote_term) (term_id t)
  | None => raise AttributeError
  end.

Definition import_ontology : M World unit :=
  w <- get ;;
  let ontologies := ontologies w in
  let remote_ontology := snap_ontology snapshot in
  let remote_name := PyStr.strip (ontology_name remote_ontology) in
  let terms := terms w in
  let remote_terms := snap_terms snapshot in
  match ontology_resolve ontologies terms remote_terms remote_name with
  | None => loop_bound_reached
  | Some (name, existing_ontology) =>
      user <- lookup_id (ontology_user remote_ontology) ;;
      connect_as user false ;;;
      match existing_ontology with
      | None =>
          user <- lookup_id (ontology_user remote_ontology) ;;
          id <- fresh_id ;;
          do_call (SaveOntology
                     (mkOntology id name user
                        (keep_date (ontology_created remote_ontology))
                        (keep_date (ontology_updated remote_ontology)))) ;;;
          assign_id (ontology_id remote_ontology) id ;;;
          for_each remote_terms create_term ;;;
          for_each ((λ term, (term_parent term, term_id term)) <$> remote_terms)
            create_relation
      | Some existing_ontology =>
          assign_id (ontology_id remote_ontology) (ontology_id existing_ontology) ;;;
          let ontology_terms :=
            filter (λ t, term_ontology t = ontology_id existing_ontology) terms in
          for_each remote_terms (link_term ontology_terms)
      end ;;;
      connect_as_admin
  end.

(** *** Project: [Importer.import_project] *)

(** The loop of the inner function [available_name], entered with [i]. *)
Fixpoint available_name_loop (existing_names : list string) (name : string)
    (fuel i : nat) : option string :=
  match fuel with
  | O => None
  | S fuel' =>
      let new_name := PyStr.suffixed name i in
      if bool_decide (new_name ∈ existing_names)
      then available_name_loop existing_names name fuel' (S i)
      else Some new_name
  end.

(** [available_name], for the copy [project] named [name].  One more name
    than there are projects is never needed ([available_name_total]). *)
Definition available_name (projects : list Project) (name : string)
    : option string :=
  let existing_names := project_name <$> projects in
  if bool_decide (name ∈ existing_names)
  then available_name_loop existing_names name (length existing_names) 1
  else Some name.

(** [[u for u in self.remote_users if role in u.roles]] *)
Definition with_role (role : string) (l : list User) : list User :=
  filter (λ u, role ∈ roles u) l.

Definition import_project : M World unit :=
  w <- get ;;
  let projects := projects w in
  let remote_project :=
    let p := snap_project snapshot in
    mkProject (project_id p) (PyStr.strip (project_name p)) (project_ontology p)
      (project_discipline p) (project_users p) (project_admins p)
      (project_created p) (project_updated p) in
  modify (set_remote_project remote_project) ;;;
  match available_name projects (project_name remote_project) with
  | None => loop_bound_reached
  | Some name =>
      ontology <- lookup_id (project_ontology remote_project) ;;
      let project_contributors :=
        with_role "project_contributor" (remote_users w) in
      users <- map_each project_contributors (λ u, lookup_id (user_id u)) ;;
      let project_managers :=
        with_role "project_manager" (remote_users w) in
      admins <- map_each project_managers (λ u, lookup_id (user_id u)) ;;
      id <- fresh_id ;;
      do_call (SaveProject
                 (mkProject id name ontology None users admins
                    (keep_date (project_created remote_project))
                    (keep_date (project_updated remote_project)))) ;;;
      assign_id (project_id remote_project) id
  end.

(** *** Images: [Importer.import_images] *)

Definition starts_with_slash (s : string) : bool :=
  match s with
  | String a _ => Ascii.eqb a "/"%char
  | EmptyString => false
  end.

Fixpoint ends_with_slash (s : string) : bool :=
  match s with
  | EmptyString => false
  | String a EmptyString => Ascii.eqb a "/"%char
  | String _ s' => ends_with_slash s'
  end.

(** [os.path.join(a, b)] *)
Definition path_join (a b : string) : string :=
  if starts_with_slash b then b
  else if String.eqb a EmptyString || ends_with_slash a then a +:+ b
  else a +:+ "/" +:+ b.

(** [self.id_mapping[self.remote_project.id]] *)
Definition target_project : M World Z :=
  w <- get ;;
  match remote_project w with
  | Some p => lookup_id (project_id p)
  | None => raise AttributeError
  end.

Definition set_originalFilename (name : string) (i : ImageInstance)
    : ImageInstance :=
  mkImageInstance (ii_id i) (ii_baseImage i) name (ii_instanceFilename i)
    (ii_user i) (ii_width i) (ii_height i) (ii_magnification i)
    (ii_reviewStart i) (ii_reviewStop i) (ii_reviewUser i)
    (ii_created i) (ii_updated i).

(** Lines 297-356, one iteration; [remote_images_dict] is threaded. *)
Definition submit_image (remote_images_dict : gmap string (list ImageInstance))
    (remote_image : ImageInstance) : M World (gmap string (list ImageInstance)) :=
  let image := remote_image in
  let remote_image :=
    set_originalFilename (PyStr.ascii_ignore (ii_originalFilename remote_image))
      remote_image in
  let name := ii_originalFilename remote_image in
  let remote_images_dict :=
    match remote_images_dict !! name with
    | None => <[name := [remote_image]]> remote_images_dict
    | Some l => <[name := l ++ [remote_image]]> remote_images_dict
    end in
  user <- lookup_id (ii_user remote_image) ;;
  connect_as user false ;;;
  w <- get ;;
  storage <-
    match find_first (filter (λ s, storage_user s = current_user w) (storages w)) with
    | Some s => ret s
    | None => match storages w with
              | s :: _ => ret s
              | [] => raise IndexError
              end
    end ;;
  match find_first
          (filter (λ ai, ai_originalFilename ai = ii_originalFilename remote_image
                         ∧ ai_width ai = ii_width remote_image
                         ∧ ai_height ai = ii_height remote_image)
             (abstract_images w)) with
  | Some abstract_image =>
      project <- target_project ;;
      do_call (SaveImageInstance (ai_id abstract_image) project)
  | None =>
      let filename :=
        path_join (path_join working_path "images")
          (PyStr.replace_slash (ii_originalFilename image)) in
      project <- target_project ;;
      do_call (UploadImage host_upload filename (storage_id storage) project) ;;;
      do_call (Sleep 800)
  end ;;;
  connect_as_admin ;;;
  ret remote_images_dict.

(** [for x in l: acc = body acc x] *)
Fixpoint fold_each {S A B} (l : list A) (acc : B) (body : B → A → M S B)
    : M S B :=
  match l with
  | [] => ret acc
  | x :: l' => acc' <- body acc x ;; fold_each l' acc' body
  end.

(** Lines 358-369: the loop that waits for the images.  [remaining] is
    [len(remote_images) * 5 - count]; the attempt numbered [count + 1] is
    answered by [image_feed w (count + 1)]. *)
Fixpoint wait_images (expected : nat) (remaining count : nat) (n_new_images : Z)
    (new_images : option (list ImageInstance))
    : M World (option (list ImageInstance)) :=
  if bool_decide (n_new_images = Z.of_nat expected) then ret new_images
  else match remaining with
       | O => ret new_images
       | S remaining' =>
           project <- target_project ;;
           do_call (FetchImageInstances project) ;;;
           w <- get ;;
           let new_images := image_feed w (S count) in
           (if bool_decide (0 < count)%nat then do_call (Sleep 5000) else ret tt) ;;;
           wait_images expected remaining' (S count)
             (Z.of_nat (length new_images)) (Some new_images)
       end.

(** [l.pop()] *)
Definition pop {A} (l : list A) : option (A * list A) :=
  match reverse l with
  | x :: r => Some (x, reverse r)
  | [] => None
  end.

(** Lines 373-402, one iteration. *)
Definition fix_image (remote_images_dict : gmap string (list ImageInstance))
    (new_image : ImageInstance) : M World (gmap string (list ImageInstance)) :=
  match remote_images_dict !! ii_originalFilename new_image with
  | None => raise (KeyErrorStr (ii_originalFilename new_image))
  | Some l =>
      match pop l with
      | None => raise IndexError
      | Some (remote_image, l') =>
          let remote_images_dict :=
            <[ii_originalFilename new_image := l']> remote_images_dict in
          reviewUser <-
            match truthy (ii_reviewUser remote_image) with
            | Some r => v <- lookup_id r ;; ret (Some v)
            | None => ret None
            end ;;
          let new_image :=
            mkImageInstance (ii_id new_image) (ii_baseImage new_image)
              (ii_originalFilename new_image) (ii_instanceFilename remote_image)
              (ii_user new_image) (ii_width new_image) (ii_height new_image)
              (ii_magnification new_image)
              (ii_reviewStart remote_image) (ii_reviewStop remote_image)
              reviewUser
              (if with_original_date then ii_created remote_image
               else ii_created new_image)
              (if with_original_date then ii_updated remote_image
               else ii_updated new_image) in
          do_call (UpdateImageInstance new_image) ;;;
          assign_id (ii_id remote_image) (ii_id new_image) ;;;
          assign_id (ii_baseImage remote_image) (ii_baseImage new_image) ;;;
          w <- get ;;
          match abstract_store w !! ii_baseImage new_image with
          | None => raise AttributeError
          | Some new_abstract =>
              do_call (UpdateAbstractImage
                (mkAbstractImage (ai_id new_abstract)
                   (ai_originalFilename new_abstract)
                   (ai_width new_abstract) (ai_height new_abstract)
                   (match ai_magnification new_abstract with
                    | None => ii_magnification remote_image
                    | Some m => Some m
                    end)
                   (if with_original_date then ii_created remote_image
                    else ai_created new_abstract)
                   (if with_original_date then ii_updated remote_image
                    else ai_updated new_abstract)))
          end ;;;
          ret remote_images_dict
      end
  end.

(** Lines 372-404: [for new_image in new_images] *)
Definition fix_images (remote_images_dict : gmap string (list ImageInstance))
    (new_images : option (list ImageInstance)) : M World unit :=
  match new_images with
  | None => raise TypeError
  | Some new_images =>
      fold_each new_images remote_images_dict fix_image ;;; ret tt
  end.

Definition import_images : M World unit :=
  let remote_images := snap_images snapshot in
  remote_images_dict <- fold_each remote_images ∅ submit_image ;;
  new_images <-
    wait_images (length remote_images) (length remote_images * 5) 0 (-1) None ;;
  fix_images remote_images_dict new_images.

(** *** Annotations: [Importer.import_annotations] *)

(** The inner function [_add_annotation]; [id_mapping] is the importer's
    own dict and [with_original_date] its attribute. *)
Definition _add_annotation (remote_annotation : Annotation) : M World unit :=
  w <- get ;;
  if bool_decide (a_project remote_annotation ∉ dom (id_mapping w)
                  ∨ a_image remote_annotation ∉ dom (id_mapping w))
  then ret tt
  else
    project <- lookup_id (a_project remote_annotation) ;;
    image <- lookup_id (a_image remote_annotation) ;;
    user <- lookup_id (a_user remote_annotation) ;;
    term <- map_each (a_term remote_annotation) lookup_id ;;
    do_call (SaveAnnotation
               (mkAnnotation None None project image user term
                  (keep_date (a_created remote_annotation))
                  (keep_date (a_updated remote_annotation))
                  (a_location remote_annotation)
                  (a_rest remote_annotation))).

(** Lines 435-449, one creator. *)
Definition import_annotations_of (remote_annots : list Annotation) (user : User)
    : M World unit :=
  let remote_annots_for_user :=
    filter (λ a, a_user a = user_id user) remote_annots in
  u <- lookup_id (user_id user) ;;
  connect_as u false ;;;
  Parallel remote_annots_for_user _add_annotation ;;;
  connect_as_admin.

Definition import_annotations : M World unit :=
  let remote_annots := snap_annotations snapshot in
  w <- get ;;
  for_each (with_role "userannotation_creator" (remote_users w))
    (import_annotations_of remote_annots).

(** *** Metadata: [Importer.import_metadata] *)

Definition import_property (remote_property : Property) : M World unit :=
  domainIdent <- lookup_id (prop_domainIdent remote_property) ;;
  do_call (SaveProperty
             (mkProperty None domainIdent
                (prop_domainClassName remote_property)
                (prop_key remote_property) (prop_value remote_property))).

Definition import_attached_file (remote_af : AttachedFile) : M World unit :=
  domainIdent <- lookup_id (af_domainIdent remote_af) ;;
  do_call (SaveAttachedFile
             (mkAttachedFile None domainIdent (af_domainClassName remote_af)
                (path_join (path_join working_path "attached_files")
                   (af_filename remote_af)))).

Definition import_description (remote_desc : Description) : M World unit :=
  domainIdent <- lookup_id (desc_domainIdent remote_desc) ;;
  do_call (SaveDescription
             (mkDescription None domainIdent (desc_domainClassName remote_desc)
                (desc_data remote_desc))
             (desc_domainClassName remote_desc) domainIdent).

Definition import_metadata : M World unit :=
  for_each (snap_properties snapshot)
    (λ file, for_each file import_property) ;;;
  for_each (snap_files snapshot)
    (λ file, for_each file import_attached_file) ;;;
  for_each (snap_descriptions snapshot) import_description.

(** *** The run: [Importer.run] *)

(** Lines 498-509, one user; [users] was fetched before the loop. *)
Definition import_user (users : list User) (remote_user : User) : M World unit :=
  match find_first
          (filter (λ u, username u = username remote_user) users) with
  | Some user => assign_id (user_id remote_user) (user_id user)
  | None =>
      id <- fresh_id ;;
      do_call (SaveUser
                 (mkUser id (username remote_user)
                    (match password remote_user with
                     | None => Some (random_string remote_user)
                     | Some p =>
                         if String.eqb p EmptyString then Some (random_string remote_user)
                         else Some p
                     end)
                    (roles remote_user)
                    (keep_date (user_created remote_user))
                    (keep_date (user_updated remote_user)))) ;;;
      assign_id (user_id remote_user) id
  end.

Definition run : M World unit :=
  w <- get ;;
  modify (set_super_admin (current_user w)) ;;;
  connect_as_admin ;;;
  w <- get ;;
  let users := users w in
  modify (set_remote_users (snap_users snapshot)) ;;;
  for_each (snap_users snapshot) (import_user users) ;;;
  import_ontology ;;;
  connect_as_admin ;;;
  import_project ;;;
  import_images ;;;
  import_annotations ;;;
  import_metadata.

End importer.

(** ** The exporter's batch of downloads: [Exporter.export_images] *)

Section exporter.

(** What [image.download(...)] does for an image: it returns [True] with
    the file written, returns [False], or raises. *)
Variable download : ImageInstance → outcome bool.
(** The decisions of the worker threads of [joblib]. *)
Context {schedule : Schedule (list string)}.

(** The state is the list of the files written so far. *)
Definition _download_image (image : ImageInstance) (path : string)
    : M (list string) unit :=
  match download image with
  | Return true =>
      modify (λ files, files ++ [path_join path (ii_originalFilename image)])
  | Return false => ret tt
  | Raise e => raise e
  end.

(** Lines 208-223 *)
Definition export_images_download (with_image_download : bool)
    (project_path : string) (images : list ImageInstance) : M (list string) unit :=
  if with_image_download then
    let image_path := path_join project_path "images" in
    Parallel images (λ image, _download_image image image_path)
  else ret tt.

End exporter.

(** ** The documents of an export: [Models], [Importer._get_filenames] *)

(** The members of the enumeration [Models], in the order of their
    definition, which is the order in which [filter(..., Models)] goes
    through them. *)
Inductive Models : Type :=
| DESCRIPTION | FILE | IMAGE_INSTANCE | ONTOLOGY | PROJECT | PROPERTY
| TERM | USER_ANNOTATION | USER.

Definition Models_value (m : Models) : string :=
  match m with
  | DESCRIPTION => "description"
  | FILE => "attached-files"
  | IMAGE_INSTANCE => "imageinstance-collection"
  | ONTOLOGY => "ontology"
  | PROJECT => "project"
  | PROPERTY => "properties"
  | TERM => "term-collection"
  | USER_ANNOTATION => "user-annotation-collection"
  | USER => "user-collection"
  end.

Definition Models_members : list Models :=
  [DESCRIPTION; FILE; IMAGE_INSTANCE; ONTOLOGY; PROJECT; PROPERTY; TERM;
   USER_ANNOTATION; USER].

Global Instance Models_eq_dec : EqDecision Models.
Proof. solve_decision. Defined.

Definition Models_index (m : Models) : nat :=
  match m with
  | DESCRIPTION => 0 | FILE => 1 | IMAGE_INSTANCE => 2 | ONTOLOGY => 3
  | PROJECT => 4 | PROPERTY => 5 | TERM => 6 | USER_ANNOTATION => 7
  | USER => 8
  end.

Global Instance Models_countable : Countable Models.
Proof.
  apply (inj_countable' Models_index (λ n, default USER (Models_members !! n))).
  intros []; reflexivity.
Defined.

(** [s.startswith(prefix)] *)
Definition startswith (s prefix : string) : bool := String.prefix prefix s.

(** [next(filter(filename.startswith, Models), None)] *)
Definition model_of (filename : string) : option Models :=
  find_first
    (filter (λ m, startswith filename (Models_value m) = true) Models_members).

(** A value of the dict of file names: one path, or a list of paths. *)
Inductive entry : Type :=
| Path (p : string)
| Paths (l : list string).

(** [key in [Models.DESCRIPTION, Models.FILE, Models.PROPERTY]] *)
Definition holds_list (key : option Models) : bool :=
  match key with
  | Some DESCRIPTION | Some FILE | Some PROPERTY => true
  | _ => false
  end.

(** Lines 142-149, one file name. *)
Definition add_filename (working_path filename : string)
    : M (gmap (option Models) entry) unit :=
  let key := model_of filename in
  let path := path_join working_path filename in
  if holds_list key then
    mapping <- get ;;
    match mapping !! key with
    | Some (Paths l) => modify (λ _, <[key := Paths (l ++ [path])]> mapping)
    | Some (Path _) => raise AttributeError
    | None => raise (KeyErrorStr (from_option Models_value EmptyString key))
    end
  else modify (<[key := Path path]>).

(** [_get_filenames], for the names [filenames] of the regular files that
    [os.listdir(self.working_path)] lists, in its order. *)
Definition _get_filenames (working_path : string) (filenames : list string)
    : outcome (gmap (option Models) entry) :=
  let mapping : gmap (option Models) entry :=
    list_to_map ((λ model, (Some model, Paths [])) <$> Models_members) in
  match for_each filenames (add_filename working_path) mapping with
  | (mapping, Return _) => Return mapping
  | (_, Raise e) => Raise e
  end.

(** [open(self.filenames[key], "r", encoding="utf-8")]: the path of the file
    opened.  [open] of a list raises [TypeError]. *)
Definition open_document (mapping : gmap (option Models) entry) (key : Models)
    : outcome string :=
  match mapping !! Some key with
  | Some (Path p) => Return p
  | Some (Paths _) => Raise TypeError
  | None => Raise (KeyErrorStr (Models_value key))
  end.

(** ** The importer's script: the path given to the importer *)

(** [s.endswith(suffix)]: [suffix] is [s] or the end of its tail. *)
Fixpoint endswith (s suffix : string) : bool :=
  String.eqb s suffix
  || match s with
     | EmptyString => false
     | String _ s' => endswith s' suffix
     end.

(** [s[:-k]], for [k] positive. *)
Definition drop_last (k : nat) (s : string) : string :=
  String.substring 0 (String.length s - k) s.

(** [s.rfind(c)]: the highest position of [c] in [s], [-1] without one. *)
Fixpoint rfind (s : string) (c : ascii) : Z :=
  match s with
  | EmptyString => -1
  | String a s' =>
      let r := rfind s' c in
      if (0 <=? r)%Z then (r + 1)%Z
      else if Ascii.eqb a c then 0%Z else (-1)%Z
  end.

(** [s[i:]], for [i] not negative. *)
Definition slice_from (i : Z) (s : string) : string :=
  String.substring (Z.to_nat i) (String.length s - Z.to_nat i) s.

(** [open(path, "wb", encoding="utf-8")]: [open] refuses an encoding in
    binary mode, whatever the path. *)
Definition open_wb_utf8 (path : string) : outcome unit := Raise ValueError.

(** Lines 557-558 *)
Definition is_url (project_path : string) : bool :=
  startswith project_path "http://" || startswith project_path "https://".

Section script.

(** [requests.get(url, allow_redirects=True, stream=True)] answers or
    raises; [tarfile.open(archive, mode, encoding="utf-8")] followed by
    [tar.extractall(os.path.dirname(archive))] returns or raises. *)
Variable requests_get : string → outcome unit.
Variable extractall : string → string → outcome unit.

(** Lines 557-569 *)
Definition downloaded_path (project_path : string) : outcome string :=
  if is_url project_path then
    match requests_get project_path with
    | Return _ =>
        let project_path :=
          slice_from (rfind project_path "/" + 1) project_path in
        match open_wb_utf8 project_path with
        | Return _ => Return project_path
        | Raise e => Raise e
        end
    | Raise e => Raise e
    end
  else Return project_path.

(** Lines 571-578 *)
Definition extracted_path (project_path : string) : outcome string :=
  if endswith project_path ".tar.gz" then
    match extractall project_path "r:gz" with
    | Return _ => Return (drop_last 7 project_path)
    | Raise e => Raise e
    end
  else if endswith project_path ".tar" then
    match extractall project_path "r:" with
    | Return _ => Return (drop_last 4 project_path)
    | Raise e => Raise e
    end
  else Return project_path.

(** Lines 557-578: the working path that line 580 gives to [Importer], for
    the argument [project_path] of the script. *)
Definition script_project_path (project_path : string) : outcome string :=
  match downloaded_path project_path with
  | Return project_path => extracted_path project_path
  | Raise e => Raise e
  end.

End script.

(** Line 555, for the parsed arguments [params], each with its value:
    [{k: v for (k, v) in vars(params).items() if k.startswith("without")}] *)
Definition importer_options {V} (params : list (string * V))
    : list (string * V) :=
  filter (λ kv, startswith kv.1 "without" = true) params.

(** Lines 531-552: the arguments that the parser of the importer declares,
    with their values. *)
Definition importer_params {V} (host host_upload public_key private_key
    project_path : V) : list (string * V) :=
  [("host", host); ("host_upload", host_upload); ("public_key", public_key);
   ("private_key", private_key); ("project_path", project_path)].

(** [Importer(host_upload, working_path, **options)]: the value bound to
    [with_original_date], [None] standing for the default [False]; another
    keyword is a [TypeError]. *)
Fixpoint bind_with_original_date {V} (options : list (string * V))
    (default : option V) : outcome (option V) :=
  match options with
  | [] => Return default
  | (k, v) :: options' =>
      if String.eqb k "with_original_date"
      then bind_with_original_date options' (Some v)
      else Raise TypeError
  end.

(** ** The exporter's users: [find_or_append_by_id], [Exporter.save_user],
    [Exporter.export_users] *)

(** A user as the exporter fetched it; [eu_roles] is [None] when the object
    has no attribute [roles]; [eu_rest] stands for every other attribute. *)
Record ExportedUser := mkExportedUser {
  eu_id : Z; eu_username : string; eu_firstname : string;
  eu_lastname : string; eu_email : string;
  eu_roles : option (list string);
  eu_rest : list (string * string) }.

(** [find_or_append_by_id(obj, l)]: the list afterwards, and the position in
    it of the object returned, which is an element of the list. *)
Definition find_or_append_by_id (obj : ExportedUser) (l : list ExportedUser)
    : nat * list ExportedUser :=
  match list_find (λ i, eu_id i = eu_id obj) l with
  | Some (n, _) => (n, l)
  | None => (length l, l ++ [obj])
  end.

(** Python truth value of an optional string: [None] and the empty string
    are false. *)
Definition str_truthy (s : option string) : option string :=
  match s with
  | Some (String a r) => Some (String a r)
  | _ => None
  end.

(** Lines 133-136, on the object [u]. *)
Definition add_role (role : option string) (u : ExportedUser) : ExportedUser :=
  let roles := match eu_roles u with Some r => r | None => [] end in
  mkExportedUser (eu_id u) (eu_username u) (eu_firstname u) (eu_lastname u)
    (eu_email u)
    (Some (match str_truthy role with
           | Some role => roles ++ [role]
           | None => roles
           end))
    (eu_rest u).

(** [self.save_user(user, role)], on [self.users]. *)
Definition save_user (user : ExportedUser) (role : option string)
    (users : list ExportedUser) : list ExportedUser :=
  let '(n, users) := find_or_append_by_id user users in
  alter (add_role role) n users.

(** Lines 163-172: the managers, then the contributors. *)
Definition export_project_users (admins members : list ExportedUser)
    : M (list ExportedUser) unit :=
  for_each admins (λ admin, modify (save_user admin (Some "project_manager"))) ;;;
  for_each members (λ user, modify (save_user user (Some "project_contributor"))).

(** Lines 279-282, for the user at the position [i]. *)
Definition anonymized (i : nat) (user : ExportedUser) : ExportedUser :=
  mkExportedUser (eu_id user)
    ("anonymized_user" +:+ pretty (i + 1)%nat)
    "Anonymized"
    ("User " +:+ pretty (i + 1)%nat)
    ("anonymous" +:+ pretty (i + 1)%nat +:+ "@unknown.com")
    (eu_roles user) (eu_rest user).

(** Lines 277-282 *)
Definition anonymize_users (anonymize : bool) (users : list ExportedUser)
    : list ExportedUser :=
  if anonymize then imap anonymized users else users.

(** ** The exporter's documents: [Exporter.save_object],
    [Exporter.export_metadata] *)

(** What [save_object] is given: [False] (what a fetch that failed
    returns), a model, or a collection, with the identifiers of its items.
    The callback identifier is an attribute of the class of the object. *)
Inductive exported : Type :=
| NotFetched
| AModel (callback_identifier : string) (id : Z)
| ACollection (callback_identifier : string) (items : list Z).

(** Python truth value: a collection is true when it is not empty. *)
Definition exported_truthy (obj : exported) : bool :=
  match obj with
  | NotFetched => false
  | AModel _ _ => true
  | ACollection _ items => negb (length items =? 0)%nat
  end.

(** Lines 144-149: the name of the file, for an object that is true. *)
Definition document_name (obj : exported) (filename : option string) : string :=
  match str_truthy filename with
  | Some filename => filename +:+ ".json"
  | None =>
      match obj with
      | AModel callback_identifier id =>
          callback_identifier +:+ "-" +:+ pretty id +:+ ".json"
      | ACollection callback_identifier _ =>
          callback_identifier +:+ "-collection.json"
      | NotFetched => EmptyString
      end
  end.

(** What the exporter leaves on the disk, in order: a document written by
    [save_object], or the download of the attached file [attached_file]
    under a pattern. *)
Inductive written : Type :=
| Document (path : string) (obj : exported)
| Download (pattern : string) (attached_file : Z).

(** [self.save_object(obj, filename)] *)
Definition save_object (project_path : string) (obj : exported)
    (filename : option string) : M (list written) unit :=
  if exported_truthy obj
  then modify (λ files,
         files ++ [Document (path_join project_path (document_name obj filename)) obj])
  else ret tt.

(** The names under which [_export_metadata] saves the metadata of the
    object [id]. *)
Definition properties_name (id : Z) : string :=
  "properties-object-" +:+ pretty id +:+ "-collection".
Definition attached_files_name (id : Z) : string :=
  "attached-files-object-" +:+ pretty id +:+ "-collection".
Definition description_name (id : Z) : string :=
  "description-object-" +:+ pretty id.

(** [len(obj)] *)
Definition len (obj : exported) : outcome nat :=
  match obj with
  | ACollection _ items => Return (length items)
  | _ => Raise TypeError
  end.

(** [for x in obj] *)
Definition items_of (obj : exported) : outcome (list Z) :=
  match obj with
  | ACollection _ items => Return items
  | _ => Raise TypeError
  end.

Definition lift {S A} (o : outcome A) : M S A := λ s, (s, o).

Section export_metadata.

(** The attributes of the exporter, and what the three fetches return for
    the object [id]. *)
Variable project_path : string.
Variable attached_file_path : option string.
Variable fetch_properties fetch_attached_files fetch_description : Z → exported.
(** The decisions of the worker threads of [joblib]. *)
Context {schedule : Schedule (list written)}.

(** The inner function [_export_metadata], for the object [id]. *)
Definition _export_metadata (id : Z) : M (list written) unit :=
  let properties := fetch_properties id in
  n <- lift (len properties) ;;
  (if bool_decide (0 < n)%nat
   then save_object project_path properties (Some (properties_name id))
   else ret tt) ;;;
  let attached_files := fetch_attached_files id in
  n <- lift (len attached_files) ;;
  (if bool_decide (0 < n)%nat
   then
     save_object project_path attached_files (Some (attached_files_name id)) ;;;
     l <- lift (items_of attached_files) ;;
     for_each l (λ attached_file,
       match attached_file_path with
       | Some attached_file_path =>
           modify (λ files,
             files ++ [Download (path_join attached_file_path "{filename}")
                         attached_file])
       | None => raise TypeError
       end)
   else ret tt) ;;;
  let description := fetch_description id in
  if exported_truthy description
  then save_object project_path description (Some (description_name id))
  else ret tt.

(** [self.export_metadata(objects)] *)
Definition export_metadata (objects : list Z) : M (list written) unit :=
  Parallel objects _export_metadata.

End export_metadata.

(** * The vocabulary of the properties

    What the theorems below speak of: relations between worlds, the call
    logs expected from a phase, the names that the searches compare, the
    conditions of the specification in its own words, and the concrete
    snapshots and targets of the examples. *)

(** ** Relations between worlds, call logs, names *)

(** [m] moves every state to an [R]-related one, whether it returns or
    raises. *)
Definition stable {S : Type} (R : relation S) {A : Type} (m : M S A)
    : Prop := ∀ s, R s (m s).1.

(** The identifiers mapped in [w] are still mapped in [w']. *)
Definition grows (w w' : World) : Prop :=
  dom (id_mapping w) ⊆ dom (id_mapping w').

(** The dict after the writes [l], oldest first, starting from the empty one. *)
Definition puts (l : list (Z * Z)) : gmap Z Z :=
  foldl (λ d p, dict_set d p.1 p.2) ∅ l.

(** The first identifier of [refs] that [d] does not map. *)
Definition first_unresolved (d : gmap Z Z) (refs : list Z) : option Z :=
  find_first (filter (λ k, d !! k = None) refs).

(** What resolving [refs] in order gives: the [KeyError] of the first one
    that is unresolved. *)
Definition resolves (d : gmap Z Z) (refs : list Z) : outcome unit :=
  match first_unresolved d refs with
  | Some k => Raise (KeyError k)
  | None => Return tt
  end.



(** The claim of the specification for one step [m] from [w]: a mapped
    identifier keeps its target. *)
Definition spec_keeps_targets {A} (m : M World A) (w : World) : Prop :=
  ∀ k v, id_mapping w !! k = Some v → id_mapping (m w).1 !! k = Some v.


(** The server after the calls [l], oldest first. *)
Definition serve_all (l : list call) (w : World) : World :=
  foldl (λ w c, server c w) w l.

(** The calls of the attempts numbered [count + 1] to [count + attempts]:
    one query each, followed by a sleep of 5 s in every attempt but the one
    numbered 1. *)
Fixpoint poll_calls (project : Z) (count attempts : nat) : list call :=
  match attempts with
  | O => []
  | S attempts' =>
      FetchImageInstances project
        :: (if bool_decide (0 < count)%nat then [Sleep 5000] else [])
        ++ poll_calls project (S count) attempts'
  end.

Definition is_query (c : call) : bool :=
  match c with FetchImageInstances _ => true | _ => false end.

Definition is_sleep (c : call) : bool :=
  match c with Sleep _ => true | _ => false end.

Definition is_save_annotation (c : call) : bool :=
  match c with SaveAnnotation _ => true | _ => false end.

Definition is_metadata (c : call) : bool :=
  match c with
  | SaveProperty _ | SaveAttachedFile _ | SaveDescription _ _ _ => true
  | _ => false
  end.

Definition count_calls (f : call → bool) (l : list call) : nat :=
  length (filter (λ c, f c = true) l).

(** The project of the snapshot is known and mapped to [project]. *)
Definition project_mapped (p : Project) (project : Z) (w : World) : Prop :=
  remote_project w = Some p ∧ id_mapping w !! project_id p = Some project.

(** What [_add_annotation] sends for [a] when its references resolve to
    [project], [image], [user] and [term]. *)
Definition sent_annotation (with_original_date : bool) (a : Annotation)
    (project image user : Z) (term : list Z) : Annotation :=
  mkAnnotation None None project image user term
    (keep_date with_original_date (a_created a))
    (keep_date with_original_date (a_updated a))
    (a_location a) (a_rest a).

(** The claim of the specification for a batch of annotations of one
    creator, from [w]: when exactly one of the [N] tasks raises, the phase
    returns and [N - 1] annotations have been persisted. *)
Definition spec_one_failure_is_isolated {schedule : Schedule World}
    (with_original_date : bool) (annots : list Annotation) (user : User)
    (w : World) : Prop :=
  let r := import_annotations_of with_original_date annots user w in
  r.2 = Return tt
  ∧ count_calls is_save_annotation (calls r.1)
    = (count_calls is_save_annotation (calls w) + pred (length annots))%nat.

(** The names tried in turn: the name itself, then ["name (1)"],
    ["name (2)"], ... *)
Definition candidate (name : string) (i : nat) : string :=
  match i with
  | O => name
  | S _ => PyStr.suffixed name i
  end.

(** What [import_project] does once the name is chosen. *)
Definition creates_project (with_original_date : bool) (s : Snapshot)
    (name : string) (w : World) (r : World * outcome unit) : Prop :=
  match r with
  | (w', Return _) =>
      ∃ ontology users admins,
        id_mapping w !! project_ontology (snap_project s) = Some ontology
        ∧ projects w' =
            projects w ++
              [mkProject (next_id w) name ontology None users admins
                 (keep_date with_original_date (project_created (snap_project s)))
                 (keep_date with_original_date (project_updated (snap_project s)))]
        ∧ id_mapping w' !! project_id (snap_project s) = Some (next_id w)
        ∧ calls w' = calls w ++
            [SaveProject
               (mkProject (next_id w) name ontology None users admins
                  (keep_date with_original_date (project_created (snap_project s)))
                  (keep_date with_original_date (project_updated (snap_project s))))]
  | (w', Raise e) =>
      projects w' = projects w ∧ calls w' = calls w
      ∧ ∃ k, e = KeyError k ∧ id_mapping w !! k = None
  end.




(** The world in which the terms of a new ontology named [name] are
    created: the creator [u] is connected, the ontology is saved and
    mapped. *)
Definition ontology_saved (with_original_date : bool) (s : Snapshot)
    (name : string) (u : Z) (w : World) : World :=
  set_id_mapping (λ d, dict_set d (ontology_id (snap_ontology s)) (next_id w))
    (server
       (SaveOntology
          (mkOntology (next_id w) name u
             (keep_date with_original_date (ontology_created (snap_ontology s)))
             (keep_date with_original_date (ontology_updated (snap_ontology s)))))
       (server (ConnectAs u false) w)).

(** The text that precedes the number in the stripped ["name (i)"]. *)
Definition stripped_stem (name : string) : string :=
  match PyStr.lstrip name with
  | EmptyString => "("
  | String a r => String a r +:+ " ("
  end.

(** The name that [ontology_exists] compares with the names of the target,
    at the candidate [i]. *)
Definition key (name : string) (i : nat) : string :=
  PyStr.strip (candidate name i).

(** The first ontology of the target that bears [name]. *)
Definition first_named (os : list Ontology) (name : string) : option Ontology :=
  find_first (filter (λ o, ontology_name o = name) os).

(** The (name, color) pairs of the terms of the ontology [o]. *)
Definition pairs_of (ts : list Term) (o : Z) : gset (string * string) :=
  list_to_set (term_pair <$> filter (λ t, term_ontology t = o) ts).

(** Every (name, color) pair of the snapshot is a pair of [o]. *)
Definition covers (ts : list Term) (o : Ontology) (rts : list Term) : Prop :=
  Forall (λ t, term_pair t ∈ pairs_of ts (ontology_id o)) rts.

Global Instance covers_dec ts o rts : Decision (covers ts o rts).
Proof. unfold covers. apply _. Defined.

(** [ontology_exists] at the candidate [i]. *)
Definition found_at (os : list Ontology) (ts rts : list Term) (N : string)
    (i : nat) : bool :=
  (ontology_exists os ts rts (candidate N i)).1.

Definition existing_at (os : list Ontology) (ts rts : list Term) (N : string)
    (i : nat) : option Ontology :=
  (ontology_exists os ts rts (candidate N i)).2.

(** The ontology that [import_ontology] reuses, if it reuses one. *)
Definition reused (os : list Ontology) (ts rts : list Term) (N : string)
    : option Ontology :=
  match ontology_resolve os ts rts N with
  | Some (_, Some o) => Some o
  | _ => None
  end.

(** The condition of the specification, in its words: some ontology of the
    target bears the stripped name of the snapshot's ontology and has
    exactly the set of (name, color) pairs of the snapshot's terms. *)
Definition spec_reuse_condition (os : list Ontology) (ts rts : list Term)
    (N : string) : Prop :=
  Exists (λ o, ontology_name o = N
               ∧ pairs_of ts (ontology_id o) = list_to_set (term_pair <$> rts)) os.

(** The term of the reused ontology that a remote term is linked to. *)
Definition linked_term (ontology_terms : list Term) (remote_term : Term)
    : option Term :=
  find_first (filter (λ t, term_name t = term_name remote_term) ontology_terms).

(** The target's ontologies, terms and administrator are those of [w]. *)
Definition same_catalog (w w' : World) : Prop :=
  ontologies w' = ontologies w ∧ terms w' = terms w
  ∧ super_admin w' = super_admin w.

(** The world in which the same snapshot is imported again: the target as
    the first import left it, and the mapping as it was before the
    ontology was imported (a run starts from an empty mapping and maps the
    users first). *)
Definition second_run (w after_first : World) : World :=
  set_id_mapping (λ _, id_mapping w) after_first.

(** ** Sessions, logs, and what a phase leaves behind *)

(** The log of [w'] is the log of [w] followed by calls that satisfy [P]. *)
Definition emits (P : call → Prop) (w w' : World) : Prop :=
  ∃ l, calls w' = calls w ++ l ∧ Forall P l.

(** The administrator the importer remembers is the same. *)
Definition same_admin (w w' : World) : Prop := super_admin w' = super_admin w.

(** The connected user is the same. *)
Definition same_user (w w' : World) : Prop := current_user w' = current_user w.

(** Nobody was connected, and the administrator is the same. *)
Definition same_session (w w' : World) : Prop :=
  current_user w' = current_user w ∧ super_admin w' = super_admin w.

(** [c] is the administrator the importer remembers. *)
Definition admin_is (c : Z) (w : World) : Prop := super_admin w = c.

(** [c] is that administrator, and is connected. *)
Definition admin_connected (c : Z) (w : World) : Prop :=
  super_admin w = c ∧ current_user w = c.

(** Where [m] returns from a state of [P], the state is one of [Q]. *)
Definition returns_from {S A} (P Q : S → Prop) (m : M S A) : Prop :=
  ∀ s s' a, P s → m s = (s', Return a) → Q s'.

(** [m] raises from every state, and moves it to an [R]-related one. *)
Definition always_raises {S A} (R : relation S) (m : M S A) : Prop :=
  ∀ s, R s (m s).1 ∧ ∃ e, (m s).2 = Raise e.

Definition is_save_user (c : call) : bool :=
  match c with SaveUser _ => true | _ => false end.

(** Lines 499: the user of the target that bears the name of [remote_user]. *)
Definition known_user (users : list User) (remote_user : User) : option User :=
  find_first (filter (λ u, username u = username remote_user) users).

(** Lines 501-507: the user created for [remote_user]. *)
Definition new_user (with_original_date : bool) (random_string : User → string)
    (remote_user : User) (id : Z) : User :=
  mkUser id (username remote_user)
    (match password remote_user with
     | None => Some (random_string remote_user)
     | Some p =>
         if String.eqb p EmptyString then Some (random_string remote_user)
         else Some p
     end)
    (roles remote_user)
    (keep_date with_original_date (user_created remote_user))
    (keep_date with_original_date (user_updated remote_user)).

(** The snapshot users that the target does not know by name. *)
Definition unknown_users (fetched l : list User) : list User :=
  filter (λ u, known_user fetched u = None) l.

(** The users created for [l], the first one with the identifier [id]. *)
Definition created_users (with_original_date : bool)
    (random_string : User → string) (id : Z) (l : list User) : list User :=
  imap (λ i u, new_user with_original_date random_string u (id + Z.of_nat i)) l.

(** A call that switches the user or creates a user, an ontology, a term, a
    relation between terms or a project. *)
Definition is_catalog_call (c : call) : bool :=
  match c with
  | ConnectAs _ _ | SaveUser _ | SaveOntology _ | SaveTerm _
  | SaveRelationTerm _ _ | SaveProject _ => true
  | _ => false
  end.

Definition catalog_call (c : call) : Prop := is_catalog_call c = true.

Fixpoint has_slash (s : string) : bool :=
  match s with
  | EmptyString => false
  | String a s' => Ascii.eqb a "/"%char || has_slash s'
  end.

(** The file [name] of the directory [images] of the working path. *)
Definition image_file (working_path name : string) : string :=
  path_join working_path "images" +:+ "/" +:+ name.

(** An upload sends a file of the directory [images], to [host_upload]. *)
Definition uploads_from_images (host_upload working_path : string) (c : call)
    : Prop :=
  match c with
  | UploadImage host filename _ _ =>
      host = host_upload
      ∧ ∃ name, filename = image_file working_path name ∧ has_slash name = false
  | _ => True
  end.

(** Line 298-303: the copy of the image whose name is reduced to ASCII. *)
Definition ascii_named (remote_image : ImageInstance) : ImageInstance :=
  set_originalFilename (PyStr.ascii_ignore (ii_originalFilename remote_image))
    remote_image.

(** Lines 304-307: the dict of the images by name, with one more image. *)
Definition file_image (d : gmap string (list ImageInstance))
    (remote_image : ImageInstance) : gmap string (list ImageInstance) :=
  let name := ii_originalFilename (ascii_named remote_image) in
  match d !! name with
  | None => <[name := [ascii_named remote_image]]> d
  | Some l => <[name := l ++ [ascii_named remote_image]]> d
  end.

(** The images of [l] that bear [name] once reduced to ASCII, reduced. *)
Definition named (name : string) (l : list ImageInstance) : list ImageInstance :=
  filter (λ i, ii_originalFilename i = name) (ascii_named <$> l).

(** Lines 375-391: the new image instance with the fields of the image
    [r] of the snapshot it is paired with. *)
Definition fixed_instance (with_original_date : bool) (n r : ImageInstance)
    (reviewer : option Z) : ImageInstance :=
  mkImageInstance (ii_id n) (ii_baseImage n) (ii_originalFilename n)
    (ii_instanceFilename r) (ii_user n) (ii_width n) (ii_height n)
    (ii_magnification n) (ii_reviewStart r) (ii_reviewStop r) reviewer
    (if with_original_date then ii_created r else ii_created n)
    (if with_original_date then ii_updated r else ii_updated n).

(** Lines 397-401: the abstract image [a0] of the new instance, amended. *)
Definition amended_abstract (with_original_date : bool) (a0 : AbstractImage)
    (r : ImageInstance) : AbstractImage :=
  mkAbstractImage (ai_id a0) (ai_originalFilename a0) (ai_width a0)
    (ai_height a0)
    (match ai_magnification a0 with
     | None => ii_magnification r
     | Some m => Some m
     end)
    (if with_original_date then ii_created r else ai_created a0)
    (if with_original_date then ii_updated r else ai_updated a0).

(** The reviewer of [r] in the target: [None] when [r] has no reviewer. *)
Definition reviewer_of (d : gmap Z Z) (r : ImageInstance) : option Z :=
  match truthy (ii_reviewUser r) with
  | Some k => d !! k
  | None => None
  end.

(** The world after the step of the loop that pairs [n] with [r]. *)
Definition paired (with_original_date : bool) (n r : ImageInstance)
    (a0 : AbstractImage) (w : World) : World :=
  server (UpdateAbstractImage (amended_abstract with_original_date a0 r))
    (set_id_mapping (λ d, dict_set d (ii_baseImage r) (ii_baseImage n))
       (set_id_mapping (λ d, dict_set d (ii_id r) (ii_id n))
          (server
             (UpdateImageInstance
                (fixed_instance with_original_date n r
                   (reviewer_of (id_mapping w) r))) w))).

(** An update of the abstract image [a] keeps its identifier, name and
    size, and its magnification when it has one; it keeps its dates unless
    the dates of the snapshot are asked for. *)
Definition amends (with_original_date : bool) (o : option AbstractImage)
    (c : call) : Prop :=
  match c with
  | UpdateAbstractImage a =>
      ∃ a0, o = Some a0
            ∧ ai_id a = ai_id a0
            ∧ ai_originalFilename a = ai_originalFilename a0
            ∧ ai_width a = ai_width a0 ∧ ai_height a = ai_height a0
            ∧ (∀ m, ai_magnification a0 = Some m → ai_magnification a = Some m)
            ∧ (with_original_date = false →
               ai_created a = ai_created a0 ∧ ai_updated a = ai_updated a0)
  | UpdateImageInstance _ => True
  | _ => False
  end.

(** All the code points of [s] are below 128. *)
Fixpoint is_ascii (s : string) : bool :=
  match s with
  | EmptyString => true
  | String a s' => (nat_of_ascii a <? 128)%nat && is_ascii s'
  end.

(** What [import_metadata] saves for a document once its reference is
    resolved to [v]. *)
Definition property_call (p : Property) (v : Z) : call :=
  SaveProperty
    (mkProperty None v (prop_domainClassName p) (prop_key p) (prop_value p)).

Definition attached_file_call (working_path : string) (f : AttachedFile)
    (v : Z) : call :=
  SaveAttachedFile
    (mkAttachedFile None v (af_domainClassName f)
       (path_join (path_join working_path "attached_files") (af_filename f))).

Definition description_call (d : Description) (v : Z) : call :=
  SaveDescription
    (mkDescription None v (desc_domainClassName d) (desc_data d))
    (desc_domainClassName d) v.

(** The documents of the metadata in the order of their import, each with
    its reference and the call that saves it. *)
Definition metadata_documents (working_path : string) (s : Snapshot)
    : list (Z * (Z → call)) :=
  (snap_properties s ≫= λ file,
     (λ p, (prop_domainIdent p, property_call p)) <$> file)
  ++ (snap_files s ≫= λ file,
        (λ f, (af_domainIdent f, attached_file_call working_path f)) <$> file)
  ++ ((λ d, (desc_domainIdent d, description_call d)) <$> snap_descriptions s).

(** The calls for the documents that precede the first one whose
    reference [d] does not map. *)
Fixpoint saved (d : gmap Z Z) (docs : list (Z * (Z → call))) : list call :=
  match docs with
  | [] => []
  | (k, c) :: docs' =>
      match d !! k with
      | Some v => c v :: saved d docs'
      | None => []
      end
  end.

(** [m] leaves the mapping as it is, ends the way resolving the references
    of [docs] does, and has saved the documents before the first one that
    is unresolved. *)
Definition saves (m : M World unit) (docs : list (Z * (Z → call))) : Prop :=
  ∀ w, id_mapping (m w).1 = id_mapping w
       ∧ (m w).2 = resolves (id_mapping w) docs.*1
       ∧ calls (m w).1 = calls w ++ saved (id_mapping w) docs.

(** A call of [import_annotations]: a switch of user, or the creation of an
    annotation made of one of [annots] whose user is one of [creators]. *)
Definition imports_annotation_of (annots : list Annotation)
    (creators : list User) (c : call) : Prop :=
  match c with
  | ConnectAs _ _ => True
  | SaveAnnotation a =>
      a_id a = None ∧ a_slice a = None
      ∧ ∃ r u, r ∈ annots ∧ u ∈ creators
               ∧ "userannotation_creator" ∈ roles u
               ∧ a_user r = user_id u
               ∧ a_location a = a_location r ∧ a_rest a = a_rest r
  | _ => False
  end.

(** ** Files and users of an export *)

(** The names of [filenames] that start with the value of [m]. *)
Definition files_of (m : Models) (filenames : list string) : list string :=
  filter (λ f, startswith f (Models_value m) = true) filenames.

(** The entry of the dict of file names for [m], given the files of the
    directory: the paths of all of them in order where a list is kept, and
    otherwise the path of the last one, or the empty list of the start. *)
Definition entry_of (working_path : string) (m : Models)
    (filenames : list string) : entry :=
  let paths := path_join working_path <$> files_of m filenames in
  if holds_list (Some m) then Paths paths
  else match last paths with
       | Some p => Path p
       | None => Paths []
       end.

(** The first user of [l] with the identifier [id]. *)
Definition user_by_id (l : list ExportedUser) (id : Z) : option ExportedUser :=
  snd <$> list_find (λ u, eu_id u = id) l.

(** A document that is not empty, under a name that the importer files
    under a key that holds a list; a download goes under the path of the
    attached files. *)
Definition is_metadata_file (project_path : string)
    (attached_file_path : option string) (x : written) : Prop :=
  match x with
  | Document path obj =>
      exported_truthy obj = true
      ∧ ∃ name m, path = path_join project_path name
                  ∧ model_of name = Some m ∧ holds_list (Some m) = true
  | Download pattern _ =>
      ∃ p, attached_file_path = Some p ∧ pattern = path_join p "{filename}"
  end.

(** The files of [files'] are those of [files], followed by files of [P]. *)
Definition writes (P : written → Prop) (files files' : list written) : Prop :=
  ∃ l, files' = files ++ l ∧ Forall P l.

(** The roles that a loop giving [role] to each user of [l] gives to the
    identifier [id]: one for each user of [l] that has it. *)
Definition roles_given (role : string) (l : list ExportedUser) (id : Z)
    : list string :=
  (λ _, role) <$> filter (λ u, eu_id u = id) l.

(** The user [u] with the roles [given] after its own; [u] itself when none
    is given. *)
Definition granted (given : list string) (u : ExportedUser) : ExportedUser :=
  match given with
  | [] => u
  | _ =>
      mkExportedUser (eu_id u) (eu_username u) (eu_firstname u) (eu_lastname u)
        (eu_email u)
        (Some (match eu_roles u with Some r => r | None => [] end ++ given))
        (eu_rest u)
  end.

(** ** Concrete snapshots and targets *)

Module Ex.
Local Open Scope Z_scope.

Definition feed_none : nat → list ImageInstance := λ _, [].

(** A target server with user 1 (the administrator) and user 2, one
    storage, nothing else; fresh identifiers start at 1000. *)
Definition world (d : gmap Z Z) : World :=
  mkWorld d [] None 1 1
    [mkUser 1 "admin" None [] None None; mkUser 2 "ann" None [] None None]
    [] [] [] [mkStorage 9 1] [] ∅ feed_none 1000 [].

Definition image (id base : Z) (name : string) : ImageInstance :=
  mkImageInstance id base name name 2 100 100 None None None None None None.

Definition snapshot_of (o : Ontology) (ts : list Term) (p : Project) : Snapshot :=
  mkSnapshot [] o ts p [] [] [] [] [].

Definition property (ident : Z) : Property :=
  mkProperty (Some 4) ident "be.cytomine.project.Project" "stain" "HE".
Definition attached_file (ident : Z) : AttachedFile :=
  mkAttachedFile (Some 5) ident "be.cytomine.project.Project" "notes.txt".
Definition description (ident : Z) : Description :=
  mkDescription (Some 6) ident "be.cytomine.project.Project" "a project".

Definition metadata_snapshot (ident : Z) : Snapshot :=
  mkSnapshot [] (mkOntology 30 "O" 40 None None) []
    (mkProject 7 "P" 30 None [] [] None None) [] []
    [[property ident]] [[attached_file ident]] [description ident].

(** Two schedules of the worker threads.  With [in_order] the tasks take
    effect in the order of the batch and none does after one has raised,
    which is what one worker does; with [eager] up to eight tasks that
    follow the one that raised still take effect, as they do when each has
    a worker of its own. *)
Definition in_order {S} : Schedule S :=
  {| turn _ _ := 0%nat; linger _ := 0%nat; blame _ := 0%nat |}.
Definition eager {S} : Schedule S :=
  {| turn _ _ := 0%nat; linger _ := 8%nat; blame _ := 0%nat |}.
End Ex.

Module ExC3.
Local Open Scope Z_scope.

(** Two image instances of the snapshot with one base image, 5, and the
    two image instances 100 and 101 that the target made of them, on the
    abstract images 50 and 51. *)
Definition r1 := Ex.image 10 5 "a.tif".
Definition r2 := Ex.image 11 5 "b.tif".
Definition n1 := Ex.image 100 50 "a.tif".
Definition n2 := Ex.image 101 51 "b.tif".

Definition remote_images_dict : gmap string (list ImageInstance) :=
  <["a.tif" := [r1]]> (<["b.tif" := [r2]]> ∅).

Definition abstract (id : Z) (name : string) : AbstractImage :=
  mkAbstractImage id name 100 100 None None None.

Definition before : World :=
  mkWorld (puts [(2, 2); (7, 70)]) [] None 1 1 [] [] [] [] [mkStorage 9 1] []
    (<[50 := abstract 50 "a.tif"]> (<[51 := abstract 51 "b.tif"]> ∅))
    Ex.feed_none 1000 [].

(** The first iteration of the loop that fixes the image instances. *)
Definition first := fix_image false remote_images_dict n1 before.
(** The second one, from where the first one ended. *)
Definition remote_images_dict' : gmap string (list ImageInstance) :=
  <["a.tif" := []]> remote_images_dict.
Definition second := fix_image false remote_images_dict' n2 first.1.
End ExC3.

Module ExC2.
Local Open Scope Z_scope.

(** One image expected; the first query sees nothing, the later ones see
    the image instance 100. *)
Definition feed (attempt : nat) : list ImageInstance :=
  match attempt with
  | 0%nat | 1%nat => []
  | _ => [Ex.image 100 50 "a.tif"]
  end.

Definition p : Project := mkProject 7 "P" 30 None [] [] None None.

Definition w : World :=
  mkWorld (puts [(2, 2); (7, 70)]) [] (Some p) 1 1 [] [] [] [] [mkStorage 9 1]
    [] ∅ feed 1000 [].
End ExC2.

Module ExC7.
Local Open Scope Z_scope.

(** Project 7, image 10, user 20 and term 31 of the snapshot are mapped;
    term 32 is not. *)
Definition w : World :=
  Ex.world (puts [(7, 70); (10, 100); (20, 2); (31, 301)]).

Definition a1 : Annotation :=
  mkAnnotation (Some 900) (Some 3) 7 10 20 [31] (Some 1600000000) (Some 1600000001)
    "POINT (1 1)" [("area", "0")].

Definition a2 : Annotation :=
  mkAnnotation (Some 901) None 7 10 20 [31; 32] None None "POINT (2 2)" [].

(** [a1] as the claim has it persisted: four references rewritten, every
    other field as in the snapshot. *)
Definition a1_claimed : Annotation :=
  mkAnnotation (Some 900) (Some 3) 70 100 2 [301] (Some 1600000000)
    (Some 1600000001) "POINT (1 1)" [("area", "0")].

Definition a1_sent : Annotation :=
  mkAnnotation None None 70 100 2 [301] None None "POINT (1 1)" [("area", "0")].
End ExC7.

Module ExRun.
Local Open Scope Z_scope.

Definition ann : User :=
  mkUser 20 "ann" (Some "pw")
    ["project_contributor"; "ontology_creator"; "image_creator";
     "userannotation_creator"] None None.
Definition bob : User := mkUser 21 "bob" None ["project_manager"] None None.

Definition tumor : Term := mkTerm 31 "tumor" "#ff0000" 30 None None None.
Definition stroma : Term := mkTerm 32 "stroma" "#00ff00" 30 (Some 31) None None.

Definition annotation (id : Z) (term : list Z) : Annotation :=
  mkAnnotation (Some id) (Some 3) 7 10 20 term None None "POINT (1 1)" [].

Definition snapshot (annotations : list Annotation) : Snapshot :=
  mkSnapshot [ann; bob]
    (mkOntology 30 "O" 20 None None) [tumor; stroma]
    (mkProject 7 " P " 30 (Some 1) [20] [21] None None)
    [mkImageInstance 10 5 "a.tif" "a.tif" 20 100 100 (Some 40) None None None
       None None]
    annotations
    [[Ex.property 7]] [] [Ex.description 7].

(** The target: the administrator 1 and a user "ann", one storage, no
    ontology, no project; the upload of "a.tif" is deployed as the image
    instance 100 on the abstract image 50 before the first query. *)
Definition target : World :=
  mkWorld ∅ [] None 0 1
    [mkUser 1 "admin" None [] None None; mkUser 2 "ann" None [] None None]
    [] [] [] [mkStorage 9 1] []
    (<[50 := ExC3.abstract 50 "a.tif"]> ∅)
    (λ _, [Ex.image 100 50 "a.tif"]) 1000 [].

Definition run_it (annotations : list Annotation) : World * outcome unit :=
  run (schedule := Ex.in_order) false "upload.host" "/tmp/export"
    (λ _, "secret") (snapshot annotations) target.
End ExRun.

Module ExC6.
Local Open Scope Z_scope.

(** Three annotations of the creator 20 for a whole run; the second one
    carries the term 99, which the snapshot's ontology does not have. *)
Definition annots : list Annotation :=
  [ExRun.annotation 900 [31]; ExRun.annotation 901 [99];
   ExRun.annotation 902 [32]].

(** The same batch for the world [ExC7.w], in which the term 31 is mapped. *)
Definition batch : list Annotation :=
  [ExRun.annotation 900 [31]; ExRun.annotation 901 [99];
   ExRun.annotation 902 [31]].

(** The world after the first task of [batch]. *)
Definition after_first : World :=
  (_add_annotation false (ExRun.annotation 900 [31])
     (server (ConnectAs 2 false) ExC7.w)).1.

(** The world after the first and the third task of [batch]. *)
Definition after_others : World :=
  (_add_annotation false (ExRun.annotation 902 [31]) after_first).1.

(** The download of the image 10 succeeds, any other one raises. *)
Definition download (i : ImageInstance) : outcome bool :=
  if ii_id i =? 10 then Return true else Raise AttributeError.
End ExC6.

Module ExC5.
Local Open Scope Z_scope.

(** A target whose only project is named "P", with the ontology 30 of the
    snapshot already mapped. *)
Definition w : World :=
  mkWorld (puts [(30, 300)]) [] None 1 1 []
    [] [] [mkProject 70 "P" 300 None [] [] None None] [] [] ∅
    Ex.feed_none 1000 [].

Definition s : Snapshot :=
  Ex.snapshot_of (mkOntology 30 "O" 20 None None) []
    (mkProject 7 "P" 30 None [] [] None None).

(** The target after a first import. *)
Definition w1 : World := (import_project false s w).1.
End ExC5.

Module ExC9.
Local Open Scope Z_scope.
(** A target without ontology, in which the creator 20 is mapped to 2. *)
Definition w : World := Ex.world (puts [(20, 2)]).
Definition s : Snapshot := ExRun.snapshot [].
End ExC9.

Module ExC8.
(** The first import of the ontology of [ExC9], and the second one. *)
Definition first : World * outcome unit := import_ontology false ExC9.s ExC9.w.
Definition second : World * outcome unit :=
  import_ontology false ExC9.s (second_run ExC9.w first.1).
End ExC8.

Module ExC1.
Local Open Scope Z_scope.

Definition term (id : Z) (name color : string) (ontology : Z) : Term :=
  mkTerm id name color ontology None None None.

(** The snapshot: an ontology "O" with the single term (a, red). *)
Definition rts : list Term := [term 31 "a" "red" 30].

(** First target: one ontology "O", with the terms (a, red), (b, blue). *)
Definition os1 : list Ontology := [mkOntology 1 "O" 9 None None].
Definition ts1 : list Term := [term 11 "a" "red" 1; term 12 "b" "blue" 1].

(** Second target: two ontologies "O"; the first has the term (x, grey),
    the second the term (a, red). *)
Definition os2 : list Ontology :=
  [mkOntology 1 "O" 9 None None; mkOntology 2 "O" 9 None None].
Definition ts2 : list Term := [term 11 "x" "grey" 1; term 21 "a" "red" 2].
End ExC1.

Module ExC1w.
Local Open Scope Z_scope.
(** The first target of [ExC1], with the creator 20 mapped to 2. *)
Definition w : World :=
  mkWorld (puts [(20, 2)]) [] None 1 1 [] ExC1.os1 ExC1.ts1 [] [] [] ∅
    Ex.feed_none 1000 [].
Definition s : Snapshot :=
  Ex.snapshot_of (mkOntology 30 "O" 20 None None) ExC1.rts
    (mkProject 7 "P" 30 None [] [] None None).
End ExC1w.

Module ExX.
Local Open Scope Z_scope.

(** A term whose parent, 99, is not a term of the snapshot. *)
Definition orphan : Term := mkTerm 33 "orphan" "#0000ff" 30 (Some 99) None None.

Definition s_orphan : Snapshot :=
  Ex.snapshot_of (mkOntology 30 "O" 20 None None) [orphan]
    (mkProject 7 "P" 30 None [] [] None None).

(** The users and the ontology of [ExRun] are imported; the project is not. *)
Definition w_project : World :=
  mkWorld (puts [(20, 2); (21, 1000); (30, 1001)]) [ExRun.ann; ExRun.bob] None
    1 1 [] [] [] [] [mkStorage 9 1] [] ∅ Ex.feed_none 1002 [].

(** A target without storage, in which the user 2 is mapped to itself. *)
Definition w_no_storage : World :=
  mkWorld (puts [(2, 2)]) [] None 1 1 [] [] [] [] [] [] ∅ Ex.feed_none 1000 [].

(** Two images of the snapshot with one name. *)
Definition twins : list ImageInstance :=
  [Ex.image 10 5 "a.tif"; Ex.image 12 6 "a.tif"].

Definition twins_dict : gmap string (list ImageInstance) :=
  <["a.tif" := twins]> ∅.

(** A new image instance whose name has the code point 233. *)
Definition accented : ImageInstance :=
  Ex.image 100 50 (String "233"%char ".tif").

Definition absolute_file : AttachedFile :=
  mkAttachedFile (Some 5) 7 "be.cytomine.project.Project" "/etc/hosts".

(** The files of an export, with two documents of a project. *)
Definition listing : list string :=
  ["project-7.json"; "imagegroup-collection.json"; "ontology-30.json";
   "properties-object-7-collection.json"; "project-8.json";
   "properties-object-10-collection.json"].

Definition filenames : gmap (option Models) entry :=
  match _get_filenames "/tmp/export" listing with
  | Return mapping => mapping
  | Raise _ => ∅
  end.

Definition exported_user (id : Z) (name : string) : ExportedUser :=
  mkExportedUser id name "First" "Last" "user@example.org" None [].
End ExX.

(** * Properties *)

(** Decides a closed proposition by evaluation. *)
Ltac by_compute := apply (bool_decide_unpack _); vm_compute; reflexivity.

(** ** The tasks of a batch

    Whatever the threads decide, the tasks that take effect are tasks of
    the batch, each at most once. *)

Lemma scheduled_Permutation {A} (turn : nat → nat) (l : list A) step :
  scheduled turn step (length l) l ≡ₚ l.
Proof.
  remember (length l) as n eqn:Hn. revert l step Hn.
  induction n as [|n IH]; intros l step Hn.
  - destruct l; [done|discriminate].
  - cbn [scheduled]. rewrite <- Hn.
    assert (turn step `mod` Datatypes.S n < length l)%nat as Hlt
      by (rewrite <- Hn; apply Nat.mod_upper_bound; lia).
    destruct (lookup_lt_is_Some_2 l _ Hlt) as [x Hx]. rewrite Hx.
    rewrite (delete_Permutation l _ x Hx) at 2. constructor.
    apply IH. rewrite length_delete by eauto. lia.
Qed.

Lemma scheduled_elem {A} (turn : nat → nat) (l : list A) x :
  x ∈ scheduled turn 0 (length l) l → x ∈ l.
Proof. by rewrite scheduled_Permutation. Qed.

Lemma scheduled_length {A} (turn : nat → nat) (l : list A) :
  length (scheduled turn 0 (length l) l) = length l.
Proof. by rewrite scheduled_Permutation. Qed.

(** ** Relations that every step of a computation respects *)

Section stable.
Context {S : Type} (R : relation S) `{!PreOrder R}.

Lemma stable_ret {A} (a : A) : stable R (ret a).
Proof. intros s. reflexivity. Qed.

Lemma stable_raise {A} e : stable R (raise (A := A) e).
Proof. intros s. reflexivity. Qed.

Lemma stable_get : stable R get.
Proof. intros s. reflexivity. Qed.

Lemma stable_gets {A} (f : S → A) : stable R (gets f).
Proof. intros s. reflexivity. Qed.

Lemma stable_modify f : (∀ s, R s (f s)) → stable R (modify f).
Proof. intros H s. apply H. Qed.

Lemma stable_bind {A B} (m : M S A) (k : A → M S B) :
  stable R m → (∀ a, stable R (k a)) → stable R (bind m k).
Proof.
  intros Hm Hk s. unfold bind. specialize (Hm s).
  destruct (m s) as [s' [a|e]]; simpl in *; [|done].
  etrans; [exact Hm|apply Hk].
Qed.

Lemma stable_for_each {A} (l : list A) body :
  (∀ x, stable R (body x)) → stable R (for_each l body).
Proof.
  intros Hb. induction l as [|x l IH]; simpl.
  - apply stable_ret.
  - apply stable_bind; auto.
Qed.

Lemma stable_map_each {A B} (l : list A) (f : A → M S B) :
  (∀ x, stable R (f x)) → stable R (map_each l f).
Proof.
  intros Hf. induction l as [|x l IH]; simpl.
  - apply stable_ret.
  - apply stable_bind; [auto|]. intros y.
    apply stable_bind; [auto|]. intros ys. apply stable_ret.
Qed.

Lemma stable_fold_each {A B} (l : list A) (acc : B) body :
  (∀ acc x, stable R (body acc x)) → stable R (fold_each l acc body).
Proof.
  intros Hb. revert acc. induction l as [|x l IH]; intros acc; simpl.
  - apply stable_ret.
  - apply stable_bind; auto.
Qed.

Lemma stable_lingering {A} (l : list A) (task : A → M S unit) s :
  (∀ x, x ∈ l → stable R (task x)) → R s (lingering l task s).1.
Proof.
  revert s. induction l as [|x l IH]; intros s Ht; simpl; [reflexivity|].
  pose proof (Ht x (list_elem_of_here _ _) s) as Hx.
  assert (∀ s', R s' (lingering l task s').1) as Hl
    by (intros s'; apply IH; intros y Hy; apply Ht; by right).
  destruct (task x s) as [s' [[]|e]]; simpl in Hx.
  - etrans; [exact Hx|apply Hl].
  - specialize (Hl s'). destruct (lingering l task s') as [s'' es].
    simpl in *. etrans; [exact Hx|exact Hl].
Qed.

Lemma stable_run_tasks {A} n b (l : list A) (task : A → M S unit) :
  (∀ x, x ∈ l → stable R (task x)) → stable R (run_tasks n b l task).
Proof.
  intros Ht s. revert s. induction l as [|x l IH]; intros s; simpl;
    [reflexivity|].
  pose proof (Ht x (list_elem_of_here _ _) s) as Hx.
  destruct (task x s) as [s' [[]|e]]; simpl in Hx.
  - etrans; [exact Hx|]. apply IH. intros y Hy. apply Ht. by right.
  - assert (R s' (lingering (take n l) task s').1) as Hl.
    { apply stable_lingering. intros y Hy. apply Ht. right.
      apply elem_of_take in Hy as (i & Hi & _).
      by eapply list_elem_of_lookup_2. }
    destruct (lingering (take n l) task s') as [s'' es]. simpl in *.
    etrans; [exact Hx|exact Hl].
Qed.

(** Whatever the schedule, a batch respects what each of its tasks
    respects. *)
Lemma stable_Parallel_elem `{!Schedule S} {A} (l : list A) task :
  (∀ x, x ∈ l → stable R (task x)) → stable R (Parallel l task).
Proof.
  intros Ht s. unfold Parallel. apply stable_run_tasks.
  intros x Hx. apply Ht. by eapply scheduled_elem.
Qed.

Lemma stable_Parallel `{!Schedule S} {A} (l : list A) task :
  (∀ x, stable R (task x)) → stable R (Parallel l task).
Proof. intros Ht. apply stable_Parallel_elem. auto. Qed.

End stable.

(** ** A whole run, on a small project

    The run of [ExRun] reuses the user "ann", creates the user "bob", the
    ontology with its two terms and their relation, the project, uploads the
    image, waits for it with one query, and imports the annotation and the
    two metadata documents. *)

Example run_small_project :
  (ExRun.run_it [ExRun.annotation 900 [31%Z]]).2 = Return tt
  ∧ map_to_list (id_mapping (ExRun.run_it [ExRun.annotation 900 [31%Z]]).1)
    ≡ₚ [(20, 2); (21, 1000); (30, 1001); (31, 1002); (32, 1003); (7, 1004);
        (10, 100); (5, 50)]%Z
  ∧ project_name <$> projects (ExRun.run_it [ExRun.annotation 900 [31%Z]]).1
    = ["P"]
  ∧ count_calls is_query (calls (ExRun.run_it [ExRun.annotation 900 [31%Z]]).1)
    = 1%nat
  ∧ count_calls is_save_annotation
      (calls (ExRun.run_it [ExRun.annotation 900 [31%Z]]).1) = 1%nat
  ∧ count_calls is_metadata
      (calls (ExRun.run_it [ExRun.annotation 900 [31%Z]]).1) = 2%nat.
Proof.
  split; [by vm_compute|]. split; [by_compute|]. repeat split; by vm_compute.
Qed.

(** ** The identifier mapping *)

Global Instance grows_preorder : PreOrder grows.
Proof.
  split.
  - intros w. unfold grows. set_solver.
  - intros w1 w2 w3. unfold grows. set_solver.
Qed.

Lemma grows_do_call c : stable grows (do_call c).
Proof. intros w. unfold grows. simpl. set_solver. Qed.

Lemma grows_assign_id k v : stable grows (assign_id k v).
Proof.
  intros w. unfold grows, assign_id, dict_set. simpl.
  rewrite dom_insert_L. set_solver.
Qed.

Lemma grows_lookup_id k : stable grows (lookup_id k).
Proof. intros w. unfold grows. simpl. set_solver. Qed.

Lemma grows_connect_as u b : stable grows (connect_as u b).
Proof. apply grows_do_call. Qed.

Lemma grows_same_mapping (f : World → World) :
  (∀ w, id_mapping (f w) = id_mapping w) → stable grows (modify f).
Proof. intros H. apply stable_modify. intros w. unfold grows. rewrite H. set_solver. Qed.

Create HintDb grows discriminated.
#[export] Hint Resolve grows_do_call grows_assign_id grows_lookup_id
  grows_connect_as : grows.

(** One step of the search for a proof that a computation is [stable grows]:
    the structure of the program decides. *)
Ltac grows_step :=
  match goal with
  | |- stable _ (bind _ _) => apply (stable_bind grows); [|intros ?]
  | |- stable _ (for_each _ _) => apply (stable_for_each grows); intros ?
  | |- stable _ (map_each _ _) => apply (stable_map_each grows); intros ?
  | |- stable _ (fold_each _ _ _) => apply (stable_fold_each grows); intros ? ?
  | |- stable _ (Parallel _ _) => apply (stable_Parallel grows); intros ?
  | |- stable _ (modify _) => apply grows_same_mapping; reflexivity
  | |- stable _ (ret _) => apply (stable_ret grows)
  | |- stable _ (raise _) => apply (stable_raise grows)
  | |- stable _ get => apply (stable_get grows)
  | |- stable _ (gets _) => apply (stable_gets grows)
  | |- stable _ (match ?x with _ => _ end) => destruct x
  | |- stable _ (let '(_, _) := ?x in _) => destruct x
  | |- stable _ _ => solve [auto with grows]
  end.

Ltac grows_auto := repeat grows_step.

Section mapping_grows.
Variable with_original_date : bool.
Variable host_upload working_path : string.
Variable random_string : User → string.
Variable snapshot : Snapshot.
Context {schedule : Schedule World}.

Lemma grows_connect_as_admin : stable grows connect_as_admin.
Proof. unfold connect_as_admin. grows_auto. Qed.

Lemma grows_target_project : stable grows target_project.
Proof. unfold target_project. grows_auto. Qed.

Hint Resolve grows_connect_as_admin grows_target_project : grows.

Lemma grows_import_ontology :
  stable grows (import_ontology with_original_date snapshot).
Proof.
  unfold import_ontology, loop_bound_reached, create_term, create_relation,
    link_term, fresh_id.
  grows_auto.
Qed.

Lemma grows_import_project :
  stable grows (import_project with_original_date snapshot).
Proof. unfold import_project, loop_bound_reached, fresh_id. grows_auto. Qed.

Lemma grows_wait_images expected remaining count n new_images :
  stable grows (wait_images expected remaining count n new_images).
Proof.
  revert count n new_images.
  induction remaining as [|r IH]; intros count n new_images; simpl.
  - grows_auto.
  - grows_auto.
Qed.

Lemma grows_import_images :
  stable grows (import_images with_original_date host_upload working_path snapshot).
Proof.
  unfold import_images, fix_images.
  grows_step.
  { unfold submit_image. grows_auto. }
  grows_step; [apply grows_wait_images|].
  unfold fix_image. grows_auto.
Qed.

Lemma grows_import_annotations :
  stable grows (import_annotations with_original_date snapshot).
Proof.
  unfold import_annotations, import_annotations_of, _add_annotation.
  grows_auto.
Qed.

Lemma grows_import_metadata :
  stable grows (import_metadata working_path snapshot).
Proof.
  unfold import_metadata, import_property, import_attached_file,
    import_description.
  grows_auto.
Qed.

Lemma grows_run :
  stable grows
    (run with_original_date host_upload working_path random_string snapshot).
Proof.
  unfold run, import_user, fresh_id.
  pose proof grows_import_ontology. pose proof grows_import_project.
  pose proof grows_import_images. pose proof grows_import_annotations.
  pose proof grows_import_metadata.
  grows_auto.
Qed.

End mapping_grows.

(** *** Writes and reads of the dict *)





Lemma dict_get_None d k : d !! k = None → dict_get d k = Raise (KeyError k).
Proof. intros H. unfold dict_get. by rewrite H. Qed.

Lemma dict_get_Some d k v : d !! k = Some v → dict_get d k = Return v.
Proof. intros H. unfold dict_get. by rewrite H. Qed.

(** *** Steps that only read the mapping *)

Lemma first_unresolved_app d r1 r2 :
  first_unresolved d (r1 ++ r2) =
    match first_unresolved d r1 with
    | Some k => Some k
    | None => first_unresolved d r2
    end.
Proof.
  unfold first_unresolved. rewrite filter_app.
  by destruct (filter _ r1).
Qed.








(** ** C4: reads of the mapping, and the references of the metadata *)




(** ** C3: writes to the mapping *)

(** C3, counterexample.  The first iteration of the fix-up loop of
    [import_images] maps the base image 5 of the snapshot to 50; the second
    iteration, for another image instance of the same base image, maps 5 to
    51 and returns normally: the earlier target is overwritten, nothing
    fails. *)
Lemma C3_remap_overwrites_counterexample :
  id_mapping ExC3.first.1 !! 5%Z = Some 50%Z
  ∧ ExC3.first.2 = Return ExC3.remote_images_dict'
  ∧ ExC3.second.2 = Return (<["b.tif" := []]> ExC3.remote_images_dict')
  ∧ id_mapping ExC3.second.1 !! 5%Z = Some 51%Z
  ∧ ¬ spec_keeps_targets (fix_image false ExC3.remote_images_dict' ExC3.n2)
        ExC3.first.1.
Proof.
  split; [by vm_compute|]. split; [by vm_compute|].
  split; [by vm_compute|]. split; [by vm_compute|].
  intros H. specialize (H 5%Z 50%Z). vm_compute in H.
  specialize (H eq_refl). discriminate H.
Qed.

(** C3, amended.  The identifier mapping is a dict keyed by the origin
    identifier alone.  An identifier that is mapped stays mapped to some
    target through every phase of a run and through the whole run, whether
    they return or raise; a write to a mapped identifier never fails: it
    replaces the target by the new one and leaves the other identifiers as
    they are. *)
Theorem C3_mapping_grows_by_overwriting {schedule : Schedule World}
    (with_original_date : bool) (host_upload working_path : string)
    (random_string : User → string) (s : Snapshot)
    (w : World) (k v v' : Z) :
  id_mapping w !! k = Some v →
  is_Some (id_mapping
             (run with_original_date host_upload working_path random_string s w).1
             !! k)
  ∧ is_Some (id_mapping (import_ontology with_original_date s w).1 !! k)
  ∧ is_Some (id_mapping (import_project with_original_date s w).1 !! k)
  ∧ is_Some (id_mapping
               (import_images with_original_date host_upload working_path s w).1
               !! k)
  ∧ is_Some (id_mapping (import_annotations with_original_date s w).1 !! k)
  ∧ is_Some (id_mapping (import_metadata working_path s w).1 !! k)
  ∧ assign_id k v' w = (set_id_mapping (λ d, dict_set d k v') w, Return tt)
  ∧ id_mapping (assign_id k v' w).1 !! k = Some v'
  ∧ (∀ k', k' ≠ k →
       id_mapping (assign_id k v' w).1 !! k' = id_mapping w !! k').
Proof.
  intros Hk.
  assert (k ∈ dom (id_mapping w)) as Hdom by (apply elem_of_dom; eauto).
  assert (∀ m : M World unit, stable grows m →
            is_Some (id_mapping (m w).1 !! k)) as Hgrow.
  { intros m Hm. apply elem_of_dom. by apply (Hm w). }
  split; [apply Hgrow, grows_run|].
  split; [apply Hgrow, grows_import_ontology|].
  split; [apply Hgrow, grows_import_project|].
  split; [apply Hgrow, grows_import_images|].
  split; [apply Hgrow, grows_import_annotations|].
  split; [apply Hgrow, grows_import_metadata|].
  split; [done|].
  unfold assign_id, dict_set; simpl.
  split; [apply lookup_insert_eq|].
  intros k' Hne. by apply lookup_insert_ne.
Qed.

Lemma C3_mapping_grows_by_overwriting_witness :
  is_Some (id_mapping
             (run (schedule := Ex.in_order) false "upload.host" "/tmp/export"
                (λ _, "secret")
                (Ex.metadata_snapshot 2) (Ex.world (puts [(5, 50)]%Z))).1
             !! 5%Z)
  ∧ id_mapping (assign_id 5 51 (Ex.world (puts [(5, 50)]%Z))).1 !! 5%Z
    = Some 51%Z.
Proof.
  pose proof (C3_mapping_grows_by_overwriting (schedule := Ex.in_order)
                false "upload.host" "/tmp/export"
                (λ _, "secret") (Ex.metadata_snapshot 2)
                (Ex.world (puts [(5, 50)]%Z)) 5 50 51 eq_refl) as H.
  split; [apply H|]. apply H.
Defined.

(** ** C2, C10: the loop that waits for the images *)

Lemma count_calls_cons f c l :
  count_calls f (c :: l) = ((if f c then 1 else 0) + count_calls f l)%nat.
Proof.
  unfold count_calls. rewrite filter_cons.
  case_decide as E; rewrite ?E; simpl; [done|]. by destruct (f c).
Qed.

Lemma count_calls_app f l1 l2 :
  count_calls f (l1 ++ l2) = (count_calls f l1 + count_calls f l2)%nat.
Proof. unfold count_calls. by rewrite filter_app, length_app. Qed.

Lemma poll_calls_queries project count attempts :
  count_calls is_query (poll_calls project count attempts) = attempts.
Proof.
  revert count. induction attempts as [|a IH]; intros count; simpl; [done|].
  rewrite count_calls_cons, count_calls_app, IH. simpl.
  case_bool_decide; unfold count_calls; simpl; lia.
Qed.

Lemma poll_calls_sleeps project count attempts :
  count_calls is_sleep (poll_calls project count attempts)
  = (if bool_decide (0 < count)%nat then attempts else pred attempts).
Proof.
  revert count. induction attempts as [|a IH]; intros count; simpl.
  - by case_bool_decide.
  - rewrite count_calls_cons, count_calls_app, IH. simpl.
    case_bool_decide; unfold count_calls; simpl; lia.
Qed.

Section waiting.
Variable expected : nat.
Variable p : Project.
Variable project : Z.

Lemma target_project_mapped w :
  project_mapped p project w → target_project w = (w, Return project).
Proof.
  intros [Hp Hm]. unfold target_project, bind, get, lookup_id. simpl.
  rewrite Hp. simpl. by rewrite (dict_get_Some _ _ _ Hm).
Qed.

Lemma wait_images_done remaining count new_images w :
  wait_images expected remaining count (Z.of_nat expected) new_images w
  = (w, Return new_images).
Proof.
  destruct remaining; simpl; by rewrite bool_decide_eq_true_2.
Qed.

(** One iteration, when the observed count is not the expected one and the
    budget is not spent. *)
Lemma wait_images_step remaining count n new_images w :
  project_mapped p project w → n ≠ Z.of_nat expected →
  let w' := serve_all (poll_calls project count 1) w in
  wait_images expected (S remaining) count n new_images w
  = wait_images expected remaining (S count)
      (Z.of_nat (length (image_feed w (S count))))
      (Some (image_feed w (S count))) w'
    ∧ project_mapped p project w' ∧ image_feed w' = image_feed w.
Proof.
  intros Hw Hn w'. split; [|split].
  - simpl wait_images. rewrite bool_decide_eq_false_2 by done.
    unfold bind at 1. rewrite (target_project_mapped _ Hw).
    unfold w'. simpl. unfold bind, do_call, modify, get. simpl.
    by case_bool_decide.
  - unfold w'. simpl. destruct Hw. by case_bool_decide.
  - unfold w'. simpl. by case_bool_decide.
Qed.

Lemma serve_all_app l1 l2 w :
  serve_all (l1 ++ l2) w = serve_all l2 (serve_all l1 w).
Proof. unfold serve_all. apply foldl_app. Qed.

Lemma poll_calls_S count attempts :
  poll_calls project count (S attempts)
  = poll_calls project count 1 ++ poll_calls project (S count) attempts.
Proof. simpl. rewrite app_nil_r. by case_bool_decide. Qed.

(** The loop stops at the first attempt that observes the expected count. *)
Lemma wait_images_reaches j : ∀ remaining count n new_images w,
  project_mapped p project w → n ≠ Z.of_nat expected →
  (1 ≤ j ≤ remaining)%nat →
  length (image_feed w (count + j)) = expected →
  (∀ i, (1 ≤ i < j)%nat → length (image_feed w (count + i)) ≠ expected) →
  wait_images expected remaining count n new_images w
  = (serve_all (poll_calls project count j) w,
     Return (Some (image_feed w (count + j)))).
Proof.
  induction j as [|j IH]; intros remaining count n new_images w Hw Hn Hj Hhit Hmiss;
    [lia|].
  destruct remaining as [|remaining]; [lia|].
  destruct (wait_images_step remaining count n new_images w Hw Hn)
    as (-> & Hw' & Hfeed).
  destruct (decide (j = 0)%nat) as [->|Hj0].
  - replace (count + 1)%nat with (S count) in * by lia.
    rewrite Hhit. apply wait_images_done.
  - rewrite (poll_calls_S count j), serve_all_app.
    replace (count + S j)%nat with (S count + j)%nat in * by lia.
    rewrite <- Hfeed.
    apply IH; [done| |lia|by rewrite Hfeed|].
    + intros Heq. rewrite Hfeed in Heq. apply (Hmiss 1%nat); [lia|].
      replace (count + 1)%nat with (S count) by lia. lia.
    + intros i Hi. rewrite Hfeed.
      replace (S count + i)%nat with (count + S i)%nat by lia.
      apply Hmiss. lia.
Qed.

(** The loop stops when the budget is spent. *)
Lemma wait_images_gives_up remaining : ∀ count n new_images w,
  project_mapped p project w → n ≠ Z.of_nat expected →
  (∀ i, (1 ≤ i ≤ S remaining)%nat →
        length (image_feed w (count + i)) ≠ expected) →
  wait_images expected (S remaining) count n new_images w
  = (serve_all (poll_calls project count (S remaining)) w,
     Return (Some (image_feed w (count + S remaining)))).
Proof.
  induction remaining as [|r IH]; intros count n new_images w Hw Hn Hmiss.
  - destruct (wait_images_step 0 count n new_images w Hw Hn) as (-> & Hw' & Hfeed).
    replace (count + 1)%nat with (S count) by lia.
    simpl wait_images. case_bool_decide; done.
  - destruct (wait_images_step (S r) count n new_images w Hw Hn)
      as (-> & Hw' & Hfeed).
    rewrite (poll_calls_S count (S r)), serve_all_app.
    replace (count + S (S r))%nat with (S count + S r)%nat by lia.
    rewrite <- Hfeed.
    apply IH; [done| |].
    + intros Heq. rewrite Hfeed in Heq. apply (Hmiss 1%nat); [lia|].
      replace (count + 1)%nat with (S count) by lia. lia.
    + intros i Hi. rewrite Hfeed.
      replace (S count + i)%nat with (count + S i)%nat by lia.
      apply Hmiss. lia.
Qed.

End waiting.

Lemma calls_serve_all l w : calls (serve_all l w) = calls w ++ l.
Proof.
  revert w. induction l as [|c l IH]; intros w; simpl.
  - by rewrite app_nil_r.
  - rewrite IH. simpl. by rewrite <- app_assoc.
Qed.

Lemma poll_calls_head project attempts :
  (1 ≤ attempts)%nat →
  head (poll_calls project 0 attempts) = Some (FetchImageInstances project).
Proof. destruct attempts; [lia|done]. Qed.

(** C2.  With [E >= 1] images expected, the loop of [import_images] that
    waits for them, entered with [count = 0] and [n_new_images = -1]: if the
    attempt numbered [k <= 5 * E] is the first to observe [E] image
    instances, the loop issues exactly [k] queries and returns the collection
    of that attempt, of [E] image instances; if none of the [5 * E] attempts
    observes [E], it issues exactly [5 * E] queries and returns the collection
    of the last attempt, without raising.  In both cases the first call is a
    query, and the sleeps are one fewer than the queries: nothing sleeps
    before the first attempt. *)
Theorem C2_wait_images_bounded
    (E : nat) (p : Project) (project : Z) (w : World) :
  (1 ≤ E)%nat →
  project_mapped p project w →
  let loop := wait_images E (E * 5) 0 (-1) None w in
  (∀ k, (1 ≤ k ≤ 5 * E)%nat →
        length (image_feed w k) = E →
        (∀ i, (1 ≤ i < k)%nat → length (image_feed w i) ≠ E) →
        loop.2 = Return (Some (image_feed w k))
        ∧ calls loop.1 = calls w ++ poll_calls project 0 k
        ∧ count_calls is_query (poll_calls project 0 k) = k
        ∧ count_calls is_sleep (poll_calls project 0 k) = pred k
        ∧ head (poll_calls project 0 k) = Some (FetchImageInstances project))
  ∧ ((∀ i, (1 ≤ i ≤ 5 * E)%nat → length (image_feed w i) ≠ E) →
     loop.2 = Return (Some (image_feed w (5 * E)))
     ∧ calls loop.1 = calls w ++ poll_calls project 0 (5 * E)
     ∧ count_calls is_query (poll_calls project 0 (5 * E)) = (5 * E)%nat
     ∧ count_calls is_sleep (poll_calls project 0 (5 * E)) = pred (5 * E)
     ∧ head (poll_calls project 0 (5 * E)) = Some (FetchImageInstances project)).
Proof.
  intros HE Hw loop.
  assert ((-1)%Z ≠ Z.of_nat E) as Hn by lia.
  split.
  - intros k Hk Hhit Hmiss. unfold loop.
    rewrite (wait_images_reaches E p project k (E * 5) 0 (-1) None w);
      [|done|done|lia|done|done].
    simpl. rewrite calls_serve_all, poll_calls_queries, poll_calls_sleeps.
    repeat split; try done. apply poll_calls_head. lia.
  - intros Hmiss. unfold loop.
    replace (E * 5)%nat with (S (pred (5 * E))) by lia.
    rewrite (wait_images_gives_up E p project (pred (5 * E)) 0 (-1) None w);
      [|done|done|].
    + replace (S (pred (5 * E))) with (5 * E)%nat by lia.
      simpl fst. simpl snd.
      rewrite calls_serve_all, poll_calls_queries, poll_calls_sleeps.
      repeat split; try done. apply poll_calls_head. lia.
    + intros i Hi. apply Hmiss. simpl. lia.
Qed.

Lemma C2_wait_images_bounded_witness :
  (wait_images 1 (1 * 5) 0 (-1) None ExC2.w).2
  = Return (Some [Ex.image 100 50 "a.tif"])
  ∧ calls (wait_images 1 (1 * 5) 0 (-1) None ExC2.w).1
    = [FetchImageInstances 70; FetchImageInstances 70; Sleep 5000].
Proof.
  destruct (C2_wait_images_bounded 1 ExC2.p 70 ExC2.w) as [H _].
  - lia.
  - split; reflexivity.
  - destruct (H 2%nat) as (H1 & H2 & _).
    + lia.
    + reflexivity.
    + intros i Hi. assert (i = 1%nat) as -> by lia. simpl. discriminate.
    + split; [exact H1|exact H2].
Defined.

(** C10.  With no image in the snapshot the loop that waits for the images
    issues no query and leaves [new_images] at [None]; the loop that fixes
    the image instances then raises [TypeError] on iterating it, and so does
    [import_images], with nothing done. *)
Theorem C10_import_images_empty_snapshot
    (with_original_date : bool) (host_upload working_path : string)
    (s : Snapshot) (w : World) :
  snap_images s = [] →
  wait_images (length (snap_images s)) (length (snap_images s) * 5) 0 (-1) None w
  = (w, Return None)
  ∧ (∀ remote_images_dict,
       fix_images with_original_date remote_images_dict None w
       = (w, Raise TypeError))
  ∧ import_images with_original_date host_upload working_path s w
    = (w, Raise TypeError).
Proof.
  intros Hs. unfold import_images. rewrite Hs. done.
Qed.

Lemma C10_import_images_empty_snapshot_witness :
  import_images false "upload.host" "/tmp/export" (Ex.metadata_snapshot 2)
    (Ex.world ∅)
  = (Ex.world ∅, Raise TypeError).
Proof.
  apply (C10_import_images_empty_snapshot false "upload.host" "/tmp/export"
           (Ex.metadata_snapshot 2) (Ex.world ∅)).
  reflexivity.
Defined.

(** ** C7: one annotation *)

Lemma map_each_lookup_id_ok (l targets : list Z) (w : World) :
  Forall2 (λ t t', id_mapping w !! t = Some t') l targets →
  map_each l lookup_id w = (w, Return targets).
Proof.
  induction 1 as [|t t' l targets Ht _ IH]; simpl; [done|].
  unfold bind at 1. unfold lookup_id at 1.
  rewrite (dict_get_Some _ _ _ Ht).
  unfold bind at 1. by rewrite IH.
Qed.

Lemma map_each_lookup_id_fail (l : list Z) (w : World) :
  Exists (λ t, id_mapping w !! t = None) l →
  ∃ k, map_each l lookup_id w = (w, Raise (KeyError k))
       ∧ k ∈ l ∧ id_mapping w !! k = None.
Proof.
  induction l as [|t l IH]; intros Hex; [by apply Exists_nil in Hex|].
  simpl. unfold bind at 1. unfold lookup_id at 1. unfold dict_get.
  destruct (id_mapping w !! t) as [t'|] eqn:Ht.
  - apply Exists_cons in Hex as [Hex|Hex]; [congruence|].
    destruct (IH Hex) as (k & Hk & Hin & Hnone).
    exists k. unfold bind at 1. rewrite Hk. split; [done|]. split; [by right|done].
  - exists t. split; [done|]. split; [left|done].
Qed.

Section annotation.
Variable with_original_date : bool.

Lemma add_annotation_skips a w :
  a_project a ∉ dom (id_mapping w) ∨ a_image a ∉ dom (id_mapping w) →
  _add_annotation with_original_date a w = (w, Return tt).
Proof.
  intros H. unfold _add_annotation, bind, get.
  by rewrite bool_decide_eq_true_2.
Qed.

Lemma add_annotation_enters a w project image :
  id_mapping w !! a_project a = Some project →
  id_mapping w !! a_image a = Some image →
  _add_annotation with_original_date a w
  = (user <- lookup_id (a_user a) ;;
     term <- map_each (a_term a) lookup_id ;;
     do_call (SaveAnnotation (sent_annotation with_original_date a project image user term))) w.
Proof.
  intros Hp Hi. unfold _add_annotation, bind at 1, get.
  rewrite bool_decide_eq_false_2.
  - unfold bind at 1. unfold lookup_id at 1. rewrite (dict_get_Some _ _ _ Hp).
    unfold bind at 1. unfold lookup_id at 1. rewrite (dict_get_Some _ _ _ Hi).
    done.
  - intros [H|H]; apply H, elem_of_dom; eauto.
Qed.

End annotation.

(** C7, counterexample.  The annotation [a1], whose references are all
    mapped, is persisted with [id], [slice], [created] and [updated] set to
    [None], not with its other fields unchanged; the annotation [a2], whose
    project and image are mapped and whose second term is not, is not
    persisted: the task raises [KeyError]. *)
Lemma C7_other_fields_and_terms_counterexample :
  _add_annotation false ExC7.a1 ExC7.w
  = (server (SaveAnnotation ExC7.a1_sent) ExC7.w, Return tt)
  ∧ ExC7.a1_sent ≠ ExC7.a1_claimed
  ∧ _add_annotation false ExC7.a2 ExC7.w = (ExC7.w, Raise (KeyError 32)).
Proof.
  split; [by vm_compute|]. split; [discriminate|by vm_compute].
Qed.

(** C7, amended.  An annotation whose project or image reference is not in
    the mapping is skipped: nothing is sent and the task returns.
    Otherwise, if its user and every term are in the mapping, it is
    persisted once, with project, image, user and terms replaced by their
    targets, [id] and [slice] set to [None], [created] and [updated] kept
    only with [with_original_date], and the geometry and every other field
    unchanged; if its user or one of its terms is not in the mapping, the
    task raises the [KeyError] of an unmapped reference and nothing is
    sent. *)
Theorem C7_add_annotation
    (with_original_date : bool) (a : Annotation) (w : World)
    (project image : Z) :
  id_mapping w !! a_project a = Some project →
  id_mapping w !! a_image a = Some image →
  (∀ w', a_project a ∉ dom (id_mapping w') ∨ a_image a ∉ dom (id_mapping w') →
         _add_annotation with_original_date a w' = (w', Return tt))
  ∧ (∀ user term,
       id_mapping w !! a_user a = Some user →
       Forall2 (λ t t', id_mapping w !! t = Some t') (a_term a) term →
       _add_annotation with_original_date a w
       = (server (SaveAnnotation
                    (sent_annotation with_original_date a project image user term))
            w, Return tt)
       ∧ a_location (sent_annotation with_original_date a project image user term)
         = a_location a
       ∧ a_rest (sent_annotation with_original_date a project image user term)
         = a_rest a)
  ∧ (id_mapping w !! a_user a = None
     ∨ Exists (λ t, id_mapping w !! t = None) (a_term a) →
     ∃ k, _add_annotation with_original_date a w = (w, Raise (KeyError k))
          ∧ id_mapping w !! k = None).
Proof.
  intros Hp Hi. split; [|split].
  - intros w'. apply add_annotation_skips.
  - intros user term Hu Ht.
    rewrite (add_annotation_enters _ _ _ _ _ Hp Hi).
    unfold bind at 1. unfold lookup_id at 1. rewrite (dict_get_Some _ _ _ Hu).
    unfold bind at 1. by rewrite (map_each_lookup_id_ok _ _ _ Ht).
  - intros Hbad. rewrite (add_annotation_enters _ _ _ _ _ Hp Hi).
    unfold bind at 1. unfold lookup_id at 1. unfold dict_get.
    destruct (id_mapping w !! a_user a) as [user|] eqn:Hu.
    + destruct Hbad as [|Hex]; [done|].
      destruct (map_each_lookup_id_fail _ _ Hex) as (k & Hk & _ & Hnone).
      exists k. unfold bind at 1. by rewrite Hk.
    + by exists (a_user a).
Qed.

Lemma C7_add_annotation_witness :
  _add_annotation true ExC7.a1 ExC7.w
  = (server (SaveAnnotation
               (sent_annotation true ExC7.a1 70 100 2 [301%Z])) ExC7.w,
     Return tt).
Proof.
  destruct (C7_add_annotation true ExC7.a1 ExC7.w 70 100 eq_refl eq_refl)
    as (_ & H & _).
  apply (H 2%Z [301%Z]).
  - reflexivity.
  - repeat constructor.
Defined.

(** ** C6: a task of a batch that raises *)

Lemma bind_raises {S A B} (m : M S A) (k : A → M S B) s s' e :
  m s = (s', Raise e) → bind m k s = (s', Raise e).
Proof. intros H. unfold bind. by rewrite H. Qed.

Lemma bind_raises_outcome {S A} (m : M S A) (k : A → M S A) s e :
  (m s).2 = Raise e → bind m k s = m s.
Proof. unfold bind. destruct (m s) as [s' [a|e']]; simpl; by intros [=]. Qed.

(** *** A batch in which a task raises, under every schedule

    The tasks keep [I]; from a state of [I], each task of [l] returns or
    raises [e], and one of them raises [e]. *)

Section batch.
Context {S A : Type} (task : A → M S unit) (I : S → Prop) (e : exn).
Hypothesis keeps : ∀ x s, I s → I (task x s).1.

Lemma lingering_keeps l s : I s → I (lingering l task s).1.
Proof.
  revert s. induction l as [|x l IH]; intros s Hs; simpl; [done|].
  pose proof (keeps x s Hs) as Hk.
  destruct (task x s) as [s' [[]|e1]]; simpl in *; [by apply IH|].
  specialize (IH s' Hk). by destruct (lingering l task s') as [s'' es].
Qed.

Lemma run_tasks_keeps n b l s : I s → I (run_tasks n b l task s).1.
Proof.
  revert s. induction l as [|x l IH]; intros s Hs; simpl; [done|].
  pose proof (keeps x s Hs) as Hk.
  destruct (task x s) as [s' [[]|e1]]; simpl in *; [by apply IH|].
  pose proof (lingering_keeps (take n l) s' Hk) as Hl.
  by destruct (lingering (take n l) task s') as [s'' es].
Qed.

Lemma Parallel_keeps `{!Schedule S} l s : I s → I (Parallel l task s).1.
Proof. apply run_tasks_keeps. Qed.

Lemma lingering_raises l s :
  Forall (λ x, ∀ s, I s → (task x s).2 = Raise e ∨ (task x s).2 = Return tt) l →
  I s → Forall (λ e', e' = e) (lingering l task s).2.
Proof.
  revert s. induction l as [|x l IH]; intros s Hl Hs; simpl; [constructor|].
  apply Forall_cons in Hl as [Hx Hl].
  specialize (Hx s Hs). pose proof (keeps x s Hs) as Hk.
  destruct (task x s) as [s' [[]|e1]]; simpl in *.
  - by apply IH.
  - specialize (IH s' Hl Hk). destruct (lingering l task s') as [s'' es].
    simpl in *. destruct Hx as [[= ->]|[=]]. by constructor.
Qed.

Lemma run_tasks_raises n b l s :
  Forall (λ x, ∀ s, I s → (task x s).2 = Raise e ∨ (task x s).2 = Return tt) l →
  Exists (λ x, ∀ s, I s → (task x s).2 = Raise e) l →
  I s → (run_tasks n b l task s).2 = Raise e.
Proof.
  revert s. induction l as [|x l IH]; intros s Hl Hex Hs;
    [by apply Exists_nil in Hex|].
  simpl. apply Forall_cons in Hl as [Hx Hl].
  pose proof (Hx s Hs) as Hxs. pose proof (keeps x s Hs) as Hk.
  assert ((task x s).2 = Return tt → Exists (λ x, ∀ s, I s → (task x s).2 = Raise e) l)
    as Hrest.
  { intros Hr. apply Exists_cons in Hex as [Hbad|Hex]; [|done].
    specialize (Hbad s Hs). congruence. }
  destruct (task x s) as [s' [[]|e1]]; simpl in *.
  - apply IH; auto.
  - destruct Hxs as [[= ->]|[=]].
    pose proof (lingering_raises (take n l) s' ltac:(by apply Forall_take) Hk)
      as Hes.
    destruct (lingering (take n l) task s') as [s'' es]. simpl in *. f_equal.
    destruct ((e :: es) !! _) as [e1|] eqn:El; simpl; [|done].
    assert (Forall (λ e', e' = e) (e :: es)) as Hall by (by constructor).
    exact (Forall_lookup_1 _ _ _ _ Hall El).
Qed.

Lemma Parallel_raises `{!Schedule S} l s :
  Forall (λ x, ∀ s, I s → (task x s).2 = Raise e ∨ (task x s).2 = Return tt) l →
  Exists (λ x, ∀ s, I s → (task x s).2 = Raise e) l →
  I s → (Parallel l task s).2 = Raise e.
Proof.
  intros Hl Hex Hs. unfold Parallel. apply run_tasks_raises; [| |done].
  - by rewrite scheduled_Permutation.
  - by rewrite scheduled_Permutation.
Qed.

End batch.

(** *** What a batch leaves behind

    Each task adds one entry of [P] to the log and returns, or leaves the
    log as it is. *)

Section logged.
Context {S A X : Type} (log : S → list X) (P : X → Prop) (task : A → M S unit).
Hypothesis logs : ∀ x s,
  (∃ c, P c ∧ log (task x s).1 = log s ++ [c] ∧ (task x s).2 = Return tt)
  ∨ log (task x s).1 = log s.

Lemma lingering_logs l s :
  ∃ cs, log (lingering l task s).1 = log s ++ cs
        ∧ Forall P cs ∧ (length cs ≤ length l)%nat.
Proof.
  revert s. induction l as [|x l IH]; intros s; simpl.
  - exists []. by rewrite app_nil_r.
  - assert (∃ cs, log (task x s).1 = log s ++ cs ∧ Forall P cs
                  ∧ (length cs ≤ 1)%nat) as (c1 & Hc1 & HP1 & Hn1).
    { destruct (logs x s) as [(c & Hc & Hl & _)|Hl].
      - exists [c]. repeat split; [done|by constructor|done].
      - exists []. rewrite app_nil_r. repeat split; [done|constructor|simpl; lia]. }
    destruct (task x s) as [s' [[]|e1]]; simpl in *.
    + destruct (IH s') as (cs & Hcs & HP & Hn). exists (c1 ++ cs).
      rewrite Hcs, Hc1, <- app_assoc, length_app.
      repeat split; [by apply Forall_app|lia].
    + destruct (IH s') as (cs & Hcs & HP & Hn).
      destruct (lingering l task s') as [s'' es]. simpl in *.
      exists (c1 ++ cs). rewrite Hcs, Hc1, <- app_assoc, length_app.
      repeat split; [by apply Forall_app|lia].
Qed.

Lemma run_tasks_logs n b l s :
  ∃ cs, log (run_tasks n b l task s).1 = log s ++ cs
        ∧ Forall P cs
        ∧ (length cs + match (run_tasks n b l task s).2 with
                       | Raise _ => 1
                       | Return _ => 0
                       end ≤ length l)%nat.
Proof.
  revert s. induction l as [|x l IH]; intros s; simpl.
  - exists []. by rewrite app_nil_r.
  - pose proof (logs x s) as Hx.
    destruct (task x s) as [s' [[]|e1]]; simpl in *.
    + assert (∃ cs, log s' = log s ++ cs ∧ Forall P cs
                    ∧ (length cs ≤ 1)%nat) as (c1 & Hc1 & HP1 & Hn1).
      { destruct Hx as [(c & Hc & Hl & _)|Hl].
        - exists [c]. repeat split; [done|by constructor|done].
        - exists []. rewrite app_nil_r.
          repeat split; [done|constructor|simpl; lia]. }
      destruct (IH s') as (cs & Hcs & HP & Hn). exists (c1 ++ cs).
      rewrite Hcs, Hc1, <- app_assoc, length_app.
      repeat split; [by apply Forall_app|lia].
    + destruct Hx as [(c & _ & _ & [=])|Hx].
      destruct (lingering_logs (take n l) s') as (cs & Hcs & HP & Hn).
      destruct (lingering (take n l) task s') as [s'' es]. simpl in *.
      exists cs. rewrite Hcs, Hx. repeat split; [done|].
      rewrite length_take in Hn. lia.
Qed.

Lemma Parallel_logs `{!Schedule S} l s :
  ∃ cs, log (Parallel l task s).1 = log s ++ cs
        ∧ Forall P cs
        ∧ (length cs + match (Parallel l task s).2 with
                       | Raise _ => 1
                       | Return _ => 0
                       end ≤ length l)%nat.
Proof.
  unfold Parallel.
  destruct (run_tasks_logs (linger s) (blame s)
              (scheduled (turn s) 0 (length l) l) s) as (cs & Hcs & HP & Hn).
  rewrite scheduled_length in Hn. eauto.
Qed.

End logged.

(** *** The annotation tasks *)

Lemma map_each_lookup_id_state (l : list Z) (w : World) :
  (map_each l lookup_id w).1 = w.
Proof.
  induction l as [|t l IH]; simpl; [done|].
  unfold bind at 1. unfold lookup_id at 1.
  destruct (dict_get (id_mapping w) t) as [t'|e]; [|done].
  unfold bind at 1. destruct (map_each l lookup_id w) as [w' [ts|e]]; by simpl in *.
Qed.

Lemma map_each_lookup_id_outcome (l : list Z) (w w' : World) :
  id_mapping w' = id_mapping w →
  (map_each l lookup_id w').2 = (map_each l lookup_id w).2.
Proof.
  intros Hm. induction l as [|t l IH]; simpl; [done|].
  unfold bind at 1 3. unfold lookup_id at 1 3. rewrite Hm.
  destruct (dict_get (id_mapping w) t) as [t'|e]; [|done].
  unfold bind at 1 2.
  destruct (map_each l lookup_id w') as [w1' [ts'|e']],
           (map_each l lookup_id w) as [w1 [ts|e]]; simpl in *; congruence.
Qed.

(** A task [_add_annotation] sends its annotation and returns, or sends
    nothing. *)
Lemma add_annotation_effect with_original_date a w :
  (∃ sent, _add_annotation with_original_date a w
           = (server (SaveAnnotation sent) w, Return tt))
  ∨ (∃ o, _add_annotation with_original_date a w = (w, o)).
Proof.
  destruct (id_mapping w !! a_project a) as [project|] eqn:Hp;
    [|right; eexists; apply add_annotation_skips; left; by apply not_elem_of_dom].
  destruct (id_mapping w !! a_image a) as [image|] eqn:Hi;
    [|right; eexists; apply add_annotation_skips; right; by apply not_elem_of_dom].
  rewrite (add_annotation_enters _ _ _ _ _ Hp Hi).
  unfold bind at 1 3, lookup_id at 1 3.
  destruct (dict_get _ (a_user a)); [|right; eexists; reflexivity].
  unfold bind at 1 2.
  pose proof (map_each_lookup_id_state (a_term a) w) as Hst.
  destruct (map_each (a_term a) lookup_id w) as [w1 [ts|e1]]; simpl in Hst; subst w1.
  - left. eexists. reflexivity.
  - right. eexists. reflexivity.
Qed.

(** A task [_add_annotation] that raises has sent nothing. *)
Lemma add_annotation_raises_unchanged with_original_date a w w' e :
  _add_annotation with_original_date a w = (w', Raise e) → w' = w.
Proof.
  destruct (add_annotation_effect with_original_date a w) as [[sent ->]|[o ->]];
    by intros [=].
Qed.

(** Whether a task [_add_annotation] returns or raises depends on the
    mapping only, which it leaves as it is. *)
Lemma add_annotation_outcome with_original_date a w w' :
  id_mapping w' = id_mapping w →
  (_add_annotation with_original_date a w').2
  = (_add_annotation with_original_date a w).2.
Proof.
  intros Hm.
  destruct (id_mapping w !! a_project a) as [project|] eqn:Hp.
  2: { rewrite !add_annotation_skips; [done|left..]; apply not_elem_of_dom;
       congruence. }
  destruct (id_mapping w !! a_image a) as [image|] eqn:Hi.
  2: { rewrite !add_annotation_skips; [done|right..]; apply not_elem_of_dom;
       congruence. }
  rewrite (add_annotation_enters _ _ w _ _ Hp Hi).
  rewrite <- Hm in Hp, Hi. rewrite (add_annotation_enters _ _ w' _ _ Hp Hi).
  unfold bind at 1 3, lookup_id at 1 3. rewrite Hm.
  destruct (dict_get _ (a_user a)); [|done].
  unfold bind at 1 2.
  pose proof (map_each_lookup_id_outcome (a_term a) w w' Hm) as Ho.
  destruct (map_each (a_term a) lookup_id w') as [w1' [ts'|e']],
           (map_each (a_term a) lookup_id w) as [w1 [ts|e]];
    simpl in *; congruence.
Qed.

Lemma add_annotation_mapping with_original_date a w :
  id_mapping (_add_annotation with_original_date a w).1 = id_mapping w.
Proof.
  by destruct (add_annotation_effect with_original_date a w) as [[sent ->]|[o ->]].
Qed.

Lemma add_annotation_user with_original_date a w :
  current_user (_add_annotation with_original_date a w).1 = current_user w.
Proof.
  by destruct (add_annotation_effect with_original_date a w) as [[sent ->]|[o ->]].
Qed.

Lemma add_annotation_logs with_original_date a w :
  (∃ c, is_save_annotation c = true
        ∧ calls (_add_annotation with_original_date a w).1 = calls w ++ [c]
        ∧ (_add_annotation with_original_date a w).2 = Return tt)
  ∨ calls (_add_annotation with_original_date a w).1 = calls w.
Proof.
  destruct (add_annotation_effect with_original_date a w) as [[sent ->]|[o ->]];
    [left|by right].
  by exists (SaveAnnotation sent).
Qed.

(** The batch of a creator in which a task raises [e], and no task raises
    anything else: under every schedule the phase raises [e] with the
    creator still connected, and fewer annotations were sent than the batch
    has tasks. *)
Lemma import_annotations_of_raises {schedule : Schedule World}
    (with_original_date : bool) (annots : list Annotation) (user : User)
    (u : Z) (w : World) (e : exn) :
  id_mapping w !! user_id user = Some u →
  Exists (λ a, (_add_annotation with_original_date a w).2 = Raise e)
    (filter (λ a, a_user a = user_id user) annots) →
  Forall (λ a, (_add_annotation with_original_date a w).2 = Raise e
               ∨ (_add_annotation with_original_date a w).2 = Return tt)
    (filter (λ a, a_user a = user_id user) annots) →
  (import_annotations_of with_original_date annots user w).2 = Raise e
  ∧ current_user (import_annotations_of with_original_date annots user w).1 = u
  ∧ ∃ saves,
      calls (import_annotations_of with_original_date annots user w).1
      = calls w ++ ConnectAs u false :: saves
      ∧ Forall (λ c, is_save_annotation c = true) saves
      ∧ (length saves
         < length (filter (λ a, a_user a = user_id user) annots))%nat.
Proof.
  intros Hu Hex Hall.
  set (batch := filter (λ a, a_user a = user_id user) annots) in *.
  set (w0 := server (ConnectAs u false) w).
  set (I := λ s : World, id_mapping s = id_mapping w).
  assert (∀ x s, I s → I (_add_annotation with_original_date x s).1) as Hkeep.
  { intros x s Hs. unfold I. by rewrite add_annotation_mapping. }
  assert ((Parallel batch (_add_annotation with_original_date) w0).2 = Raise e)
    as Hraise.
  { apply (Parallel_raises _ I e Hkeep); [| |done].
    - eapply Forall_impl; [exact Hall|]. intros a Ha s Hs.
      by rewrite (add_annotation_outcome _ _ w s Hs).
    - eapply Exists_impl; [exact Hex|]. intros a Ha s Hs.
      by rewrite (add_annotation_outcome _ _ w s Hs). }
  assert (import_annotations_of with_original_date annots user w
          = Parallel batch (_add_annotation with_original_date) w0) as ->.
  { unfold import_annotations_of. fold batch.
    unfold bind at 1. unfold lookup_id at 1. rewrite (dict_get_Some _ _ _ Hu).
    unfold bind at 1. unfold connect_as, do_call, modify. fold w0.
    by apply bind_raises_outcome with (e := e). }
  split; [done|]. split.
  - apply (Parallel_keeps (_add_annotation with_original_date)
             (λ s, current_user s = u)); [|done].
    intros x s Hs. by rewrite add_annotation_user.
  - destruct (Parallel_logs calls (λ c, is_save_annotation c = true)
                (_add_annotation with_original_date)
                (add_annotation_logs with_original_date) batch w0)
      as (saves & Hcalls & Hsaves & Hn).
    rewrite Hraise in Hn. exists saves. rewrite Hcalls. simpl.
    rewrite <- app_assoc. repeat split; [done|lia].
Qed.

(** The download tasks: a task adds the file of its image and returns, or
    adds nothing. *)
Lemma download_image_logs download path image files :
  (∃ f, (∃ i, f = path_join path (ii_originalFilename i))
        ∧ (_download_image download image path files).1 = files ++ [f]
        ∧ (_download_image download image path files).2 = Return tt)
  ∨ (_download_image download image path files).1 = files.
Proof.
  unfold _download_image. destruct (download image) as [[]|e]; [left|by right..].
  eexists. split; [by eexists|done].
Qed.

Lemma export_images_download_raises {schedule : Schedule (list string)}
    (download : ImageInstance → outcome bool) (project_path : string)
    (images : list ImageInstance) (files : list string) (e : exn) :
  Exists (λ image, download image = Raise e) images →
  Forall (λ image, download image = Raise e ∨ ∃ b, download image = Return b)
    images →
  (export_images_download download true project_path images files).2 = Raise e
  ∧ ∃ written,
      (export_images_download download true project_path images files).1
      = files ++ written
      ∧ Forall (λ f, ∃ i, f = path_join (path_join project_path "images")
                                (ii_originalFilename i)) written
      ∧ (length written < length images)%nat.
Proof.
  intros Hex Hall. unfold export_images_download.
  set (task := λ image, _download_image download image
                          (path_join project_path "images")).
  assert ((Parallel images task files).2 = Raise e) as Hraise.
  { apply (Parallel_raises task (λ _, True) e); [done| | |done].
    - eapply Forall_impl; [exact Hall|]. intros i Hi s _.
      unfold task, _download_image.
      destruct Hi as [->|[[] ->]]; [by left|by right..].
    - eapply Exists_impl; [exact Hex|]. intros i Hi s _.
      unfold task, _download_image. by rewrite Hi. }
  split; [done|].
  destruct (Parallel_logs (λ files : list string, files)
              (λ f, ∃ i, f = path_join (path_join project_path "images")
                              (ii_originalFilename i))
              task (λ image files, download_image_logs download _ image files)
              images files)
    as (written & Hw & HP & Hn).
  rewrite Hraise in Hn. exists written. repeat split; [done..|lia].
Qed.

(** C6, counterexample.  In the batch of three annotation tasks the second
    one raises (its term 99 is not mapped) and the two others, run alone,
    persist their annotation.  Whatever the threads decide, the batch does
    not return with two annotations persisted: it raises.  When the tasks
    take effect in order and none does after the one that raised, one
    annotation was persisted; when the third task still takes effect, two
    were, and the batch raises all the same.  Under both schedules the
    whole run raises and imports none of the metadata of the snapshot. *)
Lemma C6_failing_task_aborts_counterexample :
  (_add_annotation false (ExRun.annotation 900 [31%Z]) ExC7.w).2 = Return tt
  ∧ (_add_annotation false (ExRun.annotation 901 [99%Z]) ExC7.w).2
    = Raise (KeyError 99)
  ∧ (_add_annotation false (ExRun.annotation 902 [31%Z]) ExC7.w).2 = Return tt
  ∧ (∀ schedule : Schedule World,
       ¬ spec_one_failure_is_isolated false ExC6.batch ExRun.ann ExC7.w)
  ∧ import_annotations_of (schedule := Ex.in_order) false ExC6.batch
      ExRun.ann ExC7.w
    = (ExC6.after_first, Raise (KeyError 99))
  ∧ import_annotations_of (schedule := Ex.eager) false ExC6.batch
      ExRun.ann ExC7.w
    = (ExC6.after_others, Raise (KeyError 99))
  ∧ count_calls is_save_annotation (calls ExC6.after_first) = 1%nat
  ∧ count_calls is_save_annotation (calls ExC6.after_others) = 2%nat
  ∧ (ExRun.run_it ExC6.annots).2 = Raise (KeyError 99)
  ∧ count_calls is_metadata (calls (ExRun.run_it ExC6.annots).1) = 0%nat
  ∧ (run (schedule := Ex.eager) false "upload.host" "/tmp/export"
       (λ _, "secret") (ExRun.snapshot ExC6.annots) ExRun.target).2
    = Raise (KeyError 99)
  ∧ count_calls is_metadata
      (calls (run (schedule := Ex.eager) false "upload.host" "/tmp/export"
                (λ _, "secret") (ExRun.snapshot ExC6.annots) ExRun.target).1)
    = 0%nat
  ∧ count_calls is_metadata (calls (ExRun.run_it []).1) = 2%nat.
Proof.
  split; [by vm_compute|]. split; [by vm_compute|]. split; [by vm_compute|].
  split.
  - intros schedule [H _].
    destruct (import_annotations_of_raises false ExC6.batch ExRun.ann 2 ExC7.w
                (KeyError 99)) as (Hr & _).
    + reflexivity.
    + apply Exists_cons_tl, Exists_cons_hd. by vm_compute.
    + repeat constructor; by vm_compute.
    + rewrite Hr in H. discriminate H.
  - repeat split; by vm_compute.
Qed.

(** C6, amended.  A task of a parallel batch that raises is not isolated.
    Whatever the threads decide, when a task of the batch raises and no
    task raises anything else, the batch raises that exception to its
    caller; the phase that issued the batch ([import_annotations_of], the
    downloads of [export_images]) stops with it, and nothing that follows
    it runs, whatever it is: the creator stays connected.  The tasks that
    took effect before the exception reached the caller have persisted
    their annotation or written their file: how many of them did depends on
    the threads, and they are fewer than the tasks of the batch.  An
    annotation task that raises has persisted nothing.  A download that
    answers [False] instead of raising is no failure. *)
Theorem C6_batch_failure_propagates
    {schedule : Schedule World} {downloads : Schedule (list string)}
    (with_original_date : bool) (annots : list Annotation)
    (user : User) (u : Z) (w : World) (e : exn)
    (download : ImageInstance → outcome bool) (project_path : string)
    (images : list ImageInstance) (files : list string) (e' : exn) :
  id_mapping w !! user_id user = Some u →
  Exists (λ a, (_add_annotation with_original_date a w).2 = Raise e)
    (filter (λ a, a_user a = user_id user) annots) →
  Forall (λ a, (_add_annotation with_original_date a w).2 = Raise e
               ∨ (_add_annotation with_original_date a w).2 = Return tt)
    (filter (λ a, a_user a = user_id user) annots) →
  Exists (λ image, download image = Raise e') images →
  Forall (λ image, download image = Raise e' ∨ ∃ b, download image = Return b)
    images →
  (import_annotations_of with_original_date annots user w).2 = Raise e
  ∧ (∀ k : M World unit,
       (import_annotations_of with_original_date annots user ;;; k) w
       = import_annotations_of with_original_date annots user w)
  ∧ current_user (import_annotations_of with_original_date annots user w).1 = u
  ∧ (∃ saves,
       calls (import_annotations_of with_original_date annots user w).1
       = calls w ++ ConnectAs u false :: saves
       ∧ Forall (λ c, is_save_annotation c = true) saves
       ∧ (length saves
          < length (filter (λ a, a_user a = user_id user) annots))%nat)
  ∧ (∀ a w0 w1 e0,
       _add_annotation with_original_date a w0 = (w1, Raise e0) → w1 = w0)
  ∧ (export_images_download download true project_path images files).2
    = Raise e'
  ∧ (∀ k : M (list string) unit,
       (export_images_download download true project_path images ;;; k) files
       = export_images_download download true project_path images files)
  ∧ (∃ written,
       (export_images_download download true project_path images files).1
       = files ++ written
       ∧ Forall (λ f, ∃ i, f = path_join (path_join project_path "images")
                                 (ii_originalFilename i)) written
       ∧ (length written < length images)%nat)
  ∧ (∀ image' path files',
       download image' = Return false →
       _download_image download image' path files' = (files', Return tt)).
Proof.
  intros Hu Hex Hall Hex' Hall'.
  destruct (import_annotations_of_raises with_original_date annots user u w e
              Hu Hex Hall) as (Hr & Hc & Hsaves).
  destruct (export_images_download_raises download project_path images files e'
              Hex' Hall') as (Hr' & Hwritten).
  split; [done|]. split; [intros k; by eapply bind_raises_outcome|].
  split; [done|]. split; [done|].
  split; [intros a w0 w1 e0; apply add_annotation_raises_unchanged|].
  split; [done|]. split; [intros k; by eapply bind_raises_outcome|].
  split; [done|].
  intros image' path files' Hd. unfold _download_image. by rewrite Hd.
Qed.

Lemma C6_batch_failure_propagates_witness :
  (import_annotations_of (schedule := Ex.eager) false ExC6.batch ExRun.ann
     ExC7.w).2 = Raise (KeyError 99)
  ∧ (export_images_download (schedule := Ex.eager) ExC6.download true
       "/tmp/export/P" [Ex.image 10 5 "a.tif"; Ex.image 11 6 "b.tif"] []).2
    = Raise AttributeError.
Proof.
  destruct (C6_batch_failure_propagates (schedule := Ex.eager)
              (downloads := Ex.eager) false ExC6.batch ExRun.ann 2 ExC7.w
              (KeyError 99) ExC6.download "/tmp/export/P"
              [Ex.image 10 5 "a.tif"; Ex.image 11 6 "b.tif"] [] AttributeError)
    as (H1 & _ & _ & _ & _ & H2 & _).
  - reflexivity.
  - apply Exists_cons_tl, Exists_cons_hd. reflexivity.
  - repeat constructor; reflexivity.
  - apply Exists_cons_tl, Exists_cons_hd. reflexivity.
  - constructor; [right; by exists true|]. constructor; [by left|constructor].
  - split; [exact H1|exact H2].
Defined.

(** ** Names with a suffix *)

Lemma string_length_app (s t : string) :
  String.length (s +:+ t) = (String.length s + String.length t)%nat.
Proof. induction s as [|a s IH]; simpl; [done|by rewrite IH]. Qed.

Lemma string_app_inj_r (s1 s2 t : string) : s1 +:+ t = s2 +:+ t → s1 = s2.
Proof.
  revert s2. induction s1 as [|a s1 IH]; intros [|b s2] H; simpl in *.
  - done.
  - apply (f_equal String.length) in H.
    rewrite !string_length_app in H. simpl in H.
    rewrite ?string_length_app in H. lia.
  - apply (f_equal String.length) in H.
    rewrite !string_length_app in H. simpl in H.
    rewrite ?string_length_app in H. lia.
  - injection H as -> H. f_equal. by apply IH.
Qed.

Lemma suffixed_inj name i j : PyStr.suffixed name i = PyStr.suffixed name j → i = j.
Proof.
  unfold PyStr.suffixed. intros H.
  apply (inj (String.app name)) in H. apply (inj (String.app " (")) in H.
  apply string_app_inj_r in H. by apply (inj pretty) in H.
Qed.

Lemma suffixed_length name i :
  (String.length name < String.length (PyStr.suffixed name i))%nat.
Proof. unfold PyStr.suffixed. rewrite !string_length_app. simpl. lia. Qed.

Global Instance candidate_inj name : Inj (=) (=) (candidate name).
Proof.
  intros [|i] [|j] H; simpl in H.
  - done.
  - pose proof (suffixed_length name (S j)) as Hl. rewrite <- H in Hl. lia.
  - pose proof (suffixed_length name (S i)) as Hl. rewrite H in Hl. lia.
  - by apply suffixed_inj in H.
Qed.

(** Among more names than [names] has, all different, one is not in
    [names]. *)
Lemma one_is_free (cand : nat → string) (names : list string) :
  Inj (=) (=) cand →
  ∃ i, (i ≤ length names)%nat ∧ cand i ∉ names.
Proof.
  intros Hinj.
  set (l := cand <$> seq 0 (S (length names))).
  destruct (decide (Forall (λ x, x ∈ names) l)) as [Hall|Hex].
  - assert (NoDup l) as Hnd by (apply NoDup_fmap_2; [done|apply NoDup_seq]).
    assert (l ⊆+ names) as Hsub.
    { apply NoDup_submseteq; [done|]. by apply Forall_forall. }
    apply submseteq_length in Hsub. unfold l in Hsub.
    rewrite length_fmap, length_seq in Hsub. lia.
  - apply not_Forall_Exists in Hex; [|apply _].
    apply Exists_exists in Hex as (x & Hx & Hfree).
    apply list_elem_of_fmap in Hx as (i & -> & Hi).
    apply elem_of_seq in Hi. exists i. split; [lia|done].
Qed.

(** ** C5: the name of the new project *)

Lemma available_name_loop_finds existing_names name fuel : ∀ i,
  (∃ i', (i ≤ i' < i + fuel)%nat ∧ PyStr.suffixed name i' ∉ existing_names) →
  ∃ i', (i ≤ i' < i + fuel)%nat
        ∧ available_name_loop existing_names name fuel i
          = Some (PyStr.suffixed name i')
        ∧ (PyStr.suffixed name i' ∉ existing_names)
        ∧ ∀ j, (i ≤ j < i')%nat → PyStr.suffixed name j ∈ existing_names.
Proof.
  induction fuel as [|fuel IH]; intros i (i' & Hi' & Hfree); [lia|].
  simpl. case_bool_decide as Hin.
  - destruct (IH (S i)) as (i'' & Hi'' & Hloop & Hfree'' & Hbelow).
    { exists i'. split; [|done].
      destruct (decide (i' = i)) as [->|]; [done|lia]. }
    exists i''. split; [lia|]. split; [done|]. split; [done|].
    intros j Hj. destruct (decide (j = i)) as [->|]; [done|]. apply Hbelow. lia.
  - exists i. split; [lia|]. split; [done|]. split; [done|]. intros j Hj. lia.
Qed.

(** [available_name] returns the first candidate that no project bears. *)
Lemma available_name_least (projects : list Project) (name : string) :
  ∃ i, available_name projects name = Some (candidate name i)
       ∧ (candidate name i ∉ (project_name <$> projects))
       ∧ ∀ j, (j < i)%nat → candidate name j ∈ (project_name <$> projects).
Proof.
  unfold available_name.
  set (names := project_name <$> projects).
  case_bool_decide as Hin.
  - destruct (one_is_free (candidate name) names) as (i0 & Hi0 & Hfree0); [apply _|].
    destruct i0 as [|i0]; [done|].
    destruct (available_name_loop_finds names name (length names) 1)
      as (i & Hi & Hloop & Hfree & Hbelow).
    { exists (S i0). split; [lia|done]. }
    exists i. destruct i as [|i]; [lia|]. split; [done|]. split; [done|].
    intros [|j] Hj; [done|]. apply Hbelow. lia.
  - exists 0%nat. split; [done|]. split; [done|]. intros j Hj. lia.
Qed.

Lemma map_each_lookup_cases {A} (f : A → Z) (l : list A) (w : World) :
  (∃ targets, map_each l (λ x, lookup_id (f x)) w = (w, Return targets)
              ∧ Forall2 (λ x t, id_mapping w !! f x = Some t) l targets)
  ∨ (∃ k, map_each l (λ x, lookup_id (f x)) w = (w, Raise (KeyError k))
          ∧ id_mapping w !! k = None).
Proof.
  induction l as [|x l IH]; simpl.
  - left. exists []. by split.
  - unfold bind at 1 3. unfold lookup_id at 1 3. unfold dict_get.
    destruct (id_mapping w !! f x) as [t|] eqn:Hx.
    + destruct IH as [(targets & Hl & Hall)|(k & Hl & Hk)].
      * left. exists (t :: targets). unfold bind. rewrite Hl.
        split; [done|by constructor].
      * right. exists k. unfold bind. by rewrite Hl.
    + right. by exists (f x).
Qed.

Lemma import_project_outcome with_original_date s w name :
  available_name (projects w) (PyStr.strip (project_name (snap_project s)))
  = Some name →
  creates_project with_original_date s name w
    (import_project with_original_date s w).
Proof.
  intros Hname. unfold import_project.
  unfold bind at 1. unfold get at 1.
  unfold bind at 1. unfold modify at 1. cbn [project_name].
  rewrite Hname. cbn [project_ontology project_id project_created project_updated].
  set (w0 := set_remote_project _ w).
  unfold bind at 1. unfold lookup_id at 1. unfold dict_get.
  change (id_mapping w0) with (id_mapping w).
  destruct (id_mapping w !! project_ontology (snap_project s)) as [ontology|] eqn:Ho;
    [|simpl; split; [done|split; [done|eauto]]].
  unfold bind at 1.
  destruct (map_each_lookup_cases user_id
              (with_role "project_contributor" (remote_users w)) w0)
    as [(users & -> & _)|(k & -> & Hk)];
    [|simpl; split; [done|split; [done|eauto]]].
  unfold bind at 1.
  destruct (map_each_lookup_cases user_id
              (with_role "project_manager" (remote_users w)) w0)
    as [(admins & -> & _)|(k & -> & Hk)];
    [|simpl; split; [done|split; [done|eauto]]].
  simpl. exists ontology, users, admins.
  split; [done|]. split; [done|]. split; [|done].
  unfold dict_set. apply lookup_insert_eq.
Qed.

(** C5.  [import_project] never reuses a project: when it returns it has
    created exactly one project, with a fresh identifier, and when it raises
    (a reference that the mapping does not resolve) it has created none.
    The name of the new project is the first of ["P"], ["P (1)"],
    ["P (2)"], ... that no project of the target bears, [P] being the name
    of the snapshot's project without its surrounding whitespace: ["P"] if
    no project is named so; ["P (1)"] if one is and none is named
    ["P (1)"]; ["P (2)"] if both are borne and ["P (2)"] is not. *)
Theorem C5_import_project_smallest_suffix
    (with_original_date : bool) (s : Snapshot) (w : World) :
  let P := PyStr.strip (project_name (snap_project s)) in
  let names := project_name <$> projects w in
  ∃ i,
    available_name (projects w) P = Some (candidate P i)
    ∧ (candidate P i ∉ names)
    ∧ (∀ j, (j < i)%nat → candidate P j ∈ names)
    ∧ (P ∉ names → candidate P i = P)
    ∧ (P ∈ names → PyStr.suffixed P 1 ∉ names →
       candidate P i = PyStr.suffixed P 1)
    ∧ (P ∈ names → PyStr.suffixed P 1 ∈ names → PyStr.suffixed P 2 ∉ names →
       candidate P i = PyStr.suffixed P 2)
    ∧ creates_project with_original_date s (candidate P i) w
        (import_project with_original_date s w)
    ∧ PyStr.suffixed "P" 1 = "P (1)" ∧ PyStr.suffixed "P" 2 = "P (2)".
Proof.
  intros P names.
  destruct (available_name_least (projects w) P) as (i & Hname & Hfree & Hbelow).
  fold names in Hfree, Hbelow.
  exists i. split; [done|]. split; [done|]. split; [done|].
  assert (∀ j, candidate P j ∉ names → (∀ j', (j' < j)%nat → candidate P j' ∈ names) →
               i = j) as Hleast.
  { intros j Hj Hjbelow.
    destruct (Nat.lt_trichotomy i j) as [Hlt|[->|Hgt]]; [|done|].
    - by destruct Hfree; apply Hjbelow.
    - by destruct Hj; apply Hbelow. }
  split; [|split; [|split; [|split]]].
  - intros H0. rewrite (Hleast 0%nat); [done|done|]. intros j' ?. lia.
  - intros H0 H1. rewrite (Hleast 1%nat); [done|done|].
    intros j' ?. by assert (j' = 0%nat) as -> by lia.
  - intros H0 H1 H2. rewrite (Hleast 2%nat); [done|done|].
    intros j' ?. assert (j' = 0 ∨ j' = 1)%nat as [-> | ->] by lia; done.
  - by apply import_project_outcome.
  - split; by vm_compute.
Qed.

Lemma C5_import_project_smallest_suffix_witness :
  available_name (projects ExC5.w) "P" = Some "P (1)"
  ∧ creates_project false ExC5.s "P (1)" ExC5.w (import_project false ExC5.s ExC5.w)
  ∧ available_name (projects ExC5.w1) "P" = Some "P (2)".
Proof.
  destruct (C5_import_project_smallest_suffix false ExC5.s ExC5.w)
    as (i & Ha & _ & _ & _ & H1 & _ & Hc & _).
  destruct (C5_import_project_smallest_suffix false ExC5.s ExC5.w1)
    as (i' & Ha' & _ & _ & _ & _ & H2 & _).
  rewrite H1 in Ha; [| by_compute .. ].
  rewrite H1 in Hc; [| by_compute .. ].
  rewrite H2 in Ha'; [| by_compute .. ].
  split; [exact Ha|]. split; [exact Hc|exact Ha'].
Defined.

(** ** C9: the order of the calls that create an ontology *)

Section create.
Variable with_original_date : bool.

Lemma create_term_runs x w :
  (∃ ontology,
     id_mapping w !! term_ontology x = Some ontology
     ∧ create_term with_original_date x w
       = (set_id_mapping (λ d, dict_set d (term_id x) (next_id w))
            (server (SaveTerm (new_term with_original_date x ontology (next_id w)))
               w),
          Return tt))
  ∨ (id_mapping w !! term_ontology x = None
     ∧ create_term with_original_date x w
       = (w, Raise (KeyError (term_ontology x)))).
Proof.
  unfold create_term, bind, lookup_id, dict_get.
  destruct (id_mapping w !! term_ontology x) as [ontology|]; [left|right]; eauto.
Qed.



(** [import_ontology] when no ontology is reused. *)
Lemma import_ontology_creates s w name u :
  ontology_resolve (ontologies w) (terms w) (snap_terms s)
    (PyStr.strip (ontology_name (snap_ontology s))) = Some (name, None) →
  id_mapping w !! ontology_user (snap_ontology s) = Some u →
  import_ontology with_original_date s w
  = match for_each (snap_terms s) (create_term with_original_date)
            (ontology_saved with_original_date s name u w) with
    | (wA, Return _) =>
        match for_each ((λ term, (term_parent term, term_id term)) <$> snap_terms s)
                create_relation wA with
        | (wB, Return _) => connect_as_admin wB
        | (wB, Raise e) => (wB, Raise e)
        end
    | (wA, Raise e) => (wA, Raise e)
    end.
Proof.
  intros Hres Hu. unfold import_ontology.
  unfold bind at 1. unfold get at 1. cbn beta iota zeta. rewrite Hres.
  unfold bind at 1. unfold lookup_id at 1. rewrite (dict_get_Some _ _ _ Hu).
  unfold bind at 1. unfold connect_as at 1. unfold do_call at 1, modify at 1.
  unfold bind at 1. unfold bind at 1. unfold lookup_id at 1.
  change (id_mapping (server (ConnectAs u false) w)) with (id_mapping w).
  rewrite (dict_get_Some _ _ _ Hu).
  unfold bind at 1. unfold fresh_id at 1, gets at 1.
  unfold bind at 1. unfold do_call at 1, modify at 1.
  unfold bind at 1. unfold assign_id at 1, modify at 1.
  fold (ontology_saved with_original_date s name u w).
  unfold bind at 1.
  destruct (for_each (snap_terms s) _ _) as [wA [[]|e]]; [|done].
  destruct (for_each _ create_relation wA) as [wB [[]|e]]; done.
Qed.

End create.



(** ** Whitespace and the names that the ontology search compares *)

Lemma string_app_assoc (s t u : string) : (s +:+ t) +:+ u = s +:+ (t +:+ u).
Proof.
  induction s as [|a s IH]; [done|].
  change (String a ((s +:+ t) +:+ u) = String a (s +:+ (t +:+ u))). by f_equal.
Qed.

Lemma rstrip_length s : (String.length (PyStr.rstrip s) ≤ String.length s)%nat.
Proof.
  induction s as [|a s IH]; simpl; [done|].
  destruct (PyStr.rstrip s); [destruct (PyStr.isspace a)|]; simpl in *; lia.
Qed.

(** A string that ends with a character that is no whitespace is its own
    [rstrip]. *)
Lemma rstrip_app_nonspace s c :
  PyStr.isspace c = false →
  PyStr.rstrip (s +:+ String c EmptyString) = s +:+ String c EmptyString.
Proof.
  intros Hc. induction s as [|a s IH]; simpl.
  - by rewrite Hc.
  - rewrite IH. by destruct s.
Qed.

Lemma lstrip_app s t :
  PyStr.lstrip (s +:+ t)
  = match PyStr.lstrip s with
    | EmptyString => PyStr.lstrip t
    | String a r => String a r +:+ t
    end.
Proof.
  induction s as [|a s IH]; simpl; [done|].
  destruct (PyStr.isspace a); [apply IH|done].
Qed.

Lemma strip_suffixed name i :
  PyStr.strip (PyStr.suffixed name i) = stripped_stem name +:+ pretty i +:+ ")".
Proof.
  unfold PyStr.strip, PyStr.suffixed, stripped_stem.
  rewrite lstrip_app.
  destruct (PyStr.lstrip name) as [|a r].
  - change (PyStr.lstrip (" (" +:+ pretty i +:+ ")")) with ("(" +:+ pretty i +:+ ")").
    rewrite <- (string_app_assoc "(" (pretty i) ")").
    by apply rstrip_app_nonspace.
  - rewrite <- (string_app_assoc (String a r +:+ " (") (pretty i) ")").
    rewrite <- (string_app_assoc (String a r) " (" (pretty i +:+ ")")).
    rewrite <- (string_app_assoc (String a r +:+ " (") (pretty i) ")").
    by apply rstrip_app_nonspace.
Qed.

Global Instance key_inj name : Inj (=) (=) (key name).
Proof.
  assert (∀ i, (String.length (key name 0) < String.length (key name (S i)))%nat)
    as Hlen.
  { intros i. unfold key. simpl candidate. rewrite strip_suffixed.
    unfold PyStr.strip, stripped_stem.
    pose proof (rstrip_length (PyStr.lstrip name)) as Hr.
    destruct (PyStr.lstrip name) as [|a r].
    - simpl. lia.
    - rewrite !string_length_app.
      change (String.length " (") with 2%nat. change (String.length ")") with 1%nat.
      lia. }
  intros [|i] [|j] H.
  - done.
  - specialize (Hlen j). rewrite H in Hlen. lia.
  - specialize (Hlen i). rewrite H in Hlen. lia.
  - unfold key in H. simpl candidate in H. rewrite !strip_suffixed in H.
    apply (inj (String.app _)) in H. apply string_app_inj_r in H.
    by apply (inj pretty) in H.
Qed.

(** ** The search for an ontology to reuse *)

Lemma filter_length_0 {A} (P : A → Prop) `{∀ x, Decision (P x)} (l : list A) :
  (length (filter P l) =? 0)%nat = bool_decide (Forall (λ x, ¬ P x) l).
Proof.
  induction l as [|x l IH]; [done|].
  rewrite filter_cons. destruct (decide (P x)) as [HP|HP]; simpl.
  - symmetry. apply bool_decide_eq_false_2. intros HF.
    by apply Forall_cons in HF as [? _].
  - rewrite IH. apply bool_decide_ext. rewrite Forall_cons. tauto.
Qed.

Lemma ontology_exists_spec os ts rts name :
  ontology_exists os ts rts name
  = match first_named os (PyStr.strip name) with
    | None => (true, None)
    | Some o => if decide (covers ts o rts) then (true, Some o) else (false, None)
    end.
Proof.
  unfold ontology_exists, first_named.
  destruct (find_first _) as [o|]; [|done].
  rewrite filter_length_0. fold (pairs_of ts (ontology_id o)).
  destruct (decide (covers ts o rts)) as [Hc|Hc].
  - rewrite bool_decide_eq_true_2; [done|].
    unfold covers in Hc. eapply Forall_impl; [exact Hc|]. intros t Ht Hn. done.
  - rewrite bool_decide_eq_false_2; [done|].
    intros HF. apply Hc. unfold covers. eapply Forall_impl; [exact HF|].
    intros t Ht. simpl in Ht. by apply dec_stable.
Qed.

Lemma first_named_None os name :
  name ∉ (ontology_name <$> os) → first_named os name = None.
Proof.
  intros Hn. unfold first_named.
  destruct (filter _ os) as [|o l] eqn:E; [done|].
  assert (o ∈ filter (λ o, ontology_name o = name) os) as Ho by (rewrite E; left).
  apply list_elem_of_filter in Ho as [Hname Hin].
  destruct Hn. rewrite <- Hname. by apply list_elem_of_fmap_2.
Qed.

Section resolve.
Variable os : list Ontology.
Variable ts rts : list Term.
Variable N : string.

Lemma ontology_probe_finds fuel : ∀ i,
  (∃ i', (i ≤ i' < i + fuel)%nat ∧ found_at os ts rts N (S i') = true) →
  ∃ i', (i ≤ i' < i + fuel)%nat
        ∧ ontology_probe os ts rts N fuel (S i)
          = Some (candidate N (S i'), existing_at os ts rts N (S i'))
        ∧ found_at os ts rts N (S i') = true
        ∧ ∀ j, (i ≤ j < i')%nat → found_at os ts rts N (S j) = false.
Proof.
  induction fuel as [|fuel IH]; intros i (i' & Hi' & Hfound); [lia|].
  - simpl.
    destruct (ontology_exists os ts rts (PyStr.suffixed N (S i)))
      as [[] ex] eqn:E.
    + exists i. split; [lia|].
      unfold found_at, existing_at. simpl candidate. rewrite E.
      split; [done|]. split; [done|]. intros j Hj. lia.
    + destruct (IH (S i)) as (i'' & Hi'' & Hp & Hf & Hbelow).
      { exists i'. split; [|done].
        destruct (decide (i' = i)) as [->|]; [|lia].
        unfold found_at in Hfound. simpl candidate in Hfound.
        rewrite E in Hfound. done. }
      exists i''. split; [lia|]. split; [done|]. split; [done|].
      intros j Hj. destruct (decide (j = i)) as [->|]; [|apply Hbelow; lia].
      unfold found_at. simpl candidate. by rewrite E.
Qed.

(** One more name than there are ontologies is never needed. *)
Lemma found_within : ∃ i, (i ≤ length os)%nat ∧ found_at os ts rts N i = true.
Proof.
  destruct (one_is_free (key N) (ontology_name <$> os)) as (i & Hi & Hfree);
    [apply _|].
  rewrite length_fmap in Hi. exists i. split; [done|].
  unfold found_at. rewrite ontology_exists_spec.
  fold (key N i). by rewrite (first_named_None _ _ Hfree).
Qed.

(** The search stops at the first candidate at which [ontology_exists]
    answers [True]. *)
Lemma ontology_resolve_least :
  ∃ i, (i ≤ length os)%nat
       ∧ ontology_resolve os ts rts N = Some (candidate N i, existing_at os ts rts N i)
       ∧ found_at os ts rts N i = true
       ∧ ∀ j, (j < i)%nat → found_at os ts rts N j = false.
Proof.
  unfold ontology_resolve.
  destruct (ontology_exists os ts rts N) as [[] ex] eqn:E.
  - exists 0%nat. unfold found_at, existing_at. simpl candidate. rewrite E.
    split; [lia|]. split; [done|]. split; [done|]. intros j Hj. lia.
  - destruct found_within as (i0 & Hi0 & Hf0).
    destruct i0 as [|i0];
      [unfold found_at in Hf0; simpl candidate in Hf0; by rewrite E in Hf0|].
    destruct (ontology_probe_finds (length os) 0) as (i & Hi & Hp & Hf & Hbelow).
    { exists i0. split; [lia|done]. }
    exists (S i). split; [lia|]. split; [done|]. split; [done|].
    intros [|j] Hj; [|apply Hbelow; lia].
    unfold found_at. simpl candidate. by rewrite E.
Qed.

Lemma ontology_resolve_at i :
  found_at os ts rts N i = true → (∀ j, (j < i)%nat → found_at os ts rts N j = false) →
  ontology_resolve os ts rts N = Some (candidate N i, existing_at os ts rts N i).
Proof.
  intros Hf Hbelow.
  destruct ontology_resolve_least as (i' & _ & Hres & Hf' & Hbelow').
  destruct (Nat.lt_trichotomy i i') as [Hlt|[->|Hgt]]; [|done|].
  - rewrite (Hbelow' i Hlt) in Hf. done.
  - rewrite (Hbelow i' Hgt) in Hf'. done.
Qed.

End resolve.

(** The loop [while not found] of [import_ontology] ends. *)
Lemma ontology_resolve_total os ts rts N : is_Some (ontology_resolve os ts rts N).
Proof. destruct (ontology_resolve_least os ts rts N) as (i & _ & -> & _). eauto. Qed.

Lemma available_name_total projects name : is_Some (available_name projects name).
Proof. destruct (available_name_least projects name) as (i & -> & _). eauto. Qed.

(** ** C1: when an ontology is reused *)

(** C1.  The documentation of [import_ontology] has it use an existing
    ontology of the same name and the same terms, and create one otherwise.
    In the first target the ontology "O" has the pair (b, blue) that the
    snapshot does not have: the terms are not the same, and the ontology is
    reused all the same: [import_ontology] maps the snapshot's ontology 30
    and its term 31 to it and creates nothing.  In the second target an
    ontology "O" has exactly the pairs of the snapshot, but it is not the
    first one named "O": nothing is reused and the name "O (1)" is
    taken. *)
Lemma C1_reuse_at_failing_input :
  (reused ExC1.os1 ExC1.ts1 ExC1.rts "O" = Some (mkOntology 1 "O" 9 None None)
   ∧ ¬ spec_reuse_condition ExC1.os1 ExC1.ts1 ExC1.rts "O"
   ∧ (import_ontology false ExC1w.s ExC1w.w).2 = Return tt
   ∧ id_mapping (import_ontology false ExC1w.s ExC1w.w).1 !! 30%Z = Some 1%Z
   ∧ id_mapping (import_ontology false ExC1w.s ExC1w.w).1 !! 31%Z = Some 11%Z
   ∧ ontologies (import_ontology false ExC1w.s ExC1w.w).1 = ExC1.os1
   ∧ terms (import_ontology false ExC1w.s ExC1w.w).1 = ExC1.ts1
   ∧ calls (import_ontology false ExC1w.s ExC1w.w).1
     = [ConnectAs 2 false; ConnectAs 1 true])
  ∧ (reused ExC1.os2 ExC1.ts2 ExC1.rts "O" = None
     ∧ ontology_resolve ExC1.os2 ExC1.ts2 ExC1.rts "O" = Some ("O (1)", None)
     ∧ spec_reuse_condition ExC1.os2 ExC1.ts2 ExC1.rts "O").
Proof.
  split; [|split; [by vm_compute|split; [by vm_compute|by_compute]]].
  split; [by vm_compute|]. split; [by_compute|].
  repeat split; by vm_compute.
Qed.

Lemma set_id_mapping_same w : set_id_mapping (λ _, id_mapping w) w = w.
Proof. by destruct w. Qed.

Lemma link_terms_run ontology_terms (l : list Term) : ∀ w,
  NoDup (term_id <$> l) →
  Forall (λ t, is_Some (linked_term ontology_terms t)) l →
  ∃ d', for_each l (link_term ontology_terms) w
        = (set_id_mapping (λ _, d') w, Return tt)
        ∧ (∀ t, t ∈ l →
             ∃ t', linked_term ontology_terms t = Some t'
                   ∧ d' !! term_id t = Some (term_id t'))
        ∧ (∀ k, k ∉ term_id <$> l → d' !! k = id_mapping w !! k).
Proof.
  induction l as [|x l IH]; intros w Hnd Hall.
  - exists (id_mapping w). simpl. rewrite set_id_mapping_same.
    split; [done|]. split; [|done]. intros t Ht. by apply elem_of_nil in Ht.
  - rewrite fmap_cons in Hnd. apply NoDup_cons in Hnd as [Hx Hnd].
    apply Forall_cons in Hall as [[t' Ht'] Hall].
    simpl. unfold bind at 1. unfold link_term at 1.
    fold (linked_term ontology_terms x). rewrite Ht'.
    unfold assign_id, modify.
    destruct (IH (set_id_mapping (λ d, dict_set d (term_id x) (term_id t')) w)
                Hnd Hall) as (d' & -> & Hl & Hother).
    exists d'. split; [done|]. split.
    + intros t [->|Ht]%elem_of_cons; [|by apply Hl].
      exists t'. split; [done|]. rewrite (Hother _ Hx). simpl.
      unfold dict_set. apply lookup_insert_eq.
    + intros k Hk. rewrite ?fmap_cons in Hk.
      apply not_elem_of_cons in Hk as [Hne Hk].
      rewrite (Hother _ Hk). simpl. unfold dict_set. by apply lookup_insert_ne.
Qed.

Lemma covers_linked ts o rts :
  covers ts o rts →
  Forall (λ t, is_Some (linked_term
                          (filter (λ t', term_ontology t' = ontology_id o) ts) t))
    rts.
Proof.
  unfold covers. intros Hc. eapply Forall_impl; [exact Hc|]. intros t Ht.
  simpl in Ht. unfold pairs_of in Ht. apply elem_of_list_to_set in Ht.
  apply list_elem_of_fmap in Ht as (t' & Hpair & Hin).
  unfold linked_term.
  destruct (filter (λ t0, term_name t0 = term_name t) _) as [|t0 l0] eqn:E; [|by eexists].
  assert (t' ∈ filter (λ t0, term_name t0 = term_name t)
                 (filter (λ t'0, term_ontology t'0 = ontology_id o) ts)) as Hf.
  { apply list_elem_of_filter. split; [|done].
    unfold term_pair in Hpair. congruence. }
  rewrite E in Hf. by apply elem_of_nil in Hf.
Qed.

Section reuse.
Variable with_original_date : bool.

(** [import_ontology] when the ontology [o] is reused. *)
Lemma import_ontology_reuses s w name o u :
  ontology_resolve (ontologies w) (terms w) (snap_terms s)
    (PyStr.strip (ontology_name (snap_ontology s))) = Some (name, Some o) →
  id_mapping w !! ontology_user (snap_ontology s) = Some u →
  import_ontology with_original_date s w
  = match for_each (snap_terms s)
            (link_term (filter (λ t, term_ontology t = ontology_id o) (terms w)))
            (set_id_mapping
               (λ d, dict_set d (ontology_id (snap_ontology s)) (ontology_id o))
               (server (ConnectAs u false) w)) with
    | (wA, Return _) => connect_as_admin wA
    | (wA, Raise e) => (wA, Raise e)
    end.
Proof.
  intros Hres Hu. unfold import_ontology.
  unfold bind at 1. unfold get at 1. cbn beta iota zeta. rewrite Hres.
  unfold bind at 1. unfold lookup_id at 1. rewrite (dict_get_Some _ _ _ Hu).
  unfold bind at 1. unfold connect_as at 1. unfold do_call at 1, modify at 1.
  unfold bind at 1. unfold bind at 1. unfold assign_id at 1, modify at 1.
  destruct (for_each (snap_terms s) _ _) as [wA [[]|e]]; done.
Qed.

Lemma import_ontology_reuse_outcome s w name o u :
  ontology_resolve (ontologies w) (terms w) (snap_terms s)
    (PyStr.strip (ontology_name (snap_ontology s))) = Some (name, Some o) →
  id_mapping w !! ontology_user (snap_ontology s) = Some u →
  covers (terms w) o (snap_terms s) →
  NoDup (term_id <$> snap_terms s) →
  ∃ d', import_ontology with_original_date s w
        = (set_id_mapping (λ _, d')
             (serve_all [ConnectAs u false; ConnectAs (super_admin w) true] w),
           Return tt)
        ∧ (∀ t, t ∈ snap_terms s →
             ∃ t', linked_term
                     (filter (λ t', term_ontology t' = ontology_id o) (terms w)) t
                   = Some t'
                   ∧ d' !! term_id t = Some (term_id t'))
        ∧ (ontology_id (snap_ontology s) ∉ term_id <$> snap_terms s →
           d' !! ontology_id (snap_ontology s) = Some (ontology_id o))
        ∧ (∀ k, k ∉ term_id <$> snap_terms s →
                k ≠ ontology_id (snap_ontology s) →
                d' !! k = id_mapping w !! k).
Proof.
  intros Hres Hu Hcov Hnd.
  rewrite (import_ontology_reuses _ _ _ _ _ Hres Hu).
  destruct (link_terms_run
              (filter (λ t, term_ontology t = ontology_id o) (terms w))
              (snap_terms s)
              (set_id_mapping
                 (λ d, dict_set d (ontology_id (snap_ontology s)) (ontology_id o))
                 (server (ConnectAs u false) w))
              Hnd (covers_linked _ _ _ Hcov)) as (d' & -> & Hl & Hother).
  exists d'. split; [done|]. split; [done|]. split.
  - intros Hk. rewrite (Hother _ Hk). simpl. unfold dict_set.
    apply lookup_insert_eq.
  - intros k Hk Hne. rewrite (Hother _ Hk). simpl. unfold dict_set.
    by apply lookup_insert_ne.
Qed.

End reuse.

Lemma found_at_false os ts rts N j :
  found_at os ts rts N j = false →
  ∃ o', first_named os (key N j) = Some o' ∧ ¬ covers ts o' rts.
Proof.
  unfold found_at. rewrite ontology_exists_spec. fold (key N j).
  destruct (first_named os (key N j)) as [o'|]; [|done].
  destruct (decide (covers ts o' rts)); [done|]. eauto.
Qed.

Lemma found_at_true os ts rts N i :
  found_at os ts rts N i = true →
  match first_named os (key N i) with
  | None => existing_at os ts rts N i = None
  | Some o => covers ts o rts ∧ existing_at os ts rts N i = Some o
  end.
Proof.
  unfold found_at, existing_at. rewrite ontology_exists_spec. fold (key N i).
  destruct (first_named os (key N i)) as [o|]; [|done].
  destruct (decide (covers ts o rts)); done.
Qed.

(** The reuse of an ontology, as [import_ontology] decides it.
    [import_ontology] tries the names ["N"], ["N (1)"],
    ["N (2)"], ... in turn, [N] being the stripped name of the snapshot's
    ontology, and stops at the first one at which either no ontology of the
    target bears the (stripped) name, or the first ontology that bears it
    has every (term name, term color) pair of the snapshot among the pairs
    of its terms.  It reuses that ontology in the second case, and only
    then.  When it reuses (the creator of the snapshot's ontology being
    mapped and the snapshot's terms having different identifiers), every
    snapshot term is mapped to the first term of the reused ontology that
    has its name, the only calls issued are the two changes of user, and no
    ontology nor term is created. *)
Theorem import_ontology_reuses_first_covering_candidate
    (with_original_date : bool) (s : Snapshot) (w : World) :
  let N := PyStr.strip (ontology_name (snap_ontology s)) in
  let os := ontologies w in
  let ts := terms w in
  let rts := snap_terms s in
  let r := import_ontology with_original_date s w in
  ∃ i,
    ontology_resolve os ts rts N = Some (candidate N i, reused os ts rts N)
    ∧ (∀ j, (j < i)%nat →
         ∃ o', first_named os (key N j) = Some o' ∧ ¬ covers ts o' rts)
    ∧ match first_named os (key N i) with
      | None => reused os ts rts N = None
      | Some o => covers ts o rts ∧ reused os ts rts N = Some o
      end
    ∧ (∀ o u,
         reused os ts rts N = Some o →
         id_mapping w !! ontology_user (snap_ontology s) = Some u →
         NoDup (term_id <$> rts) →
         r.2 = Return tt
         ∧ (∀ t, t ∈ rts →
              ∃ t', linked_term
                      (filter (λ t', term_ontology t' = ontology_id o) ts) t
                    = Some t'
                    ∧ id_mapping r.1 !! term_id t = Some (term_id t'))
         ∧ (ontology_id (snap_ontology s) ∉ term_id <$> rts →
            id_mapping r.1 !! ontology_id (snap_ontology s) = Some (ontology_id o))
         ∧ ontologies r.1 = os ∧ terms r.1 = ts ∧ next_id r.1 = next_id w
         ∧ calls r.1
           = calls w ++ [ConnectAs u false; ConnectAs (super_admin w) true]).
Proof.
  intros N os ts rts r.
  destruct (ontology_resolve_least os ts rts N) as (i & _ & Hres & Hf & Hbelow).
  assert (reused os ts rts N = existing_at os ts rts N i) as Hreused.
  { unfold reused. rewrite Hres. by destruct (existing_at os ts rts N i). }
  exists i. split; [by rewrite Hreused|].
  split; [intros j Hj; by apply found_at_false, Hbelow|].
  pose proof (found_at_true _ _ _ _ _ Hf) as Hat.
  split; [rewrite Hreused; exact Hat|].
  intros o u Ho Hu Hnd. rewrite Hreused in Ho.
  assert (covers ts o rts) as Hcov.
  { destruct (first_named os (key N i)) as [o'|]; [|congruence].
    destruct Hat as [Hcov Heq]. congruence. }
  rewrite Ho in Hres.
  destruct (import_ontology_reuse_outcome with_original_date s w _ o u
              Hres Hu Hcov Hnd) as (d' & Himp & Hl & Hont & _).
  unfold r. rewrite Himp. simpl.
  split; [done|]. split; [done|]. split; [done|].
  by rewrite <- app_assoc.
Qed.

Lemma import_ontology_reuses_first_covering_candidate_witness :
  (import_ontology false ExC1w.s ExC1w.w).2 = Return tt
  ∧ id_mapping (import_ontology false ExC1w.s ExC1w.w).1 !! 30%Z = Some 1%Z
  ∧ calls (import_ontology false ExC1w.s ExC1w.w).1
    = [ConnectAs 2 false; ConnectAs 1 true].
Proof.
  destruct (import_ontology_reuses_first_covering_candidate false ExC1w.s ExC1w.w)
    as (i & _ & _ & _ & H).
  destruct (H (mkOntology 1 "O" 9 None None) 2%Z) as (H1 & _ & H2 & _ & _ & _ & H3).
  - by vm_compute.
  - reflexivity.
  - by_compute.
  - split; [exact H1|]. split; [|exact H3].
    apply H2. by_compute.
Defined.

(** ** C8: importing the same ontology a second time *)

Lemma lstrip_head s :
  match PyStr.lstrip s with
  | EmptyString => True
  | String a _ => PyStr.isspace a = false
  end.
Proof.
  induction s as [|a s IH]; simpl; [done|].
  destruct (PyStr.isspace a) eqn:E; [exact IH|exact E].
Qed.

Lemma rstrip_head a s :
  PyStr.isspace a = false → ∃ r, PyStr.rstrip (String a s) = String a r.
Proof.
  intros Ha. simpl. destruct (PyStr.rstrip s); [rewrite Ha|]; eauto.
Qed.

Lemma rstrip_idem s : PyStr.rstrip (PyStr.rstrip s) = PyStr.rstrip s.
Proof.
  induction s as [|a s IH]; [done|]. simpl.
  destruct (PyStr.rstrip s) as [|b r] eqn:E.
  - destruct (PyStr.isspace a) eqn:Ha; [done|]. simpl. by rewrite Ha.
  - change (PyStr.rstrip (String a (String b r)))
      with (match PyStr.rstrip (String b r) with
            | EmptyString =>
                if PyStr.isspace a then EmptyString else String a EmptyString
            | r' => String a r'
            end).
    by rewrite IH.
Qed.

(** A stripped name is empty or starts with a character that is no
    whitespace. *)
Lemma strip_head s :
  match PyStr.strip s with
  | EmptyString => True
  | String a _ => PyStr.isspace a = false
  end.
Proof.
  unfold PyStr.strip. pose proof (lstrip_head s) as H.
  destruct (PyStr.lstrip s) as [|a r]; [done|].
  destruct (rstrip_head a r H) as [r' ->]. done.
Qed.

Lemma lstrip_strip s : PyStr.lstrip (PyStr.strip s) = PyStr.strip s.
Proof.
  pose proof (strip_head s) as H.
  destruct (PyStr.strip s) as [|a r]; [done|]. simpl. by rewrite H.
Qed.

Lemma strip_idem s : PyStr.strip (PyStr.strip s) = PyStr.strip s.
Proof.
  unfold PyStr.strip at 1. rewrite lstrip_strip.
  unfold PyStr.strip. apply rstrip_idem.
Qed.

(** The candidates of a stripped name that is not empty are compared as
    they are. *)
Lemma key_strip_nonempty raw i :
  PyStr.strip raw ≠ EmptyString →
  key (PyStr.strip raw) i = candidate (PyStr.strip raw) i.
Proof.
  intros Hne. unfold key. destruct i as [|i]; simpl candidate.
  - apply strip_idem.
  - rewrite strip_suffixed. unfold stripped_stem. rewrite lstrip_strip.
    unfold PyStr.suffixed.
    destruct (PyStr.strip raw) as [|a r]; [done|].
    by rewrite !string_app_assoc.
Qed.

Global Instance same_catalog_preorder : PreOrder same_catalog.
Proof.
  split.
  - by intros w.
  - intros w1 w2 w3 (? & ? & ?) (? & ? & ?). unfold same_catalog. split_and!; congruence.
Qed.

Lemma same_catalog_create_relations l :
  stable same_catalog (for_each l create_relation).
Proof.
  apply (stable_for_each same_catalog). intros [parent child].
  unfold create_relation. destruct (truthy parent); [|apply (stable_ret same_catalog)].
  apply (stable_bind same_catalog); [by intros w|]. intros p.
  apply (stable_bind same_catalog); [by intros w|]. intros c.
  by intros w.
Qed.

Section create_world.
Variable with_original_date : bool.

(** The terms of a well-formed snapshot are all created, for the new
    ontology. *)
Lemma create_terms_world (oid otarget : Z) (l : list Term) : ∀ w,
  id_mapping w !! oid = Some otarget →
  oid ∉ term_id <$> l →
  (∀ t, t ∈ l → term_ontology t = oid) →
  ∃ w' saved,
    for_each l (create_term with_original_date) w = (w', Return tt)
    ∧ terms w' = terms w ++ saved
    ∧ ontologies w' = ontologies w
    ∧ super_admin w' = super_admin w
    ∧ term_pair <$> saved = term_pair <$> l
    ∧ Forall (λ t, term_ontology t = otarget) saved.
Proof.
  induction l as [|x l IH]; intros w Ho Hfresh Hall.
  - exists w, []. simpl. by rewrite app_nil_r.
  - rewrite fmap_cons in Hfresh. apply not_elem_of_cons in Hfresh as [Hne Hfresh].
    simpl. unfold bind.
    destruct (create_term_runs with_original_date x w)
      as [(ontology & Hx & ->)|[Hx _]];
      [|rewrite (Hall x) in Hx by left; congruence].
    rewrite (Hall x) in Hx by left.
    assert (ontology = otarget) as -> by congruence.
    set (nt := new_term with_original_date x otarget (next_id w)).
    set (w2 := set_id_mapping _ _).
    destruct (IH w2) as (w' & saved & -> & Ht & Hos & Hadm & Hpairs & Hsaved).
    { unfold w2. simpl. unfold dict_set. by rewrite lookup_insert_ne. }
    { done. }
    { intros t Ht. apply Hall. by right. }
    exists w', (nt :: saved).
    split; [done|]. split; [rewrite Ht; unfold w2; simpl; by rewrite <- app_assoc|].
    split; [done|]. split; [done|].
    split; [rewrite !fmap_cons, Hpairs; done|]. by constructor.
Qed.

End create_world.

Lemma filter_all {A} (P : A → Prop) `{∀ x, Decision (P x)} (l : list A) :
  Forall P l → filter P l = l.
Proof.
  induction 1 as [|x l Hx _ IH]; [done|].
  rewrite filter_cons, decide_True by done. by rewrite IH.
Qed.

Lemma filter_none {A} (P : A → Prop) `{∀ x, Decision (P x)} (l : list A) :
  Forall (λ x, ¬ P x) l → filter P l = [].
Proof.
  induction 1 as [|x l Hx _ IH]; [done|].
  by rewrite filter_cons, decide_False.
Qed.

Lemma first_named_app_Some os o o_new name :
  first_named os name = Some o → first_named (os ++ [o_new]) name = Some o.
Proof.
  unfold first_named. rewrite filter_app. by destruct (filter _ os).
Qed.

Lemma first_named_app_None os o_new name :
  first_named os name = None → ontology_name o_new = name →
  first_named (os ++ [o_new]) name = Some o_new.
Proof.
  unfold first_named. rewrite filter_app. intros Hn Ho.
  destruct (filter _ os); [|done]. simpl.
  rewrite filter_cons, decide_True by done. done.
Qed.

Lemma first_named_elem os name o :
  first_named os name = Some o → o ∈ os ∧ ontology_name o = name.
Proof.
  unfold first_named. intros H.
  destruct (filter _ os) as [|o' l] eqn:E; [done|]. injection H as ->.
  assert (o ∈ filter (λ o, ontology_name o = name) os) as Ho by (rewrite E; left).
  apply list_elem_of_filter in Ho. tauto.
Qed.

Lemma pairs_of_app ts saved o :
  pairs_of (ts ++ saved) o = pairs_of ts o ∪ pairs_of saved o.
Proof.
  unfold pairs_of. by rewrite filter_app, fmap_app, list_to_set_app_L.
Qed.

Lemma pairs_of_other saved o otarget :
  Forall (λ t, term_ontology t = otarget) saved → o ≠ otarget →
  pairs_of saved o = ∅.
Proof.
  intros Hs Hne. unfold pairs_of. rewrite filter_none; [done|].
  eapply Forall_impl; [exact Hs|]. simpl. congruence.
Qed.

Lemma pairs_of_own saved otarget :
  Forall (λ t, term_ontology t = otarget) saved →
  pairs_of saved otarget = list_to_set (term_pair <$> saved).
Proof. intros Hs. unfold pairs_of. by rewrite filter_all. Qed.

Lemma covers_app_other ts saved o otarget rts :
  Forall (λ t, term_ontology t = otarget) saved → ontology_id o ≠ otarget →
  covers (ts ++ saved) o rts ↔ covers ts o rts.
Proof.
  intros Hs Hne. unfold covers.
  rewrite pairs_of_app, (pairs_of_other _ _ _ Hs Hne), (right_id_L ∅ (∪)). done.
Qed.

Lemma covers_app_own ts saved o rts :
  Forall (λ t, term_ontology t = ontology_id o) saved →
  term_pair <$> saved = term_pair <$> rts →
  covers (ts ++ saved) o rts.
Proof.
  intros Hs Hpairs. unfold covers.
  rewrite pairs_of_app, (pairs_of_own _ _ Hs), Hpairs.
  apply Forall_forall. intros t Ht.
  apply elem_of_union_r, elem_of_list_to_set. by apply list_elem_of_fmap_2.
Qed.

Lemma linked_term_elem ontology_terms t t' :
  linked_term ontology_terms t = Some t' →
  t' ∈ ontology_terms ∧ term_name t' = term_name t.
Proof.
  unfold linked_term. intros H.
  destruct (filter _ ontology_terms) as [|t0 l] eqn:E; [done|]. injection H as ->.
  assert (t' ∈ filter (λ t0, term_name t0 = term_name t) ontology_terms) as Ho
    by (rewrite E; left).
  apply list_elem_of_filter in Ho. tauto.
Qed.

(** C8.  Take a snapshot whose terms all belong to its ontology and whose
    identifiers are all different, and a target that gives every new
    ontology an identifier that none of its ontologies and terms refers to
    and that has no ontology with an empty name.  If the first import of the
    ontology creates it (the creator being mapped), it creates one ontology
    and one term per term of the snapshot, in order; the second import of the
    same snapshot then returns, creates no ontology and no term (its only
    calls are the two changes of user), maps the snapshot's ontology to the
    ontology that the first import created and every term of the snapshot to
    a term of the same name that the first import created. *)
Theorem C8_second_import_reuses_first
    (with_original_date : bool) (s : Snapshot) (w : World) (name : string) (u : Z) :
  let ro := snap_ontology s in
  let rts := snap_terms s in
  ontology_resolve (ontologies w) (terms w) rts (PyStr.strip (ontology_name ro))
  = Some (name, None) →
  id_mapping w !! ontology_user ro = Some u →
  (∀ t, t ∈ rts → term_ontology t = ontology_id ro) →
  ontology_id ro ∉ term_id <$> rts →
  NoDup (term_id <$> rts) →
  (∀ o, o ∈ ontologies w → ontology_id o ≠ next_id w) →
  (∀ t, t ∈ terms w → term_ontology t ≠ next_id w) →
  EmptyString ∉ ontology_name <$> ontologies w →
  let r1 := import_ontology with_original_date s w in
  let r2 := import_ontology with_original_date s (second_run w r1.1) in
  ∃ o_new saved,
    ontologies r1.1 = ontologies w ++ [o_new]
    ∧ ontology_id o_new = next_id w ∧ ontology_name o_new = name
    ∧ terms r1.1 = terms w ++ saved
    ∧ term_pair <$> saved = term_pair <$> rts
    ∧ Forall (λ t, term_ontology t = next_id w) saved
    ∧ r2.2 = Return tt
    ∧ ontologies r2.1 = ontologies r1.1
    ∧ terms r2.1 = terms r1.1
    ∧ next_id r2.1 = next_id r1.1
    ∧ calls r2.1 = calls r1.1 ++ [ConnectAs u false; ConnectAs (super_admin w) true]
    ∧ id_mapping r2.1 !! ontology_id ro = Some (ontology_id o_new)
    ∧ (∀ t, t ∈ rts →
         ∃ t', t' ∈ saved ∧ term_name t' = term_name t
               ∧ id_mapping r2.1 !! term_id t = Some (term_id t')).
Proof.
  intros ro rts Hres Hu Hbelong Hoid Hnd Hfresh_o Hfresh_t Hblank r1 r2.
  set (N := PyStr.strip (ontology_name ro)) in *.
  set (os := ontologies w). set (ts := terms w).
  destruct (ontology_resolve_least os ts rts N) as (i & _ & Hres' & Hf & Hbelow).
  unfold os, ts in Hres'. rewrite Hres in Hres'. injection Hres' as Hname Hex.
  (* the first import *)
  set (o_new := mkOntology (next_id w) name u
                  (keep_date with_original_date (ontology_created ro))
                  (keep_date with_original_date (ontology_updated ro))).
  set (w1 := ontology_saved with_original_date s name u w).
  destruct (create_terms_world with_original_date (ontology_id ro) (next_id w)
              rts w1) as (wA & saved & HA & HtA & HoA & HadmA & Hpairs & Hsaved).
  { unfold w1, ontology_saved. simpl. unfold dict_set. apply lookup_insert_eq. }
  { done. }
  { done. }
  assert (same_catalog wA r1.1) as (Hos1 & Hts1 & Hadm1).
  { unfold r1. rewrite (import_ontology_creates _ _ _ _ _ Hres Hu).
    fold w1 rts. rewrite HA.
    pose proof (same_catalog_create_relations
                  ((λ term, (term_parent term, term_id term)) <$> rts) wA) as Hrel.
    destruct (for_each _ create_relation wA) as [wB [[]|e]]; simpl in Hrel; [|done].
    destruct Hrel as (? & ? & ?). unfold same_catalog. simpl. done. }
  assert (ontologies r1.1 = os ++ [o_new]) as Hos by (rewrite Hos1, HoA; done).
  assert (terms r1.1 = ts ++ saved) as Hts by (rewrite Hts1, HtA; done).
  assert (super_admin r1.1 = super_admin w) as Hadm by (rewrite Hadm1, HadmA; done).
  (* the names compared at [i] *)
  assert (key N i = name) as Hkey.
  { rewrite Hname. destruct (decide (N = EmptyString)) as [HN|HN].
    - destruct i as [|i].
      + unfold key. simpl. apply strip_idem.
      + destruct (found_at_false _ _ _ _ _ (Hbelow 0%nat ltac:(lia)))
          as (o' & Ho' & _).
        apply first_named_elem in Ho' as [Hin Hn].
        destruct Hblank. apply list_elem_of_fmap. exists o'. split; [|done].
        rewrite Hn. unfold key. simpl. unfold N. rewrite strip_idem. done.
    - by apply key_strip_nonempty. }
  assert (first_named os (key N i) = None) as Hnone.
  { pose proof (found_at_true _ _ _ _ _ Hf) as Hat.
    destruct (first_named os (key N i)); [|done].
    destruct Hat as [_ Hat]. unfold os, ts in Hat. congruence. }
  (* the search of the second import *)
  set (w2 := second_run w r1.1).
  assert (ontology_resolve (ontologies w2) (terms w2) rts N
          = Some (candidate N i, Some o_new)) as Hres2.
  { change (ontologies w2) with (ontologies r1.1).
    change (terms w2) with (terms r1.1). rewrite Hos, Hts.
    assert (existing_at (os ++ [o_new]) (ts ++ saved) rts N i = Some o_new
            ∧ found_at (os ++ [o_new]) (ts ++ saved) rts N i = true) as [<- Hf2].
    { unfold existing_at, found_at. rewrite ontology_exists_spec. fold (key N i).
      rewrite (first_named_app_None _ o_new _ Hnone) by (by rewrite Hkey).
      rewrite decide_True; [done|]. by apply covers_app_own. }
    apply ontology_resolve_at; [done|].
    intros j Hj.
    destruct (found_at_false _ _ _ _ _ (Hbelow j Hj)) as (o' & Ho' & Hncov).
    unfold found_at. rewrite ontology_exists_spec. fold (key N j).
    rewrite (first_named_app_Some _ _ o_new _ Ho').
    rewrite decide_False; [done|].
    rewrite (covers_app_other _ _ _ (next_id w)); [done|done|].
    apply Hfresh_o. by apply first_named_elem in Ho' as [? _]. }
  (* the second import reuses *)
  destruct (import_ontology_reuse_outcome with_original_date s w2
              (candidate N i) o_new u Hres2 Hu) as (d' & Himp & Hl & Hont & _).
  { change (terms w2) with (terms r1.1). rewrite Hts. by apply covers_app_own. }
  { done. }
  exists o_new, saved.
  split; [done|]. split; [done|]. split; [done|]. split; [done|].
  split; [done|]. split; [done|].
  unfold r2. fold w2. rewrite Himp. simpl.
  split; [done|]. split; [done|]. split; [done|]. split; [done|].
  split; [rewrite Hadm; by rewrite <- app_assoc|].
  split; [by apply Hont|].
  intros t Ht. destruct (Hl t Ht) as (t' & Hlink & Hmap).
  exists t'. split; [|split; [|done]].
  - apply linked_term_elem in Hlink as [Hin _].
    change (terms w2) with (terms r1.1) in Hin. rewrite Hts in Hin.
    apply list_elem_of_filter in Hin as [Hont' Hin].
    apply elem_of_app in Hin as [Hin|Hin]; [|done].
    by destruct (Hfresh_t t' Hin).
  - by apply linked_term_elem in Hlink as [_ ?].
Qed.

Lemma C8_second_import_reuses_first_witness :
  ∃ o_new,
    ontologies ExC8.first.1 = [o_new]
    ∧ ExC8.second.2 = Return tt
    ∧ ontologies ExC8.second.1 = ontologies ExC8.first.1
    ∧ terms ExC8.second.1 = terms ExC8.first.1
    ∧ id_mapping ExC8.second.1 !! 30%Z = Some (ontology_id o_new).
Proof.
  destruct (C8_second_import_reuses_first false ExC9.s ExC9.w "O" 2)
    as (o_new & saved & H1 & _ & _ & _ & _ & _ & H2 & H3 & H4 & _ & _ & H5 & _).
  - reflexivity.
  - reflexivity.
  - apply Forall_forall. by_compute.
  - by_compute.
  - by_compute.
  - intros o Ho. by apply elem_of_nil in Ho.
  - intros t Ht. by apply elem_of_nil in Ht.
  - apply not_elem_of_nil.
  - exists o_new. split; [exact H1|]. split; [exact H2|]. split; [exact H3|].
    split; [exact H4|exact H5].
Defined.

(** * The phases of a run, the files of an export, the exporter

    The users of a run, the session, the images and their names, the
    metadata, the files of an export and the users of the exporter. *)

(** ** Sessions *)

Global Instance emits_preorder P : PreOrder (emits P).
Proof.
  split.
  - intros w. exists []. by rewrite app_nil_r.
  - intros w1 w2 w3 (l1 & E1 & H1) (l2 & E2 & H2). exists (l1 ++ l2).
    split; [by rewrite E2, E1, app_assoc|by apply Forall_app].
Qed.

Global Instance same_admin_preorder : PreOrder same_admin.
Proof. split; [done|]. intros w1 w2 w3. unfold same_admin. congruence. Qed.

Global Instance same_user_preorder : PreOrder same_user.
Proof. split; [done|]. intros w1 w2 w3. unfold same_user. congruence. Qed.

Global Instance same_session_preorder : PreOrder same_session.
Proof.
  split; [done|]. intros w1 w2 w3 [] []. unfold same_session in *.
  split; congruence.
Qed.

(** One step of the search for a proof that a computation is [stable R]:
    the structure of the program decides, [leaf] closes the steps that are
    not composed. *)
Ltac stable_step R leaf :=
  match goal with
  | |- stable _ (bind _ _) => apply (stable_bind R); [|intros ?]
  | |- stable _ (for_each _ _) => apply (stable_for_each R); intros ?
  | |- stable _ (map_each _ _) => apply (stable_map_each R); intros ?
  | |- stable _ (fold_each _ _ _) => apply (stable_fold_each R); intros ? ?
  | |- stable _ (Parallel _ _) => apply (stable_Parallel R); intros ?
  | |- stable _ (ret _) => apply (stable_ret R)
  | |- stable _ (raise _) => apply (stable_raise R)
  | |- stable _ get => apply (stable_get R)
  | |- stable _ (gets _) => apply (stable_gets R)
  | |- stable _ (lookup_id _) => intros ?; reflexivity
  | |- stable _ (match ?x with _ => _ end) => destruct x
  | |- stable _ (let '(_, _) := ?x in _) => destruct x
  | |- stable _ _ => solve [leaf]
  end.

Ltac stable_auto R leaf := repeat stable_step R leaf.

(** A step that is not composed, for the relations on sessions. *)
Ltac session_leaf :=
  intros ?; try split; reflexivity.

(** A step that is not composed, for the calls of a log: what is not a call
    leaves the log as it is. *)
Ltac emits_leaf :=
  intros ?;
  first [ reflexivity
        | solve [ eexists [_]; split; [reflexivity|];
                  apply Forall_singleton; simpl; try done; eauto ]
        | solve [ exists []; split; [symmetry; apply app_nil_r|constructor] ] ].

Lemma stable_wait_images (R : relation World) `{!PreOrder R} :
  (∀ c, stable R (do_call c) ∨ ¬ (is_query c = true ∨ is_sleep c = true)) →
  stable R target_project →
  ∀ expected remaining count n new_images,
    stable R (wait_images expected remaining count n new_images).
Proof.
  intros Hc Ht expected remaining.
  assert (∀ c, is_query c = true ∨ is_sleep c = true → stable R (do_call c))
    as Hc'.
  { intros c Hq. destruct (Hc c) as [|Hn]; [done|]. by destruct Hn. }
  induction remaining as [|r IH]; intros count n new_images; simpl.
  - case_bool_decide; apply (stable_ret R).
  - case_bool_decide; [apply (stable_ret R)|].
    apply (stable_bind R); [done|]. intros project.
    apply (stable_bind R); [apply Hc'; by left|]. intros _.
    apply (stable_bind R); [apply (stable_get R)|]. intros w.
    apply (stable_bind R); [|intros _; apply IH].
    case_bool_decide; [apply Hc'; by right|apply (stable_ret R)].
Qed.

Section sessions.
Variable with_original_date : bool.
Variable host_upload working_path : string.
Variable random_string : User → string.
Variable snapshot : Snapshot.
Context {schedule : Schedule World}.

Lemma same_session_target_project : stable same_session target_project.
Proof. unfold target_project. stable_auto same_session session_leaf. Qed.

Lemma same_session_import_project :
  stable same_session (import_project with_original_date snapshot).
Proof.
  unfold import_project, loop_bound_reached, fresh_id.
  stable_auto same_session session_leaf.
Qed.

Lemma same_session_import_metadata :
  stable same_session (import_metadata working_path snapshot).
Proof.
  unfold import_metadata, import_property, import_attached_file,
    import_description.
  stable_auto same_session session_leaf.
Qed.

Lemma same_session_import_users users l :
  stable same_session (for_each l (import_user with_original_date random_string users)).
Proof.
  unfold import_user, fresh_id. stable_auto same_session session_leaf.
Qed.

Lemma same_session_wait_images expected remaining count n new_images :
  stable same_session (wait_images expected remaining count n new_images).
Proof.
  apply (stable_wait_images same_session).
  - intros c. destruct c; try (right; simpl; intros []; discriminate);
      left; session_leaf.
  - apply same_session_target_project.
Qed.

Lemma same_session_fix_images d new_images :
  stable same_session (fix_images with_original_date d new_images).
Proof.
  unfold fix_images, fix_image. stable_auto same_session session_leaf.
Qed.

Lemma same_admin_connect_as_admin : stable same_admin connect_as_admin.
Proof. unfold connect_as_admin. stable_auto same_admin session_leaf. Qed.

Lemma same_admin_target_project : stable same_admin target_project.
Proof. unfold target_project. stable_auto same_admin session_leaf. Qed.

End sessions.

(** *** What a state is like where a computation returns *)

Lemma bind_returns {S A B} (m : M S A) (k : A → M S B) s s' b :
  bind m k s = (s', Return b) →
  ∃ s1 a, m s = (s1, Return a) ∧ k a s1 = (s', Return b).
Proof.
  unfold bind. destruct (m s) as [s1 [a|e]]; [|done]. intros H. eauto.
Qed.

Lemma with_outcome {S A} (p : S * outcome A) (o : outcome A) :
  p.2 = o → p = (p.1, o).
Proof. destruct p. simpl. by intros ->. Qed.

Lemma returns_bind {S A B} (P Q T : S → Prop) (m : M S A) (k : A → M S B) :
  returns_from P Q m → (∀ a, returns_from Q T (k a)) →
  returns_from P T (bind m k).
Proof.
  intros Hm Hk s s' b HP Hr.
  apply bind_returns in Hr as (s1 & a & H1 & H2).
  eapply Hk; [|exact H2]. eapply Hm; [exact HP|exact H1].
Qed.

Lemma returns_for_each {S A} (P : S → Prop) (l : list A) (body : A → M S unit) :
  (∀ x, returns_from P P (body x)) → returns_from P P (for_each l body).
Proof.
  intros Hb. induction l as [|x l IH]; simpl.
  - intros s s' a HP [= <- _]. done.
  - eapply returns_bind; [apply Hb|]. intros _. exact IH.
Qed.

Lemma returns_fold_each {S A B} (P : S → Prop) (l : list A) (acc : B)
    (body : B → A → M S B) :
  (∀ acc x, returns_from P P (body acc x)) →
  returns_from P P (fold_each l acc body).
Proof.
  intros Hb. revert acc. induction l as [|x l IH]; intros acc; simpl.
  - intros s s' a HP [= <- _]. done.
  - eapply returns_bind; [apply Hb|]. intros acc'. apply IH.
Qed.

Lemma returns_stable {S A} (R : relation S) (P Q : S → Prop) (m : M S A) :
  stable R m → (∀ s s', P s → R s s' → Q s') → returns_from P Q m.
Proof.
  intros Hm HR s s' a HP Hr. eapply HR; [exact HP|].
  specialize (Hm s). by rewrite Hr in Hm.
Qed.

Lemma returns_weaken {S A} (P P' Q Q' : S → Prop) (m : M S A) :
  returns_from P Q m → (∀ s, P' s → P s) → (∀ s, Q s → Q' s) →
  returns_from P' Q' m.
Proof. intros Hm HP HQ s s' a H Hr. eapply HQ, Hm; eauto. Qed.

Lemma admin_connected_is c w : admin_connected c w → admin_is c w.
Proof. by intros []. Qed.

Lemma same_session_keeps {A} c (m : M World A) :
  stable same_session m →
  returns_from (admin_connected c) (admin_connected c) m.
Proof.
  intros Hm. apply (returns_stable same_session); [done|].
  intros s s' [] []. unfold admin_connected. split; congruence.
Qed.

Lemma same_admin_keeps {A} c (m : M World A) :
  stable same_admin m → returns_from (admin_is c) (admin_is c) m.
Proof.
  intros Hm. apply (returns_stable same_admin); [done|].
  intros s s'. unfold admin_is, same_admin. congruence.
Qed.

Lemma connect_as_admin_connects c :
  returns_from (admin_is c) (admin_connected c) connect_as_admin.
Proof. intros s s' a Hc [= <- _]. by split. Qed.

Section restoring.
Variable with_original_date : bool.
Variable host_upload working_path : string.
Variable random_string : User → string.
Variable snapshot : Snapshot.
Context {schedule : Schedule World}.

Lemma import_ontology_restores c :
  returns_from (admin_is c) (admin_connected c)
    (import_ontology with_original_date snapshot).
Proof.
  unfold import_ontology.
  eapply returns_bind; [apply (same_admin_keeps c), (stable_get same_admin)|].
  intros w.
  destruct (ontology_resolve _ _ _ _) as [[name existing]|];
    [|intros s s' a _ [=]].
  eapply returns_bind;
    [apply (same_admin_keeps c); stable_auto same_admin session_leaf|].
  intros user.
  eapply returns_bind;
    [apply (same_admin_keeps c); stable_auto same_admin session_leaf|].
  intros _.
  eapply returns_bind; [|intros _; apply connect_as_admin_connects].
  apply (same_admin_keeps c).
  unfold create_term, create_relation, link_term, fresh_id.
  stable_auto same_admin session_leaf.
Qed.

Lemma submit_image_restores c d i :
  returns_from (admin_is c) (admin_connected c)
    (submit_image host_upload working_path d i).
Proof.
  unfold submit_image.
  eapply returns_bind;
    [apply (same_admin_keeps c); stable_auto same_admin session_leaf|].
  intros user.
  eapply returns_bind;
    [apply (same_admin_keeps c); stable_auto same_admin session_leaf|].
  intros _.
  eapply returns_bind; [apply (same_admin_keeps c), (stable_get same_admin)|].
  intros w.
  eapply returns_bind;
    [apply (same_admin_keeps c); stable_auto same_admin session_leaf|].
  intros storage.
  eapply returns_bind;
    [apply (same_admin_keeps c); unfold target_project;
     stable_auto same_admin session_leaf|].
  intros _.
  eapply returns_bind; [apply connect_as_admin_connects|].
  intros _ s s' a H [= <- _]. done.
Qed.

Lemma import_annotations_of_restores c annots u :
  returns_from (admin_is c) (admin_connected c)
    (import_annotations_of with_original_date annots u).
Proof.
  unfold import_annotations_of.
  eapply returns_bind;
    [apply (same_admin_keeps c); stable_auto same_admin session_leaf|].
  intros user.
  eapply returns_bind;
    [apply (same_admin_keeps c); stable_auto same_admin session_leaf|].
  intros _.
  eapply returns_bind; [|intros _; apply connect_as_admin_connects].
  apply (same_admin_keeps c). unfold _add_annotation.
  stable_auto same_admin session_leaf.
Qed.

Lemma import_images_keeps_admin c :
  returns_from (admin_connected c) (admin_connected c)
    (import_images with_original_date host_upload working_path snapshot).
Proof.
  unfold import_images.
  eapply returns_bind.
  { apply returns_fold_each. intros d i.
    eapply returns_weaken;
      [apply submit_image_restores|apply admin_connected_is|done]. }
  intros d.
  eapply returns_bind;
    [apply same_session_keeps, same_session_wait_images|].
  intros new_images. apply same_session_keeps, same_session_fix_images.
Qed.

Lemma import_annotations_keeps_admin c :
  returns_from (admin_connected c) (admin_connected c)
    (import_annotations with_original_date snapshot).
Proof.
  unfold import_annotations.
  eapply returns_bind;
    [apply same_session_keeps, (stable_get same_session)|].
  intros w. apply returns_for_each. intros u.
  eapply returns_weaken;
    [apply import_annotations_of_restores|apply admin_connected_is|done].
Qed.

End restoring.

(** X1.  A run that returns leaves the client connected as the user who
    started it: the user connected before the run is the administrator the
    importer remembers, and is the connected user again after the last
    phase, whatever users the phases impersonated in between. *)
Theorem run_restores_session {schedule : Schedule World}
    with_original_date host_upload working_path random_string snapshot w w' :
  run with_original_date host_upload working_path random_string snapshot w
  = (w', Return tt) →
  current_user w' = current_user w ∧ super_admin w' = current_user w.
Proof.
  intros Hr. unfold run in Hr.
  apply bind_returns in Hr as (s1 & w0 & [= <- <-] & Hr).
  apply bind_returns in Hr as (s1 & [] & [= <-] & Hr).
  apply bind_returns in Hr as (s2 & [] & H2 & Hr).
  assert (admin_connected (current_user w) s2) as Hs2.
  { eapply (connect_as_admin_connects (current_user w)); [|exact H2]. done. }
  clear H2.
  assert (returns_from (admin_connected (current_user w))
            (admin_connected (current_user w))
            (w <- get ;;
             modify (set_remote_users (snap_users snapshot)) ;;;
             for_each (snap_users snapshot)
               (import_user with_original_date random_string (users w)) ;;;
             import_ontology with_original_date snapshot ;;;
             connect_as_admin ;;;
             import_project with_original_date snapshot ;;;
             import_images with_original_date host_upload working_path snapshot ;;;
             import_annotations with_original_date snapshot ;;;
             import_metadata working_path snapshot)) as Hrest.
  { eapply returns_bind;
      [apply same_session_keeps, (stable_get same_session)|]. intros w1.
    eapply returns_bind;
      [apply same_session_keeps; stable_auto same_session session_leaf|].
    intros _.
    eapply returns_bind;
      [apply same_session_keeps, same_session_import_users|]. intros _.
    eapply returns_bind.
    { eapply returns_weaken;
        [apply import_ontology_restores|apply admin_connected_is|done]. }
    intros _.
    eapply returns_bind.
    { eapply returns_weaken;
        [apply connect_as_admin_connects|apply admin_connected_is|done]. }
    intros _.
    eapply returns_bind;
      [apply same_session_keeps, same_session_import_project|]. intros _.
    eapply returns_bind; [apply import_images_keeps_admin|]. intros _.
    eapply returns_bind; [apply import_annotations_keeps_admin|]. intros _.
    apply same_session_keeps, same_session_import_metadata. }
  destruct (Hrest _ _ _ Hs2 Hr) as [Ha Hc]. split; congruence.
Qed.

Lemma run_restores_session_witness :
  current_user
    (run (schedule := Ex.in_order) false "upload.host" "/tmp/export" (λ _, "secret")
       (ExRun.snapshot [ExRun.annotation 900 [31%Z]]) ExRun.target).1
  = current_user ExRun.target
  ∧ super_admin
      (run (schedule := Ex.in_order) false "upload.host" "/tmp/export" (λ _, "secret")
         (ExRun.snapshot [ExRun.annotation 900 [31%Z]]) ExRun.target).1
    = current_user ExRun.target.
Proof.
  apply (run_restores_session (schedule := Ex.in_order) false "upload.host" "/tmp/export" (λ _, "secret")
           (ExRun.snapshot [ExRun.annotation 900 [31%Z]]) ExRun.target
           (run (schedule := Ex.in_order) false "upload.host" "/tmp/export" (λ _, "secret")
              (ExRun.snapshot [ExRun.annotation 900 [31%Z]]) ExRun.target).1).
  apply with_outcome. vm_compute. reflexivity.
Defined.

Lemma bind_outcome {S A B} (m : M S A) (k : A → M S B) s :
  (∃ s1 a, m s = (s1, Return a) ∧ bind m k s = k a s1)
  ∨ (∃ s1 e, m s = (s1, Raise e) ∧ bind m k s = (s1, Raise e)).
Proof.
  unfold bind. destruct (m s) as [s1 [a|e]]; [left|right]; eauto.
Qed.

Lemma import_ontology_switches with_original_date snapshot w u :
  id_mapping w !! ontology_user (snap_ontology snapshot) = Some u →
  ∃ branch : M World unit,
    stable same_user branch ∧ stable same_admin branch
    ∧ stable (emits (λ c, ∀ v b, c ≠ ConnectAs v b)) branch
    ∧ import_ontology with_original_date snapshot w
      = (branch ;;; connect_as_admin) (server (ConnectAs u false) w).
Proof.
  intros Hu. unfold import_ontology.
  unfold bind at 1, get at 1. cbv beta iota.
  destruct (ontology_resolve_total (ontologies w) (terms w) (snap_terms snapshot)
              (PyStr.strip (ontology_name (snap_ontology snapshot))))
    as [[name existing] Hres].
  rewrite Hres. cbv beta iota.
  unfold bind at 1, lookup_id at 1. rewrite (dict_get_Some _ _ _ Hu).
  cbv beta iota.
  unfold bind at 1, connect_as at 1, do_call at 1, modify at 1. cbv beta iota.
  eexists. split; [|split; [|split; [|reflexivity]]].
  - destruct existing; unfold create_term, create_relation, link_term,
      fresh_id, assign_id; stable_auto same_user session_leaf.
  - destruct existing; unfold create_term, create_relation, link_term,
      fresh_id, assign_id; stable_auto same_admin session_leaf.
  - destruct existing; unfold create_term, create_relation, link_term,
      fresh_id, assign_id;
      stable_auto (emits (λ c, ∀ v b, c ≠ ConnectAs v b)) emits_leaf.
Qed.

(** X2.  When [import_ontology] raises after it has switched to the creator
    of the ontology, the session is not switched back: the connected user
    is the target of the creator, and the switch to the creator is the last
    switch of the log. *)
Theorem import_ontology_raise_leaves_creator with_original_date snapshot w u e :
  id_mapping w !! ontology_user (snap_ontology snapshot) = Some u →
  (import_ontology with_original_date snapshot w).2 = Raise e →
  current_user (import_ontology with_original_date snapshot w).1 = u
  ∧ super_admin (import_ontology with_original_date snapshot w).1 = super_admin w
  ∧ ∃ l, calls (import_ontology with_original_date snapshot w).1
         = calls w ++ ConnectAs u false :: l
         ∧ Forall (λ c, ∀ v b, c ≠ ConnectAs v b) l.
Proof.
  intros Hu Hr.
  destruct (import_ontology_switches with_original_date snapshot w u Hu)
    as (branch & Hb & Ha & He & Heq).
  rewrite Heq in Hr |- *.
  specialize (Hb (server (ConnectAs u false) w)).
  specialize (Ha (server (ConnectAs u false) w)).
  destruct (He (server (ConnectAs u false) w)) as (l & Hl & HP).
  unfold bind in Hr |- *.
  destruct (branch (server (ConnectAs u false) w)) as [w2 [a|e']]; simpl in *.
  - discriminate.
  - split; [exact Hb|]. split; [exact Ha|].
    exists l. split; [|exact HP]. by rewrite Hl, <- app_assoc.
Qed.

Lemma import_ontology_raise_leaves_creator_witness :
  current_user (import_ontology false ExX.s_orphan ExC9.w).1 = 2%Z
  ∧ super_admin (import_ontology false ExX.s_orphan ExC9.w).1
    = super_admin ExC9.w
  ∧ ∃ l, calls (import_ontology false ExX.s_orphan ExC9.w).1
         = calls ExC9.w ++ ConnectAs 2 false :: l
         ∧ Forall (λ c, ∀ v b, c ≠ ConnectAs v b) l.
Proof.
  apply (import_ontology_raise_leaves_creator false ExX.s_orphan ExC9.w 2
           (KeyError 99)); vm_compute; reflexivity.
Defined.

(** ** The users of the snapshot: lines 498-509 of [Importer.run] *)

Section users_phase.
Variable with_original_date : bool.
Variable random_string : User → string.
Variable fetched : list User.

(** One user: the only two ways. *)
Lemma import_user_runs remote_user w :
  import_user with_original_date random_string fetched remote_user w
  = match known_user fetched remote_user with
    | Some user =>
        (set_id_mapping (λ d, dict_set d (user_id remote_user) (user_id user)) w,
         Return tt)
    | None =>
        (set_id_mapping (λ d, dict_set d (user_id remote_user) (next_id w))
           (server
              (SaveUser (new_user with_original_date random_string remote_user
                           (next_id w))) w),
         Return tt)
    end.
Proof.
  unfold import_user, known_user.
  destruct (find_first _) as [user|]; reflexivity.
Qed.

Lemma created_users_cons id u l :
  created_users with_original_date random_string id (u :: l)
  = new_user with_original_date random_string u id
    :: created_users with_original_date random_string (id + 1) l.
Proof.
  unfold created_users. simpl. f_equal; [f_equal; lia|].
  apply imap_ext. intros i x _. simpl. f_equal. lia.
Qed.

Lemma union_singleton_shift (k : Z) (X Y : gset Z) :
  {[k]} ∪ X ∪ Y = X ∪ ({[k]} ∪ Y).
Proof. by rewrite (comm_L (∪) {[k]} X), (assoc_L (∪)). Qed.

Lemma import_users_run l : ∀ w,
  let r := for_each l (import_user with_original_date random_string fetched) w in
  let created :=
    created_users with_original_date random_string (next_id w)
      (unknown_users fetched l) in
  r.2 = Return tt
  ∧ dom (id_mapping r.1) = dom (id_mapping w) ∪ list_to_set (user_id <$> l)
  ∧ (∀ k, k ∉ user_id <$> l → id_mapping r.1 !! k = id_mapping w !! k)
  ∧ calls r.1 = calls w ++ (SaveUser <$> created)
  ∧ users r.1 = users w ++ created
  ∧ next_id r.1 = (next_id w + Z.of_nat (length created))%Z.
Proof.
  induction l as [|u l IH]; intros w; cbv zeta.
  - simpl. rewrite !app_nil_r.
    repeat split; [by rewrite union_empty_r_L|lia].
  - simpl for_each. unfold bind at 1 2 3 4 5 6. rewrite import_user_runs.
    unfold unknown_users. rewrite filter_cons.
    destruct (known_user fetched u) as [t|] eqn:Ek.
    + rewrite decide_False by done.
      set (w1 := set_id_mapping _ w).
      destruct (IH w1) as (Hr & Hd & Hf & Hc & Hu & Hn).
      split; [exact Hr|]. split.
      { rewrite Hd. subst w1. simpl. unfold dict_set.
        rewrite dom_insert_L. apply union_singleton_shift. }
      split.
      { intros k Hk. rewrite fmap_cons in Hk.
        apply not_elem_of_cons in Hk as [Hne Hk].
        rewrite (Hf k Hk). subst w1. simpl. unfold dict_set.
        by rewrite lookup_insert_ne. }
      done.
    + rewrite decide_True by done.
      set (w1 := set_id_mapping _ (server _ w)).
      destruct (IH w1) as (Hr & Hd & Hf & Hc & Hu & Hn).
      unfold unknown_users in Hc, Hu, Hn.
      rewrite created_users_cons.
      assert (next_id w1 = (next_id w + 1)%Z) as Hn1 by done.
      rewrite Hn1 in Hc, Hu, Hn.
      split; [exact Hr|]. split.
      { rewrite Hd. subst w1. simpl. unfold dict_set.
        rewrite dom_insert_L. apply union_singleton_shift. }
      split.
      { intros k Hk. rewrite fmap_cons in Hk.
        apply not_elem_of_cons in Hk as [Hne Hk].
        rewrite (Hf k Hk). subst w1. simpl. unfold dict_set.
        by rewrite lookup_insert_ne. }
      split; [rewrite Hc; subst w1; simpl; by rewrite <- app_assoc|].
      split; [rewrite Hu; subst w1; simpl; by rewrite <- app_assoc|].
      rewrite Hn. cbn [length]. lia.
Qed.

End users_phase.

(** X3.  The loop over the users of the snapshot never raises and maps the
    identifier of every one of them.  It creates one user for each
    snapshot user whose name the users fetched before the loop do not
    bear, in order and with consecutive fresh identifiers: two snapshot
    users with the same new name give two users. *)
Theorem import_users_maps_every_user with_original_date random_string fetched
    l w :
  let r := for_each l (import_user with_original_date random_string fetched) w in
  let created :=
    created_users with_original_date random_string (next_id w)
      (unknown_users fetched l) in
  r.2 = Return tt
  ∧ dom (id_mapping r.1) = dom (id_mapping w) ∪ list_to_set (user_id <$> l)
  ∧ calls r.1 = calls w ++ (SaveUser <$> created)
  ∧ users r.1 = users w ++ created.
Proof.
  destruct (import_users_run with_original_date random_string fetched l w)
    as (Hr & Hd & _ & Hc & Hu & _).
  cbv zeta. done.
Qed.

(** X4.  When the users of the snapshot have distinct identifiers, each one
    is mapped to the first fetched user of the target that bears its name,
    when there is one, and otherwise to the user created for it. *)
Theorem import_users_reuses_by_name with_original_date random_string fetched
    l : ∀ w n u,
  NoDup (user_id <$> l) → l !! n = Some u →
  id_mapping (for_each l (import_user with_original_date random_string fetched) w).1
    !! user_id u
  = Some (match known_user fetched u with
          | Some user => user_id user
          | None =>
              (next_id w
               + Z.of_nat (length (unknown_users fetched (take n l))))%Z
          end).
Proof.
  induction l as [|x l IH]; intros w n u Hnd Hn; [done|].
  rewrite fmap_cons in Hnd. apply NoDup_cons in Hnd as [Hx Hnd].
  simpl for_each. unfold bind. rewrite import_user_runs.
  destruct n as [|n]; simpl in Hn.
  - injection Hn as ->. simpl take. unfold unknown_users at 1.
    rewrite filter_nil. simpl length. rewrite Z.add_0_r.
    destruct (known_user fetched u) as [t|] eqn:Ek;
      match goal with
      | |- context [for_each l _ ?w1] =>
          destruct (import_users_run with_original_date random_string fetched
                      l w1) as (_ & _ & Hf & _);
          rewrite (Hf _ Hx); simpl; unfold dict_set;
          by rewrite lookup_insert_eq
      end.
  - simpl take. unfold unknown_users. rewrite filter_cons.
    destruct (known_user fetched x) as [t|] eqn:Ek.
    + rewrite decide_False by done.
      rewrite (IH _ n u Hnd Hn). done.
    + rewrite decide_True by done.
      rewrite (IH _ n u Hnd Hn). simpl.
      destruct (known_user fetched u); [done|].
      f_equal. unfold unknown_users. lia.
Qed.

Lemma import_users_reuses_by_name_witness :
  id_mapping
    (for_each [ExRun.ann; ExRun.bob]
       (import_user false (λ _, "secret") (users ExRun.target)) ExRun.target).1
    !! user_id ExRun.bob
  = Some (match known_user (users ExRun.target) ExRun.bob with
          | Some user => user_id user
          | None =>
              (next_id ExRun.target
               + Z.of_nat
                   (length
                      (unknown_users (users ExRun.target)
                         (take 1 [ExRun.ann; ExRun.bob]))))%Z
          end).
Proof.
  apply (import_users_reuses_by_name false (λ _, "secret") (users ExRun.target)
           [ExRun.ann; ExRun.bob] ExRun.target 1 ExRun.bob);
    [by_compute|reflexivity].
Defined.

(** ** The ontology and the project, after the users *)

(** X5.  When the creator of the snapshot's ontology is not mapped,
    [import_ontology] raises the [KeyError] of that user before it
    switches the session or creates anything: the world is as it was. *)
Theorem import_ontology_unmapped_creator with_original_date snapshot w :
  id_mapping w !! ontology_user (snap_ontology snapshot) = None →
  import_ontology with_original_date snapshot w
  = (w, Raise (KeyError (ontology_user (snap_ontology snapshot)))).
Proof.
  intros Hu. unfold import_ontology.
  unfold bind at 1, get at 1. cbv beta iota.
  destruct (ontology_resolve_total (ontologies w) (terms w) (snap_terms snapshot)
              (PyStr.strip (ontology_name (snap_ontology snapshot))))
    as [[name existing] Hres].
  rewrite Hres. cbv beta iota.
  unfold bind at 1, lookup_id at 1. by rewrite (dict_get_None _ _ Hu).
Qed.

Lemma import_ontology_unmapped_creator_witness :
  import_ontology false ExC9.s (Ex.world ∅)
  = (Ex.world ∅, Raise (KeyError 20)).
Proof.
  apply (import_ontology_unmapped_creator false ExC9.s (Ex.world ∅)).
  reflexivity.
Defined.

Lemma map_each_lookup_all {A} (f : A → Z) (l : list A) (w : World) :
  (∀ x, x ∈ l → is_Some (id_mapping w !! f x)) →
  ∃ targets, map_each l (λ x, lookup_id (f x)) w = (w, Return targets)
             ∧ Forall2 (λ x t, id_mapping w !! f x = Some t) l targets.
Proof.
  induction l as [|x l IH]; intros H.
  - exists []. split; [done|constructor].
  - destruct (H x) as [t Ht]; [left|].
    destruct IH as (ts & E & F); [intros y Hy; apply H; by right|].
    exists (t :: ts). split; [|by constructor].
    simpl. unfold bind at 1, lookup_id at 1. rewrite (dict_get_Some _ _ _ Ht).
    unfold bind at 1. by rewrite E.
Qed.

Lemma with_role_elem role l u : u ∈ with_role role l → u ∈ l.
Proof. unfold with_role. intros H. by apply list_elem_of_filter in H as []. Qed.

(** X6.  Once every user of the snapshot is mapped, [import_project] can
    only fail on the ontology of the project: when that one is mapped too,
    it returns, and the project it creates bears the first free name, the
    target of the ontology, no discipline, and as contributors and managers
    the targets of the snapshot users that have the role, in their order. *)
Theorem import_project_after_users with_original_date snapshot w ontology :
  (∀ u, u ∈ remote_users w → is_Some (id_mapping w !! user_id u)) →
  id_mapping w !! project_ontology (snap_project snapshot) = Some ontology →
  ∃ name contributors managers,
    available_name (projects w)
      (PyStr.strip (project_name (snap_project snapshot))) = Some name
    ∧ Forall2 (λ u t, id_mapping w !! user_id u = Some t)
        (with_role "project_contributor" (remote_users w)) contributors
    ∧ Forall2 (λ u t, id_mapping w !! user_id u = Some t)
        (with_role "project_manager" (remote_users w)) managers
    ∧ (import_project with_original_date snapshot w).2 = Return tt
    ∧ calls (import_project with_original_date snapshot w).1
      = calls w ++
          [SaveProject
             (mkProject (next_id w) name ontology None contributors managers
                (keep_date with_original_date
                   (project_created (snap_project snapshot)))
                (keep_date with_original_date
                   (project_updated (snap_project snapshot))))]
    ∧ id_mapping (import_project with_original_date snapshot w).1
      = <[project_id (snap_project snapshot) := next_id w]> (id_mapping w).
Proof.
  intros Hu Ho.
  destruct (available_name_total (projects w)
              (PyStr.strip (project_name (snap_project snapshot))))
    as [name Hname].
  set (w1 := set_remote_project
               (mkProject (project_id (snap_project snapshot))
                  (PyStr.strip (project_name (snap_project snapshot)))
                  (project_ontology (snap_project snapshot))
                  (project_discipline (snap_project snapshot))
                  (project_users (snap_project snapshot))
                  (project_admins (snap_project snapshot))
                  (project_created (snap_project snapshot))
                  (project_updated (snap_project snapshot))) w).
  destruct (map_each_lookup_all user_id
              (with_role "project_contributor" (remote_users w)) w1)
    as (contributors & Ec & Fc).
  { intros u Hin. apply Hu. by apply with_role_elem in Hin. }
  destruct (map_each_lookup_all user_id
              (with_role "project_manager" (remote_users w)) w1)
    as (managers & Em & Fm).
  { intros u Hin. apply Hu. by apply with_role_elem in Hin. }
  exists name, contributors, managers.
  split; [exact Hname|]. split; [exact Fc|]. split; [exact Fm|].
  assert (import_project with_original_date snapshot w
          = (set_id_mapping
               (λ d, dict_set d (project_id (snap_project snapshot)) (next_id w))
               (server
                  (SaveProject
                     (mkProject (next_id w) name ontology None contributors
                        managers
                        (keep_date with_original_date
                           (project_created (snap_project snapshot)))
                        (keep_date with_original_date
                           (project_updated (snap_project snapshot))))) w1),
             Return tt)) as E.
  { unfold import_project.
    unfold bind at 1, get at 1. cbv beta iota.
    unfold bind at 1, modify at 1. cbv beta iota.
    cbn [project_name]. rewrite Hname. fold w1.
    unfold bind at 1, lookup_id at 1. cbn [project_ontology].
    change (id_mapping w1) with (id_mapping w).
    rewrite (dict_get_Some _ _ _ Ho). cbv beta iota.
    unfold bind at 1. rewrite Ec. cbv beta iota.
    unfold bind at 1. rewrite Em. cbv beta iota.
    reflexivity. }
  rewrite E. done.
Qed.

Lemma import_project_after_users_witness :
  ∃ name contributors managers,
    available_name (projects ExX.w_project)
      (PyStr.strip (project_name (snap_project (ExRun.snapshot [])))) = Some name
    ∧ Forall2 (λ u t, id_mapping ExX.w_project !! user_id u = Some t)
        (with_role "project_contributor" (remote_users ExX.w_project))
        contributors
    ∧ Forall2 (λ u t, id_mapping ExX.w_project !! user_id u = Some t)
        (with_role "project_manager" (remote_users ExX.w_project)) managers
    ∧ (import_project false (ExRun.snapshot []) ExX.w_project).2 = Return tt
    ∧ calls (import_project false (ExRun.snapshot []) ExX.w_project).1
      = calls ExX.w_project ++
          [SaveProject
             (mkProject (next_id ExX.w_project) name 1001 None contributors
                managers
                (keep_date false
                   (project_created (snap_project (ExRun.snapshot []))))
                (keep_date false
                   (project_updated (snap_project (ExRun.snapshot [])))))]
    ∧ id_mapping (import_project false (ExRun.snapshot []) ExX.w_project).1
      = <[project_id (snap_project (ExRun.snapshot [])) := next_id ExX.w_project]>
          (id_mapping ExX.w_project).
Proof.
  apply (import_project_after_users false (ExRun.snapshot []) ExX.w_project 1001).
  - apply Forall_forall. by_compute.
  - vm_compute. reflexivity.
Defined.

(** ** A snapshot without images *)

Lemma always_raises_bind_l {S A B} (R : relation S) (m : M S A) (k : A → M S B) :
  always_raises R m → always_raises R (bind m k).
Proof.
  intros Hm s. destruct (Hm s) as [HR [e He]]. unfold bind.
  destruct (m s) as [s' [a|e']]; simpl in *; [done|]. eauto.
Qed.

Lemma always_raises_bind_r {S A B} (R : relation S) `{!PreOrder R}
    (m : M S A) (k : A → M S B) :
  stable R m → (∀ a, always_raises R (k a)) → always_raises R (bind m k).
Proof.
  intros Hm Hk s. specialize (Hm s). unfold bind.
  destruct (m s) as [s' [a|e']]; simpl in *; [|eauto].
  destruct (Hk a s') as [HR He]. split; [by etrans|done].
Qed.

Lemma emits_weaken (P Q : call → Prop) w w' :
  (∀ c, P c → Q c) → emits P w w' → emits Q w w'.
Proof.
  intros H (l & E & F). exists l. split; [done|].
  eapply Forall_impl; [exact F|exact H].
Qed.

Section catalog.
Variable with_original_date : bool.
Variable host_upload working_path : string.
Variable random_string : User → string.
Variable snapshot : Snapshot.
Context {schedule : Schedule World}.

Lemma catalog_import_ontology :
  stable (emits catalog_call) (import_ontology with_original_date snapshot).
Proof.
  unfold import_ontology, connect_as_admin, connect_as, loop_bound_reached,
    create_term, create_relation, link_term, fresh_id, assign_id.
  stable_auto (emits catalog_call) emits_leaf.
Qed.

Lemma catalog_import_project :
  stable (emits catalog_call) (import_project with_original_date snapshot).
Proof.
  unfold import_project, loop_bound_reached, fresh_id, assign_id.
  stable_auto (emits catalog_call) emits_leaf.
Qed.

Lemma import_images_of_none w :
  snap_images snapshot = [] →
  import_images with_original_date host_upload working_path snapshot w
  = (w, Raise TypeError).
Proof. intros H. unfold import_images. rewrite H. reflexivity. Qed.

Lemma run_without_images_raises :
  snap_images snapshot = [] →
  always_raises (emits catalog_call)
    (run with_original_date host_upload working_path random_string snapshot).
Proof.
  intros Himages. unfold run.
  apply (always_raises_bind_r (emits catalog_call));
    [apply (stable_get (emits catalog_call))|]. intros w0.
  apply (always_raises_bind_r (emits catalog_call)); [emits_leaf|]. intros _.
  apply (always_raises_bind_r (emits catalog_call)).
  { unfold connect_as_admin, connect_as.
    stable_auto (emits catalog_call) emits_leaf. }
  intros _.
  apply (always_raises_bind_r (emits catalog_call));
    [apply (stable_get (emits catalog_call))|]. intros w1.
  apply (always_raises_bind_r (emits catalog_call)); [emits_leaf|]. intros _.
  apply (always_raises_bind_r (emits catalog_call)).
  { unfold import_user, fresh_id, assign_id.
    stable_auto (emits catalog_call) emits_leaf. }
  intros _.
  apply (always_raises_bind_r (emits catalog_call));
    [apply catalog_import_ontology|]. intros _.
  apply (always_raises_bind_r (emits catalog_call)).
  { unfold connect_as_admin, connect_as.
    stable_auto (emits catalog_call) emits_leaf. }
  intros _.
  apply (always_raises_bind_r (emits catalog_call));
    [apply catalog_import_project|]. intros _.
  apply always_raises_bind_l. intros w.
  rewrite (import_images_of_none w Himages). split; [reflexivity|eauto].
Qed.

End catalog.

(** X7.  A snapshot without images cannot be imported: the run raises, in
    the images phase at the latest, whatever the target is.  The calls it
    has issued by then only switch users and create users, the ontology,
    its terms and relations, and the project: no image, annotation or
    metadata call is ever issued. *)
Theorem run_without_images {schedule : Schedule World}
    with_original_date host_upload working_path random_string snapshot w :
  snap_images snapshot = [] →
  (∃ e, (run with_original_date host_upload working_path random_string
           snapshot w).2 = Raise e)
  ∧ emits catalog_call w
      (run with_original_date host_upload working_path random_string
         snapshot w).1.
Proof.
  intros H.
  destruct (run_without_images_raises with_original_date host_upload
              working_path random_string snapshot H w) as [He Hr].
  split; [exact Hr|exact He].
Qed.

Lemma run_without_images_witness :
  (∃ e, (run (schedule := Ex.in_order) false "upload.host" "/tmp/export"
           (λ _, "secret") ExC5.s (Ex.world ∅)).2 = Raise e)
  ∧ emits catalog_call (Ex.world ∅)
      (run (schedule := Ex.in_order) false "upload.host" "/tmp/export"
         (λ _, "secret") ExC5.s (Ex.world ∅)).1.
Proof.
  apply (run_without_images (schedule := Ex.in_order) false "upload.host"
           "/tmp/export" (λ _, "secret") ExC5.s (Ex.world ∅)).
  reflexivity.
Defined.

(** ** The images *)

(** X8.  On a target without storage, the submission of an image raises
    [IndexError] as soon as the session is switched to the creator of the
    image: also when an abstract image of that name and size exists and no
    storage is needed to link it.  The session is not switched back. *)
Theorem submit_image_without_storage host_upload working_path d i w u :
  storages w = [] → id_mapping w !! ii_user i = Some u →
  submit_image host_upload working_path d i w
  = (server (ConnectAs u false) w, Raise IndexError).
Proof.
  intros Hs Hu. unfold submit_image.
  unfold bind at 1, lookup_id at 1. cbn [ii_user set_originalFilename].
  rewrite (dict_get_Some _ _ _ Hu). cbv beta iota.
  unfold bind at 1, connect_as at 1, do_call at 1, modify at 1. cbv beta iota.
  unfold bind at 1, get at 1. cbv beta iota.
  change (storages (server (ConnectAs u false) w)) with (storages w).
  rewrite Hs. reflexivity.
Qed.

Lemma submit_image_without_storage_witness :
  submit_image "upload.host" "/tmp/export" ∅ (Ex.image 10 5 "a.tif")
    ExX.w_no_storage
  = (server (ConnectAs 2 false) ExX.w_no_storage, Raise IndexError).
Proof.
  apply (submit_image_without_storage "upload.host" "/tmp/export" ∅
           (Ex.image 10 5 "a.tif") ExX.w_no_storage 2); reflexivity.
Defined.

Lemma append_nonempty s t : t ≠ EmptyString → s +:+ t ≠ EmptyString.
Proof. intros Ht. destruct s; [done|discriminate]. Qed.

Lemma ends_with_slash_app s t :
  t ≠ EmptyString → ends_with_slash (s +:+ t) = ends_with_slash t.
Proof.
  intros Ht. induction s as [|a s IH]; [done|].
  change (String a s +:+ t) with (String a (s +:+ t)).
  simpl. rewrite IH.
  destruct (s +:+ t) eqn:E; [|done].
  by apply append_nonempty in E.
Qed.

Lemma images_directory working_path :
  path_join working_path "images" ≠ EmptyString
  ∧ ends_with_slash (path_join working_path "images") = false.
Proof.
  unfold path_join. simpl starts_with_slash. cbv iota.
  destruct (_ || _).
  - split; [by apply append_nonempty|by rewrite ends_with_slash_app].
  - split; [by apply append_nonempty|].
    rewrite ends_with_slash_app; [|by apply append_nonempty].
    by rewrite ends_with_slash_app.
Qed.

Lemma has_slash_replace s : has_slash (PyStr.replace_slash s) = false.
Proof.
  induction s as [|a s IH]; [done|]. simpl. rewrite IH.
  destruct (Ascii.eqb a "/") eqn:E; [done|]. by rewrite E.
Qed.

Lemma starts_with_slash_has s : has_slash s = false → starts_with_slash s = false.
Proof. destruct s; [done|]. simpl. by intros [? ?]%orb_false_iff. Qed.

Lemma path_join_images working_path name :
  has_slash name = false →
  path_join (path_join working_path "images") name
  = image_file working_path name.
Proof.
  intros Hn. destruct (images_directory working_path) as [Hne He].
  unfold path_join at 1. rewrite (starts_with_slash_has _ Hn), He.
  rewrite orb_false_r.
  destruct (String.eqb_spec (path_join working_path "images") EmptyString);
    done.
Qed.

(** X9.  Whatever the name of an image of the snapshot is, the file that
    [import_images] uploads for it is a file of the directory [images] of
    the working path, and it is sent to [host_upload]: a slash of the name
    is replaced, so that the name cannot lead elsewhere. *)
Theorem submit_image_uploads_from_images host_upload working_path d i w :
  emits (uploads_from_images host_upload working_path) w
    (submit_image host_upload working_path d i w).1.
Proof.
  revert w.
  change (stable (emits (uploads_from_images host_upload working_path))
            (submit_image host_upload working_path d i)).
  unfold submit_image, connect_as_admin, connect_as, target_project.
  stable_auto (emits (uploads_from_images host_upload working_path))
    ltac:(first
      [ emits_leaf
      | intros ?; eexists [_]; split; [reflexivity|];
        apply Forall_singleton; split; [reflexivity|];
        eexists; split;
          [apply path_join_images, has_slash_replace|apply has_slash_replace] ]).
Qed.

(** *** The dict of the images by name *)

Lemma submit_image_files host_upload working_path d i w w' d' :
  submit_image host_upload working_path d i w = (w', Return d') →
  d' = file_image d i.
Proof.
  unfold submit_image. intros H.
  apply bind_returns in H as (s1 & a1 & _ & H).
  apply bind_returns in H as (s2 & a2 & _ & H).
  apply bind_returns in H as (s3 & a3 & _ & H).
  apply bind_returns in H as (s4 & a4 & _ & H).
  apply bind_returns in H as (s5 & a5 & _ & H).
  apply bind_returns in H as (s6 & a6 & _ & H).
  injection H as _ <-. reflexivity.
Qed.

Lemma named_cons name i l :
  named name (i :: l)
  = if decide (ii_originalFilename (ascii_named i) = name)
    then ascii_named i :: named name l else named name l.
Proof. unfold named. rewrite fmap_cons, filter_cons. done. Qed.

Lemma file_image_lookup d i name :
  file_image d i !! name
  = if decide (ii_originalFilename (ascii_named i) = name)
    then Some (default [] (d !! name) ++ [ascii_named i])
    else d !! name.
Proof.
  unfold file_image. case_decide as E.
  - subst name. destruct (d !! _) as [l|] eqn:El;
      by rewrite lookup_insert_eq.
  - destruct (d !! ii_originalFilename (ascii_named i));
      by rewrite lookup_insert_ne.
Qed.

Lemma submit_images_files host_upload working_path l : ∀ d w w' d',
  fold_each l d (submit_image host_upload working_path) w = (w', Return d') →
  ∀ name,
    d' !! name
    = match named name l with
      | [] => d !! name
      | group => Some (default [] (d !! name) ++ group)
      end.
Proof.
  induction l as [|i l IH]; intros d w w' d' H name.
  - injection H as _ <-. done.
  - simpl in H. apply bind_returns in H as (w1 & d1 & H1 & H).
    apply submit_image_files in H1 as ->.
    rewrite (IH _ _ _ _ H name), named_cons, file_image_lookup.
    case_decide as E.
    + simpl. destruct (named name l) as [|j g]; [done|].
      by rewrite <- app_assoc.
    + done.
Qed.

(** X10.  When the loop that submits the images returns, the dict it built
    maps each name, reduced to ASCII, to the images of the snapshot that
    bear it, in the order of the snapshot, and maps no other name. *)
Theorem submitted_images_by_name host_upload working_path l w w' d name :
  fold_each l ∅ (submit_image host_upload working_path) w = (w', Return d) →
  d !! name = match named name l with
              | [] => None
              | group => Some group
              end.
Proof.
  intros H. rewrite (submit_images_files _ _ _ _ _ _ _ H name).
  rewrite lookup_empty. done.
Qed.

Lemma submitted_images_by_name_witness :
  ExX.twins_dict !! "a.tif"
  = match named "a.tif" ExX.twins with
    | [] => None
    | group => Some group
    end.
Proof.
  apply (submitted_images_by_name "upload.host" "/tmp/export" ExX.twins ExC2.w
           (fold_each ExX.twins ∅ (submit_image "upload.host" "/tmp/export")
              ExC2.w).1
           ExX.twins_dict "a.tif").
  apply with_outcome. vm_compute. reflexivity.
Defined.

(** *** The loop that fixes the image instances *)

Lemma pop_snoc {A} (l : list A) (x : A) : pop (l ++ [x]) = Some (x, l).
Proof. unfold pop. rewrite reverse_snoc. by rewrite reverse_involutive. Qed.

Lemma fix_image_runs with_original_date d n w l r a0 :
  d !! ii_originalFilename n = Some (l ++ [r]) →
  (∀ k, truthy (ii_reviewUser r) = Some k → is_Some (id_mapping w !! k)) →
  abstract_store w !! ii_baseImage n = Some a0 →
  fix_image with_original_date d n w
  = (paired with_original_date n r a0 w,
     Return (<[ii_originalFilename n := l]> d)).
Proof.
  intros Hd Hrev Ha. unfold fix_image, paired, reviewer_of.
  rewrite Hd, pop_snoc.
  destruct (truthy (ii_reviewUser r)) as [k|] eqn:Ek.
  - destruct (Hrev k eq_refl) as [v Hv].
    unfold bind at 1. unfold bind at 1. unfold lookup_id at 1.
    rewrite (dict_get_Some _ _ _ Hv), Hv. cbv beta iota.
    unfold bind, ret, do_call, modify, assign_id, get. simpl.
    rewrite Ha. done.
  - unfold bind, ret, do_call, modify, assign_id, get. simpl.
    rewrite Ha. done.
Qed.

(** X11.  The new image instance is paired with the last image of its name
    that is not paired yet: with snapshot images that share a name, the
    pairs are made in the reverse order.  When the reviewer of that image,
    if it has one, is mapped and the abstract image of the new instance is
    found, the step returns with that image taken out of the dict, and the
    identifiers of the image and of its base image mapped to those of the
    new instance. *)
Theorem fix_image_pairs_last with_original_date d n w l r a0 :
  d !! ii_originalFilename n = Some (l ++ [r]) →
  (∀ k, truthy (ii_reviewUser r) = Some k → is_Some (id_mapping w !! k)) →
  abstract_store w !! ii_baseImage n = Some a0 →
  (fix_image with_original_date d n w).2
  = Return (<[ii_originalFilename n := l]> d)
  ∧ id_mapping (fix_image with_original_date d n w).1
    = <[ii_baseImage r := ii_baseImage n]>
        (<[ii_id r := ii_id n]> (id_mapping w))
  ∧ calls (fix_image with_original_date d n w).1
    = calls w ++
        [UpdateImageInstance
           (fixed_instance with_original_date n r
              (reviewer_of (id_mapping w) r));
         UpdateAbstractImage (amended_abstract with_original_date a0 r)].
Proof.
  intros Hd Hrev Ha.
  rewrite (fix_image_runs with_original_date d n w l r a0 Hd Hrev Ha).
  split; [done|]. split; [done|].
  unfold paired. cbn [fst calls server set_id_mapping].
  by rewrite <- app_assoc.
Qed.

Lemma fix_image_pairs_last_witness :
  (fix_image false ExX.twins_dict ExC3.n1 ExC3.before).2
  = Return (<[ii_originalFilename ExC3.n1 := [Ex.image 10 5 "a.tif"]]>
              ExX.twins_dict)
  ∧ id_mapping (fix_image false ExX.twins_dict ExC3.n1 ExC3.before).1
    = <[ii_baseImage (Ex.image 12 6 "a.tif") := ii_baseImage ExC3.n1]>
        (<[ii_id (Ex.image 12 6 "a.tif") := ii_id ExC3.n1]>
           (id_mapping ExC3.before))
  ∧ calls (fix_image false ExX.twins_dict ExC3.n1 ExC3.before).1
    = calls ExC3.before ++
        [UpdateImageInstance
           (fixed_instance false ExC3.n1 (Ex.image 12 6 "a.tif")
              (reviewer_of (id_mapping ExC3.before) (Ex.image 12 6 "a.tif")));
         UpdateAbstractImage
           (amended_abstract false (ExC3.abstract 50 "a.tif")
              (Ex.image 12 6 "a.tif"))].
Proof.
  apply (fix_image_pairs_last false ExX.twins_dict ExC3.n1 ExC3.before
           [Ex.image 10 5 "a.tif"] (Ex.image 12 6 "a.tif")
           (ExC3.abstract 50 "a.tif")).
  - vm_compute. reflexivity.
  - intros k H. vm_compute in H. discriminate H.
  - vm_compute. reflexivity.
Defined.

(** X12.  The update that the loop sends for the abstract image of a new
    instance keeps its identifier, name, width and height; it keeps its
    magnification when it has one, and its dates unless the dates of the
    snapshot are asked for.  The step issues no other call than this update
    and the update of the image instance, however it ends. *)
Theorem fix_image_amends_abstract with_original_date d n w :
  emits (amends with_original_date (abstract_store w !! ii_baseImage n))
    w (fix_image with_original_date d n w).1.
Proof.
  unfold fix_image.
  destruct (d !! ii_originalFilename n) as [l|]; [|reflexivity].
  destruct (pop l) as [[r l']|]; [|reflexivity].
  assert (∀ reviewer,
    emits (amends with_original_date (abstract_store w !! ii_baseImage n)) w
      ((do_call (UpdateImageInstance
          (mkImageInstance (ii_id n) (ii_baseImage n) (ii_originalFilename n)
             (ii_instanceFilename r) (ii_user n) (ii_width n) (ii_height n)
             (ii_magnification n) (ii_reviewStart r) (ii_reviewStop r) reviewer
             (if with_original_date then ii_created r else ii_created n)
             (if with_original_date then ii_updated r else ii_updated n))) ;;;
        assign_id (ii_id r) (ii_id n) ;;;
        assign_id (ii_baseImage r) (ii_baseImage n) ;;;
        w <- get ;;
        match abstract_store w !! ii_baseImage n with
        | None => raise AttributeError
        | Some new_abstract =>
            do_call (UpdateAbstractImage
              (mkAbstractImage (ai_id new_abstract)
                 (ai_originalFilename new_abstract)
                 (ai_width new_abstract) (ai_height new_abstract)
                 (match ai_magnification new_abstract with
                  | None => ii_magnification r
                  | Some m => Some m
                  end)
                 (if with_original_date then ii_created r
                  else ai_created new_abstract)
                 (if with_original_date then ii_updated r
                  else ai_updated new_abstract)))
        end ;;;
        ret (<[ii_originalFilename n := l']> d)) w).1) as Hbody.
  { intros reviewer.
    unfold bind, ret, do_call, modify, assign_id, get, raise. simpl.
    destruct (abstract_store w !! ii_baseImage n) as [a0|] eqn:Ea; simpl.
    - eexists [_; _]. split; [simpl; by rewrite <- app_assoc|].
      repeat constructor. exists a0. simpl.
      do 5 (split; [done|]). split; [by intros m ->|by intros ->].
    - eexists [_]. split; [done|]. by repeat constructor. }
  destruct (truthy (ii_reviewUser r)) as [k|].
  - unfold bind at 1. unfold bind at 1. unfold lookup_id at 1.
    destruct (dict_get (id_mapping w) k) as [v|e]; [|reflexivity].
    apply Hbody.
  - unfold bind at 1. unfold ret at 1. apply Hbody.
Qed.

Lemma is_ascii_ignore s : is_ascii (PyStr.ascii_ignore s) = true.
Proof.
  induction s as [|a s IH]; [done|]. simpl.
  destruct (nat_of_ascii a <? 128)%nat eqn:E; [|done].
  simpl. by rewrite E.
Qed.

Lemma named_non_ascii name l : is_ascii name = false → named name l = [].
Proof.
  intros Hn. unfold named. induction l as [|i l IH]; [done|].
  rewrite fmap_cons, filter_cons, IH. case_decide as E; [|done].
  simpl in E. rewrite <- E, is_ascii_ignore in Hn. done.
Qed.

Lemma fix_image_returns with_original_date d n w w' d' :
  fix_image with_original_date d n w = (w', Return d') →
  ∃ l, d !! ii_originalFilename n = Some l
       ∧ ∃ l', d' = <[ii_originalFilename n := l']> d.
Proof.
  unfold fix_image. destruct (d !! ii_originalFilename n) as [l|]; [|done].
  destruct (pop l) as [[r l']|]; [|done]. intros H.
  exists l. split; [done|]. exists l'.
  apply bind_returns in H as (s1 & a1 & _ & H).
  apply bind_returns in H as (s2 & a2 & _ & H).
  apply bind_returns in H as (s3 & a3 & _ & H).
  apply bind_returns in H as (s4 & a4 & _ & H).
  apply bind_returns in H as (s5 & a5 & _ & H).
  apply bind_returns in H as (s6 & a6 & _ & H).
  by injection H as _ <-.
Qed.

Lemma fix_images_unknown_name with_original_date name news : ∀ d w n,
  d !! name = None → n ∈ news → ii_originalFilename n = name →
  ∃ e, (fold_each news d (fix_image with_original_date) w).2 = Raise e.
Proof.
  induction news as [|x news IH]; intros d w n Hd Hin Hn.
  - by apply elem_of_nil in Hin.
  - simpl. unfold bind.
    destruct (fix_image with_original_date d x w) as [w1 [d1|e]] eqn:E;
      [|eauto].
    apply fix_image_returns in E as (l & Hl & l' & ->).
    apply elem_of_cons in Hin as [->|Hin]; [congruence|].
    apply (IH _ w1 n); [|done|done].
    rewrite lookup_insert_ne; [done|]. intros Heq. congruence.
Qed.

(** X13.  The name of a snapshot image is reduced to ASCII before it is
    filed, and the name of a new image instance is looked up as the target
    gives it: when the target answers with an instance that bears a name
    with a character outside ASCII, the loop that fixes the instances
    cannot finish, whatever the snapshot holds. *)
Theorem non_ascii_name_is_never_paired with_original_date host_upload
    working_path l w0 w1 d news n w :
  fold_each l ∅ (submit_image host_upload working_path) w0 = (w1, Return d) →
  n ∈ news → is_ascii (ii_originalFilename n) = false →
  ∃ e, (fix_images with_original_date d (Some news) w).2 = Raise e.
Proof.
  intros Hd Hin Hn.
  assert (d !! ii_originalFilename n = None) as Hnone.
  { rewrite (submit_images_files _ _ _ _ _ _ _ Hd), lookup_empty.
    by rewrite named_non_ascii. }
  destruct (fix_images_unknown_name with_original_date _ news d w n Hnone Hin
              eq_refl) as [e He].
  exists e. unfold fix_images, bind.
  destruct (fold_each news d _ w) as [w' [d'|e']]; simpl in *; congruence.
Qed.

Lemma non_ascii_name_is_never_paired_witness :
  ∃ e, (fix_images false ExX.twins_dict (Some [ExC3.n1; ExX.accented])
          ExC3.before).2 = Raise e.
Proof.
  apply (non_ascii_name_is_never_paired false "upload.host" "/tmp/export"
           ExX.twins ExC2.w
           (fold_each ExX.twins ∅ (submit_image "upload.host" "/tmp/export")
              ExC2.w).1
           ExX.twins_dict [ExC3.n1; ExX.accented] ExX.accented ExC3.before).
  - apply with_outcome. vm_compute. reflexivity.
  - right. left.
  - reflexivity.
Defined.

(** ** The metadata *)

Lemma saved_app d docs1 docs2 :
  saved d (docs1 ++ docs2)
  = match first_unresolved d docs1.*1 with
    | Some _ => saved d docs1
    | None => saved d docs1 ++ saved d docs2
    end.
Proof.
  induction docs1 as [|[k c] docs1 IH]; [done|].
  simpl. unfold first_unresolved in *. rewrite filter_cons.
  destruct (d !! k) as [v|] eqn:Ek.
  - rewrite decide_False by done. rewrite IH.
    by destruct (find_first _).
  - rewrite decide_True by done. done.
Qed.

Lemma saves_ret : saves (ret tt) [].
Proof. intros w. simpl. by rewrite app_nil_r. Qed.

Lemma saves_seq m1 m2 docs1 docs2 :
  saves m1 docs1 → saves m2 docs2 → saves (m1 ;;; m2) (docs1 ++ docs2).
Proof.
  intros H1 H2 w. unfold bind, resolves.
  destruct (H1 w) as (Hm & Hr & Hc).
  rewrite fmap_app, first_unresolved_app, saved_app.
  destruct (m1 w) as [w1 o1]; simpl in *. unfold resolves in Hr.
  destruct (first_unresolved (id_mapping w) docs1.*1) as [k|]; subst o1; simpl.
  - done.
  - destruct (H2 w1) as (Hm2 & Hr2 & Hc2).
    rewrite Hm2, Hr2, Hc2, Hm, Hc, app_assoc. done.
Qed.

Lemma saves_for_each {A} (l : list A) body (docs : A → list (Z * (Z → call))) :
  (∀ x, saves (body x) (docs x)) → saves (for_each l body) (l ≫= docs).
Proof.
  intros Hb. induction l as [|x l IH]; simpl.
  - apply saves_ret.
  - apply saves_seq; auto.
Qed.

Lemma saves_lookup_call k (c : Z → call) :
  saves (v <- lookup_id k ;; do_call (c v)) [(k, c)].
Proof.
  intros w. unfold bind, lookup_id, dict_get, resolves, first_unresolved.
  simpl. rewrite filter_cons, filter_nil.
  case_decide as E; simpl; rewrite ?E; simpl.
  - by rewrite app_nil_r.
  - by destruct (id_mapping w !! k).
Qed.

Lemma saves_documents {A} (l : list A) (ref : A → Z) (c : A → Z → call) :
  saves (for_each l (λ x, v <- lookup_id (ref x) ;; do_call (c x v)))
    ((λ x, (ref x, c x)) <$> l).
Proof.
  replace ((λ x, (ref x, c x)) <$> l) with (l ≫= λ x, [(ref x, c x)]).
  - apply saves_for_each. intros x. apply saves_lookup_call.
  - induction l as [|x l IH]; [done|]. by rewrite bind_cons, fmap_cons, IH.
Qed.

(** X14.  [import_metadata] saves the documents in order: the properties,
    then the attached files, then the descriptions, each with its
    reference rewritten.  It stops at the first document whose reference
    is not mapped, with the [KeyError] of that reference, and the
    documents saved before it stay saved. *)
Theorem import_metadata_saves_prefix working_path snapshot w :
  (import_metadata working_path snapshot w).2
  = resolves (id_mapping w) (metadata_documents working_path snapshot).*1
  ∧ calls (import_metadata working_path snapshot w).1
    = calls w ++ saved (id_mapping w) (metadata_documents working_path snapshot).
Proof.
  assert (saves (import_metadata working_path snapshot)
            (metadata_documents working_path snapshot)) as H.
  { unfold import_metadata, metadata_documents.
    apply saves_seq; [|apply saves_seq].
    - apply saves_for_each. intros file.
      apply (saves_documents file prop_domainIdent property_call).
    - apply saves_for_each. intros file.
      apply (saves_documents file af_domainIdent
               (attached_file_call working_path)).
    - apply (saves_documents _ desc_domainIdent description_call). }
  destruct (H w) as (_ & Hr & Hc). done.
Qed.

(** X15.  A file name of the snapshot that is an absolute path is sent as it
    is: for such an attached file the working path plays no part, and the
    file uploaded is the one at that path. *)
Theorem import_attached_file_absolute working_path f w v :
  starts_with_slash (af_filename f) = true →
  id_mapping w !! af_domainIdent f = Some v →
  import_attached_file working_path f w
  = (server
       (SaveAttachedFile
          (mkAttachedFile None v (af_domainClassName f) (af_filename f))) w,
     Return tt).
Proof.
  intros Hs Hv. unfold import_attached_file, bind, lookup_id.
  rewrite (dict_get_Some _ _ _ Hv). unfold path_join at 1. by rewrite Hs.
Qed.

Lemma import_attached_file_absolute_witness :
  import_attached_file "/tmp/export" ExX.absolute_file (Ex.world (puts [(7, 70)%Z]))
  = (server
       (SaveAttachedFile
          (mkAttachedFile None 70 "be.cytomine.project.Project" "/etc/hosts"))
       (Ex.world (puts [(7, 70)%Z])),
     Return tt).
Proof.
  apply (import_attached_file_absolute "/tmp/export" ExX.absolute_file
           (Ex.world (puts [(7, 70)%Z])) 70); reflexivity.
Defined.

(** ** The annotations *)

Lemma stable_for_each_elem {S A} (R : relation S) `{!PreOrder R}
    (l : list A) (body : A → M S unit) :
  (∀ x, x ∈ l → stable R (body x)) → stable R (for_each l body).
Proof.
  intros Hb. induction l as [|x l IH]; simpl.
  - apply stable_ret. done.
  - apply stable_bind; [done|apply Hb; left|].
    intros _. apply IH. intros y Hy. apply Hb. by right.
Qed.

Lemma add_annotation_emits with_original_date annots creators r u :
  r ∈ annots → u ∈ creators → "userannotation_creator" ∈ roles u →
  a_user r = user_id u →
  stable (emits (imports_annotation_of annots creators))
    (_add_annotation with_original_date r).
Proof.
  intros Hr Hu Hrole Huser. unfold _add_annotation.
  stable_auto (emits (imports_annotation_of annots creators))
    ltac:(first
      [ solve [emits_leaf]
      | intros ?; eexists [_]; split; [reflexivity|];
        apply Forall_singleton; simpl;
        split; [done|]; split; [done|]; exists r, u; done ]).
Qed.

(** X16.  [import_annotations] creates annotations only: each one is new
    (no identifier, no slice) and is made of an annotation of the snapshot
    whose user is a snapshot user with the role of annotation creator.  The
    annotations of the other users are never sent, and no other call is
    issued but the switches of user. *)
Theorem import_annotations_only_of_creators {schedule : Schedule World}
    with_original_date snapshot w :
  emits (imports_annotation_of (snap_annotations snapshot) (remote_users w))
    w (import_annotations with_original_date snapshot w).1.
Proof.
  unfold import_annotations. unfold bind at 1, get at 1. cbv beta iota.
  apply (stable_for_each_elem
           (emits (imports_annotation_of (snap_annotations snapshot)
                     (remote_users w)))).
  intros u Hu.
  unfold with_role in Hu. apply list_elem_of_filter in Hu as [Hrole Hu].
  unfold import_annotations_of, connect_as_admin, connect_as.
  apply (stable_bind _); [intros ?; reflexivity|]. intros v.
  apply (stable_bind _); [emits_leaf|]. intros _.
  apply (stable_bind _).
  - apply (stable_Parallel_elem _). intros r Hr.
    apply list_elem_of_filter in Hr as [Huser Hr].
    by apply (add_annotation_emits _ _ _ r u).
  - intros _. apply (stable_bind _); [apply (stable_get _)|].
    intros ?. emits_leaf.
Qed.

(** ** The files of an export, as the importer finds them *)

Lemma prefix_app p s : String.prefix p (p +:+ s) = true.
Proof.
  induction p as [|a p IH]; [by destruct s|].
  change (String a p +:+ s) with (String a (p +:+ s)).
  simpl. destruct (ascii_dec a a); [done|congruence].
Qed.

Lemma prefix_inv p s : String.prefix p s = true → ∃ r, s = p +:+ r.
Proof.
  revert s. induction p as [|a p IH]; intros s H.
  - by exists s.
  - destruct s as [|b s]; [done|]. simpl in H.
    destruct (ascii_dec a b) as [->|]; [|done].
    destruct (IH s H) as [r ->]. by exists r.
Qed.

Lemma prefix_both p q s :
  String.prefix p s = true → String.prefix q s = true →
  String.prefix p q = true ∨ String.prefix q p = true.
Proof.
  revert q s. induction p as [|a p IH]; intros q s Hp Hq.
  - left. by destruct q.
  - destruct q as [|b q]; [by right|].
    destruct s as [|c s]; [done|]. simpl in *.
    destruct (ascii_dec a c) as [->|]; [|done].
    destruct (ascii_dec b c) as [->|]; [|done].
    destruct (ascii_dec c c); [|done]. by apply (IH q s).
Qed.

Lemma Models_values_apart m1 m2 :
  String.prefix (Models_value m1) (Models_value m2) = true → m1 = m2.
Proof. destruct m1, m2; vm_compute; congruence. Qed.

Lemma startswith_unique f m1 m2 :
  startswith f (Models_value m1) = true →
  startswith f (Models_value m2) = true → m1 = m2.
Proof.
  unfold startswith. intros H1 H2.
  destruct (prefix_both _ _ _ H1 H2) as [H|H];
    [|symmetry]; by apply Models_values_apart.
Qed.

Lemma find_first_filter_unique {A} (P : A → Prop) `{!∀ x, Decision (P x)}
    (l : list A) (x : A) :
  x ∈ l → P x → (∀ y, P y → y = x) → find_first (filter P l) = Some x.
Proof.
  intros Hin HP Hu.
  assert (x ∈ filter P l) as Hf by (by apply list_elem_of_filter).
  destruct (filter P l) as [|y r] eqn:E; [by apply elem_of_nil in Hf|].
  simpl. f_equal. apply Hu.
  assert (y ∈ filter P l) as Hy by (rewrite E; left).
  by apply list_elem_of_filter in Hy as [? ?].
Qed.

Lemma Models_members_all m : m ∈ Models_members.
Proof. unfold Models_members. destruct m; set_solver. Qed.

Lemma model_of_iff filename m :
  model_of filename = Some m ↔ startswith filename (Models_value m) = true.
Proof.
  unfold model_of. split.
  - intros H.
    destruct (filter _ Models_members) as [|y r] eqn:E; [done|].
    injection H as ->.
    assert (m ∈ filter (λ m, startswith filename (Models_value m) = true)
                  Models_members) as Hm by (rewrite E; left).
    by apply list_elem_of_filter in Hm as [? ?].
  - intros H. apply find_first_filter_unique.
    + apply Models_members_all.
    + done.
    + intros y Hy. by apply (startswith_unique filename).
Qed.

Lemma model_of_None filename :
  model_of filename = None ↔
  ∀ m, startswith filename (Models_value m) = false.
Proof.
  split.
  - intros H m. destruct (startswith filename (Models_value m)) eqn:E; [|done].
    apply model_of_iff in E. congruence.
  - intros H. destruct (model_of filename) as [m|] eqn:E; [|done].
    apply model_of_iff in E. by rewrite H in E.
Qed.

Lemma files_of_cons m f l :
  files_of m (f :: l)
  = if decide (model_of f = Some m) then f :: files_of m l else files_of m l.
Proof.
  unfold files_of. rewrite filter_cons.
  destruct (startswith f (Models_value m)) eqn:E.
  - rewrite decide_True by done.
    by rewrite decide_True by (by apply model_of_iff).
  - rewrite decide_False by done.
    rewrite decide_False; [done|].
    intros H%model_of_iff. congruence.
Qed.

Lemma last_cons_eq {A} (x : A) l :
  last (x :: l) = match last l with Some y => Some y | None => Some x end.
Proof. destruct l as [|y l]; [done|]. rewrite last_cons. done. Qed.

Lemma add_filenames_run working_path filenames : ∀ mapping,
  (∀ m, holds_list (Some m) = true → ∃ l, mapping !! Some m = Some (Paths l)) →
  ∃ mapping',
    for_each filenames (add_filename working_path) mapping
    = (mapping', Return tt)
    ∧ ∀ m,
        mapping' !! Some m
        = if holds_list (Some m)
          then match mapping !! Some m with
               | Some (Paths l) =>
                   Some (Paths (l ++ (path_join working_path
                                        <$> files_of m filenames)))
               | o => o
               end
          else match last (path_join working_path <$> files_of m filenames) with
               | Some p => Some (Path p)
               | None => mapping !! Some m
               end.
Proof.
  induction filenames as [|f filenames IH]; intros mapping Hshape.
  - exists mapping. split; [done|]. intros m.
    change (files_of m []) with (@nil string). rewrite fmap_nil.
    destruct (holds_list (Some m)) eqn:E; [|done].
    destruct (Hshape m E) as [l ->]. by rewrite app_nil_r.
  - simpl for_each. unfold bind at 1. unfold add_filename.
    destruct (holds_list (model_of f)) eqn:Ek.
    + destruct (model_of f) as [k|] eqn:Ef; [|done].
      destruct (Hshape k Ek) as [l Hl].
      unfold bind at 1, get at 1. rewrite Hl. unfold modify at 1.
      destruct (IH (<[Some k := Paths (l ++ [path_join working_path f])]> mapping))
        as (mapping' & Hrun & Hm).
      { intros m Hm. destruct (decide (m = k)) as [->|Hne].
        - rewrite lookup_insert_eq. eauto.
        - rewrite lookup_insert_ne by congruence. by apply Hshape. }
      exists mapping'. split; [exact Hrun|]. intros m. rewrite Hm.
      rewrite files_of_cons.
      destruct (decide (m = k)) as [->|Hne].
      * rewrite Ek, lookup_insert_eq, Hl, decide_True by done.
        by rewrite fmap_cons, <- app_assoc.
      * rewrite lookup_insert_ne by congruence.
        by rewrite decide_False by congruence.
    + unfold modify at 1.
      destruct (IH (<[model_of f := Path (path_join working_path f)]> mapping))
        as (mapping' & Hrun & Hm).
      { intros m Hm. rewrite lookup_insert_ne by (intros Heq; congruence).
        by apply Hshape. }
      exists mapping'. split; [exact Hrun|]. intros m. rewrite Hm.
      rewrite files_of_cons.
      destruct (decide (model_of f = Some m)) as [Heq|Hne].
      * rewrite Heq in Ek. rewrite Ek, Heq, lookup_insert_eq, fmap_cons,
          last_cons_eq.
        by destruct (last _).
      * by rewrite lookup_insert_ne by done.
Qed.

Lemma get_filenames_run working_path filenames :
  ∃ mapping,
    _get_filenames working_path filenames = Return mapping
    ∧ ∀ m, mapping !! Some m = Some (entry_of working_path m filenames).
Proof.
  unfold _get_filenames.
  destruct (add_filenames_run working_path filenames
              (list_to_map ((λ model, (Some model, Paths [])) <$> Models_members)))
    as (mapping' & Hrun & Hm).
  { intros m _. exists []. by destruct m. }
  rewrite Hrun. exists mapping'. split; [done|]. intros m. rewrite Hm.
  unfold entry_of.
  assert ((list_to_map ((λ model, (Some model, Paths [])) <$> Models_members)
            : gmap (option Models) entry) !! Some m = Some (Paths [])) as ->
    by (by destruct m).
  destruct (holds_list (Some m)); [done|]. by destruct (last _).
Qed.

(** X17.  No value of [Models] starts another one, so that a file name
    starts with at most one of them: a file is filed under a key exactly
    when its name starts with the value of that key, whatever the order in
    which the members are tried, and under [None] when it starts with
    none. *)
Theorem model_of_startswith filename m :
  model_of filename = Some m ↔ startswith filename (Models_value m) = true.
Proof. apply model_of_iff. Qed.

(** X18.  [_get_filenames] never raises, whatever the files of the
    directory are.  A key that holds a list gets the paths of all the
    files whose name starts with its value, in the order of the listing;
    any other key gets the path of the last such file, and keeps the empty
    list when there is none. *)
Theorem get_filenames_entries working_path filenames :
  ∃ mapping,
    _get_filenames working_path filenames = Return mapping
    ∧ ∀ m, mapping !! Some m = Some (entry_of working_path m filenames).
Proof. apply get_filenames_run. Qed.

(** X19.  A document that the importer opens by its key is the last file of
    the directory whose name starts with the value of the key; when no
    file does, the entry is still the empty list and [open] raises
    [TypeError]. *)
Theorem open_document_of_listing working_path filenames mapping m :
  _get_filenames working_path filenames = Return mapping →
  holds_list (Some m) = false →
  open_document mapping m
  = match last (files_of m filenames) with
    | Some f => Return (path_join working_path f)
    | None => Raise TypeError
    end.
Proof.
  intros Hg Hm.
  destruct (get_filenames_run working_path filenames)
    as (mapping' & Hg' & He).
  rewrite Hg in Hg'. injection Hg' as <-.
  unfold open_document. rewrite He. unfold entry_of. rewrite Hm.
  rewrite fmap_last. by destruct (last (files_of m filenames)).
Qed.

Lemma open_document_of_listing_witness :
  open_document ExX.filenames PROJECT
  = match last (files_of PROJECT ExX.listing) with
    | Some f => Return (path_join "/tmp/export" f)
    | None => Raise TypeError
    end.
Proof.
  apply (open_document_of_listing "/tmp/export" ExX.listing ExX.filenames
           PROJECT); vm_compute; reflexivity.
Defined.

Lemma metadata_names_found obj id :
  model_of (document_name obj (Some (properties_name id))) = Some PROPERTY
  ∧ model_of (document_name obj (Some (attached_files_name id))) = Some FILE
  ∧ model_of (document_name obj (Some (description_name id)))
    = Some DESCRIPTION
  ∧ model_of (document_name obj (Some "user-annotation-collection"))
    = Some USER_ANNOTATION.
Proof.
  split; [|split; [|split]]; apply model_of_iff; unfold startswith.
  - apply (prefix_app "properties" ("-object-" +:+ pretty id +:+ "-collection.json")).
  - apply (prefix_app "attached-files"
             ("-object-" +:+ pretty id +:+ "-collection.json")).
  - apply (prefix_app "description" ("-object-" +:+ pretty id +:+ ".json")).
  - reflexivity.
Qed.

(** X20.  The files that [export_metadata] names are found by the importer:
    whatever the identifier of the object is, the document of its
    properties is filed under [PROPERTY], the one of its attached files
    under [FILE], its description under [DESCRIPTION], and the collection
    of the user annotations under [USER_ANNOTATION]. *)
Theorem exported_names_are_found obj id :
  model_of (document_name obj (Some (properties_name id))) = Some PROPERTY
  ∧ model_of (document_name obj (Some (attached_files_name id))) = Some FILE
  ∧ model_of (document_name obj (Some (description_name id)))
    = Some DESCRIPTION
  ∧ model_of (document_name obj (Some "user-annotation-collection"))
    = Some USER_ANNOTATION.
Proof. apply metadata_names_found. Qed.

(** ** The exporter's metadata *)

Global Instance writes_preorder P : PreOrder (writes P).
Proof.
  split.
  - intros l. exists []. by rewrite app_nil_r.
  - intros l1 l2 l3 (k1 & E1 & H1) (k2 & E2 & H2). exists (k1 ++ k2).
    split; [by rewrite E2, E1, app_assoc|by apply Forall_app].
Qed.

Lemma stable_lift {S A} (R : relation S) `{!PreOrder R} (o : outcome A) :
  stable R (lift o).
Proof. intros s. reflexivity. Qed.

Section exported_metadata.
Variable project_path : string.
Variable attached_file_path : option string.
Variable fetch_properties fetch_attached_files fetch_description : Z → exported.
Context {schedule : Schedule (list written)}.

Lemma save_object_writes obj name m :
  model_of (document_name obj (Some name)) = Some m →
  holds_list (Some m) = true →
  stable (writes (is_metadata_file project_path attached_file_path))
    (save_object project_path obj (Some name)).
Proof.
  intros Hm Hl files. unfold save_object.
  destruct (exported_truthy obj) eqn:E; [|reflexivity].
  eexists [_]. split; [reflexivity|]. apply Forall_singleton.
  split; [done|]. eauto.
Qed.

(** X21.  Every document that [export_metadata] writes is one that is not
    empty, under a name that the importer files under its properties, its
    attached files or its descriptions; and an attached file is only
    downloaded under the path of the attached files, which has to be set:
    the export of the metadata writes nothing else, however it ends. *)
Theorem export_metadata_writes_metadata objects files :
  writes (is_metadata_file project_path attached_file_path) files
    (export_metadata project_path attached_file_path fetch_properties
       fetch_attached_files fetch_description objects files).1.
Proof.
  revert files.
  change (stable (writes (is_metadata_file project_path attached_file_path))
            (export_metadata project_path attached_file_path fetch_properties
               fetch_attached_files fetch_description objects)).
  unfold export_metadata. apply (stable_Parallel _). intros id.
  unfold _export_metadata.
  pose proof (metadata_names_found (fetch_properties id) id)
    as (Hp & _).
  pose proof (metadata_names_found (fetch_attached_files id) id)
    as (_ & Hf & _).
  pose proof (metadata_names_found (fetch_description id) id)
    as (_ & _ & Hd & _).
  apply (stable_bind _); [apply (stable_lift _)|]. intros n.
  apply (stable_bind _).
  { case_bool_decide; [|apply (stable_ret _)].
    by apply (save_object_writes _ _ PROPERTY). }
  intros _.
  apply (stable_bind _); [apply (stable_lift _)|]. intros n'.
  apply (stable_bind _).
  { case_bool_decide; [|apply (stable_ret _)].
    apply (stable_bind _); [by apply (save_object_writes _ _ FILE)|].
    intros _. apply (stable_bind _); [apply (stable_lift _)|]. intros l.
    apply (stable_for_each _). intros attached_file.
    destruct attached_file_path as [p|]; [|apply (stable_raise _)].
    intros fs. eexists [_]. split; [reflexivity|]. apply Forall_singleton.
    simpl. eauto. }
  intros _.
  destruct (exported_truthy (fetch_description id)); [|apply (stable_ret _)].
  by apply (save_object_writes _ _ DESCRIPTION).
Qed.

End exported_metadata.

(** ** The users of an export *)

Lemma find_or_append_by_id_spec obj l :
  match list_find (λ i, eu_id i = eu_id obj) l with
  | Some (n, u) =>
      find_or_append_by_id obj l = (n, l) ∧ l !! n = Some u
      ∧ eu_id u = eu_id obj
  | None =>
      find_or_append_by_id obj l = (length l, l ++ [obj])
      ∧ eu_id obj ∉ eu_id <$> l
  end.
Proof.
  unfold find_or_append_by_id.
  destruct (list_find _ l) as [[n u]|] eqn:E.
  - apply list_find_Some in E as (Hn & Hu & _). done.
  - split; [done|]. apply list_find_None in E.
    intros (u & Hu & Hin)%list_elem_of_fmap.
    rewrite Forall_forall in E. by apply (E u).
Qed.

Lemma add_role_id role u : eu_id (add_role role u) = eu_id u.
Proof. done. Qed.

Lemma fmap_alter_id (f : ExportedUser → ExportedUser) (n : nat)
    (l : list ExportedUser) :
  (∀ u, eu_id (f u) = eu_id u) → eu_id <$> alter f n l = eu_id <$> l.
Proof.
  intros Hf. apply list_eq. intros i. rewrite !list_lookup_fmap.
  destruct (decide (n = i)) as [->|Hne].
  - rewrite list_lookup_alter_eq. destruct (l !! i); simpl; [by rewrite Hf|done].
  - by rewrite list_lookup_alter_ne.
Qed.

Lemma save_user_ids user role l :
  eu_id <$> save_user user role l
  = (eu_id <$> l)
    ++ (if decide (eu_id user ∈ eu_id <$> l) then [] else [eu_id user]).
Proof.
  unfold save_user.
  pose proof (find_or_append_by_id_spec user l) as H.
  destruct (list_find _ l) as [[n u]|].
  - destruct H as (-> & Hn & Hu).
    rewrite (fmap_alter_id _ _ _ (add_role_id role)).
    rewrite decide_True; [by rewrite app_nil_r|].
    apply list_elem_of_fmap. exists u. split; [done|].
    by apply list_elem_of_lookup_2 in Hn.
  - destruct H as (-> & Hnot).
    rewrite (fmap_alter_id _ _ _ (add_role_id role)).
    by rewrite decide_False, fmap_app by done.
Qed.

Lemma user_by_id_cons l x id :
  user_by_id (x :: l) id
  = if decide (eu_id x = id) then Some x else user_by_id l id.
Proof.
  unfold user_by_id. simpl. case_decide; [done|].
  destruct (list_find _ l) as [[n u]|]; done.
Qed.

Lemma user_by_id_app l x id :
  user_by_id (l ++ [x]) id
  = match user_by_id l id with
    | Some u => Some u
    | None => if decide (eu_id x = id) then Some x else None
    end.
Proof.
  induction l as [|y l IH].
  - simpl. rewrite user_by_id_cons. by case_decide.
  - change ((y :: l) ++ [x]) with (y :: (l ++ [x])).
    rewrite !user_by_id_cons, IH. by destruct (decide (eu_id y = id)).
Qed.

Lemma user_by_id_alter_first (f : ExportedUser → ExportedUser)
    (l : list ExportedUser) (n : nat) u id :
  (∀ u, eu_id (f u) = eu_id u) →
  list_find (λ i, eu_id i = id) l = Some (n, u) →
  ∀ id', user_by_id (alter f n l) id'
         = if decide (id' = id) then Some (f u) else user_by_id l id'.
Proof.
  intros Hf. revert n. induction l as [|x l IH]; intros n H id'; [done|].
  simpl in H. destruct (decide (eu_id x = id)) as [Hx|Hx].
  - injection H as <- <-.
    change (alter f 0%nat (x :: l)) with (f x :: l).
    rewrite !user_by_id_cons, Hf.
    destruct (decide (id' = id)) as [->|Hne].
    + by rewrite decide_True.
    + by rewrite !decide_False by congruence.
  - destruct (list_find _ l) as [[n' u']|] eqn:E; [|done].
    injection H as <- <-.
    change (alter f (S n') (x :: l)) with (x :: alter f n' l).
    rewrite !user_by_id_cons, (IH n' eq_refl id').
    destruct (decide (id' = id)) as [->|Hne].
    + by rewrite decide_False.
    + done.
Qed.

Lemma user_by_id_None l id :
  list_find (λ i, eu_id i = id) l = None → user_by_id l id = None.
Proof. unfold user_by_id. by intros ->. Qed.

Lemma alter_app_last (f : ExportedUser → ExportedUser)
    (l : list ExportedUser) x :
  alter f (length l) (l ++ [x]) = l ++ [f x].
Proof.
  rewrite <- (Nat.add_0_r (length l)). by rewrite alter_app_r.
Qed.

Lemma save_user_lookup user role l id :
  user_by_id (save_user user role l) id
  = if decide (id = eu_id user)
    then Some (add_role role (default user (user_by_id l id)))
    else user_by_id l id.
Proof.
  unfold save_user, find_or_append_by_id.
  destruct (list_find _ l) as [[n u]|] eqn:E.
  - rewrite (user_by_id_alter_first _ _ _ _ _ (add_role_id role) E).
    case_decide as Hid; [|done]. subst id.
    unfold user_by_id. by rewrite E.
  - rewrite alter_app_last, user_by_id_app.
    destruct (decide (id = eu_id user)) as [->|Hne].
    + rewrite (user_by_id_None _ _ E). by rewrite decide_True.
    + rewrite decide_False by (simpl; congruence).
      by destruct (user_by_id l id).
Qed.

(** X22.  [save_user] never makes two users of one identifier, and never
    moves a user: the identifiers of the list are those it had, in the same
    order, followed by the identifier of the user when it is new.  The
    user saved under an identifier is the first object saved with it, and
    each role given for it is added after the roles it already has; a role
    that is [None] or empty adds nothing. *)
Theorem save_user_keeps_first_object user role l :
  NoDup (eu_id <$> l) →
  NoDup (eu_id <$> save_user user role l)
  ∧ eu_id <$> save_user user role l
    = (eu_id <$> l)
      ++ (if decide (eu_id user ∈ eu_id <$> l) then [] else [eu_id user])
  ∧ ∀ id,
      user_by_id (save_user user role l) id
      = if decide (id = eu_id user)
        then Some (add_role role (default user (user_by_id l id)))
        else user_by_id l id.
Proof.
  intros Hnd. split; [|split; [apply save_user_ids|intros id; apply save_user_lookup]].
  rewrite save_user_ids. case_decide as Hin; [by rewrite app_nil_r|].
  apply NoDup_app. split; [done|]. split; [|apply NoDup_singleton].
  intros x Hx ->%list_elem_of_singleton. done.
Qed.

Lemma save_user_keeps_first_object_witness :
  NoDup (eu_id <$> save_user (ExX.exported_user 2 "ann")
                     (Some "image_creator") [ExX.exported_user 1 "admin"])
  ∧ eu_id <$> save_user (ExX.exported_user 2 "ann") (Some "image_creator")
                [ExX.exported_user 1 "admin"]
    = (eu_id <$> [ExX.exported_user 1 "admin"])
      ++ (if decide (eu_id (ExX.exported_user 2 "ann")
                     ∈ eu_id <$> [ExX.exported_user 1 "admin"])
          then [] else [eu_id (ExX.exported_user 2 "ann")])
  ∧ ∀ id,
      user_by_id (save_user (ExX.exported_user 2 "ann") (Some "image_creator")
                    [ExX.exported_user 1 "admin"]) id
      = if decide (id = eu_id (ExX.exported_user 2 "ann"))
        then Some (add_role (Some "image_creator")
                     (default (ExX.exported_user 2 "ann")
                        (user_by_id [ExX.exported_user 1 "admin"] id)))
        else user_by_id [ExX.exported_user 1 "admin"] id.
Proof.
  apply (save_user_keeps_first_object (ExX.exported_user 2 "ann")
           (Some "image_creator") [ExX.exported_user 1 "admin"]).
  by_compute.
Defined.

(** *** The managers and the contributors *)

Lemma user_by_id_app_list l1 l2 id :
  user_by_id (l1 ++ l2) id
  = match user_by_id l1 id with
    | Some u => Some u
    | None => user_by_id l2 id
    end.
Proof.
  induction l1 as [|y l1 IH]; [done|].
  change ((y :: l1) ++ l2) with (y :: (l1 ++ l2)).
  rewrite !user_by_id_cons, IH. by destruct (decide (eu_id y = id)).
Qed.

Lemma roles_given_cons role x l id :
  roles_given role (x :: l) id
  = if decide (eu_id x = id) then role :: roles_given role l id
    else roles_given role l id.
Proof. unfold roles_given. rewrite filter_cons. by case_decide. Qed.

Lemma granted_add_role a r given u :
  granted given (add_role (Some (String a r)) u)
  = granted (String a r :: given) u.
Proof.
  unfold granted, add_role. simpl.
  destruct given as [|g given]; simpl.
  - done.
  - by rewrite <- app_assoc.
Qed.

Lemma give_role_run a r us : ∀ l id,
  let role := String a r in
  let res := for_each us (λ u, modify (save_user u (Some role))) l in
  res.2 = Return tt
  ∧ user_by_id res.1 id
    = granted (roles_given role us id) <$> user_by_id (l ++ us) id.
Proof.
  induction us as [|x us IH]; intros l id; cbv zeta.
  - simpl. rewrite app_nil_r. split; [done|].
    by destruct (user_by_id l id).
  - simpl for_each. unfold bind, modify at 1 3.
    destruct (IH (save_user x (Some (String a r)) l) id) as [Hr Hu].
    split; [exact Hr|]. rewrite Hu.
    rewrite !user_by_id_app_list, save_user_lookup, user_by_id_cons,
      roles_given_cons.
    destruct (decide (id = eu_id x)) as [->|Hne].
    + rewrite !decide_True by done.
      destruct (user_by_id l (eu_id x)) as [u|]; simpl;
        by rewrite granted_add_role.
    + rewrite !decide_False by congruence.
      by destruct (user_by_id l id).
Qed.

Lemma granted_granted g1 g2 u :
  granted g2 (granted g1 u) = granted (g1 ++ g2) u.
Proof.
  destruct g1 as [|a g1]; [done|]. destruct g2 as [|b g2].
  - by rewrite app_nil_r.
  - unfold granted. simpl. by rewrite <- app_assoc.
Qed.

(** X23.  After the managers and the contributors of the project are saved,
    the user kept under an identifier is the first object that bears it,
    among the users already saved, then the managers, then the
    contributors; its roles are those it had, then ["project_manager"] if
    it is a manager, then ["project_contributor"] if it is a contributor.
    The loops never raise. *)
Theorem export_project_users_roles admins members l id :
  (export_project_users admins members l).2 = Return tt
  ∧ user_by_id (export_project_users admins members l).1 id
    = granted (roles_given "project_manager" admins id
               ++ roles_given "project_contributor" members id)
      <$> user_by_id (l ++ admins ++ members) id.
Proof.
  unfold export_project_users.
  pose proof (give_role_run "p" "roject_manager" admins l) as Ha.
  cbv zeta in Ha. unfold bind.
  destruct (for_each admins _ l) as [l1 o1] eqn:E1.
  assert (o1 = Return tt) as -> by (by destruct (Ha id)).
  pose proof (give_role_run "p" "roject_contributor" members l1 id) as Hm.
  cbv zeta in Hm. destruct Hm as [Hr Hu].
  split; [exact Hr|]. rewrite Hu.
  rewrite !user_by_id_app_list.
  destruct (Ha id) as [_ Ha1]. simpl in Ha1. rewrite Ha1.
  rewrite user_by_id_app_list.
  destruct (user_by_id l id) as [u|] eqn:El; simpl.
  - by rewrite granted_granted.
  - destruct (user_by_id admins id) as [u|] eqn:Ea; simpl.
    + by rewrite granted_granted.
    + assert (roles_given "project_manager" admins id = []) as ->; [|done].
      unfold roles_given.
      destruct (filter _ admins) as [|y ys] eqn:Ef; [done|].
      assert (y ∈ filter (λ u, eu_id u = id) admins) as Hy
        by (rewrite Ef; left).
      apply list_elem_of_filter in Hy as [Hid Hin].
      unfold user_by_id in Ea.
      destruct (list_find (λ u, eu_id u = id) admins) as [[n v]|] eqn:Efind;
        [done|].
      apply list_find_None in Efind. rewrite Forall_forall in Efind.
      by destruct (Efind y Hin).
Qed.

(** *** Anonymous users *)

Lemma anonymized_lookup l i :
  imap anonymized l !! i = anonymized i <$> l !! i.
Proof. apply list_lookup_imap. Qed.

Lemma anonymized_username_inj i j u v :
  eu_username (anonymized i u) = eu_username (anonymized j v) → i = j.
Proof.
  simpl. intros H. apply (inj (String.app "anonymized_user")) in H.
  apply (inj pretty) in H. lia.
Qed.

Lemma anonymized_email_inj i j u v :
  eu_email (anonymized i u) = eu_email (anonymized j v) → i = j.
Proof.
  simpl. intros H. apply (inj (String.app "anonymous")) in H.
  assert (pretty (i + 1)%nat = pretty (j + 1)%nat) as Hp.
  { apply (string_app_inj_r _ _ "@unknown.com"). exact H. }
  apply (inj pretty) in Hp. lia.
Qed.

Lemma NoDup_imap_inj {A B} (f : nat → A → B) (l : list A) :
  (∀ i j x y, f i x = f j y → i = j) → NoDup (imap f l).
Proof.
  intros Hf. apply NoDup_alt. intros i j y Hi Hj.
  rewrite list_lookup_imap in Hi, Hj.
  destruct (l !! i) as [a|]; [|done]. destruct (l !! j) as [b|]; [|done].
  simpl in *. apply (Hf i j a b). congruence.
Qed.

(** X24.  Anonymous users have distinct names and distinct addresses,
    which depend on their rank only: the user of rank [i] (from 0) is
    named after [i + 1], whoever it is.  The first name of each becomes
    "Anonymized" and the last name "User" followed by [i + 1].  Their
    number, their identifiers, their roles and every attribute but the
    name, the first name, the last name and the address are those they
    had.  Without [anonymize] the users are left as they are. *)
Theorem anonymized_users_are_distinct l :
  NoDup (eu_username <$> anonymize_users true l)
  ∧ NoDup (eu_email <$> anonymize_users true l)
  ∧ eu_id <$> anonymize_users true l = eu_id <$> l
  ∧ eu_roles <$> anonymize_users true l = eu_roles <$> l
  ∧ eu_rest <$> anonymize_users true l = eu_rest <$> l
  ∧ (∀ i u, l !! i = Some u →
            anonymize_users true l !! i = Some (anonymized i u))
  ∧ length (anonymize_users true l) = length l
  ∧ (∀ i u, anonymize_users true l !! i = Some u →
            eu_username u = "anonymized_user" +:+ pretty (i + 1)%nat
            ∧ eu_firstname u = "Anonymized"
            ∧ eu_lastname u = "User " +:+ pretty (i + 1)%nat
            ∧ eu_email u = "anonymous" +:+ pretty (i + 1)%nat +:+ "@unknown.com")
  ∧ anonymize_users false l = l.
Proof.
  unfold anonymize_users.
  assert (∀ {B} (g : ExportedUser → B),
            (∀ i u, g (anonymized i u) = g u) →
            g <$> imap anonymized l = g <$> l) as Hsame.
  { intros B g Hg. apply list_eq. intros i.
    rewrite !list_lookup_fmap, list_lookup_imap.
    destruct (l !! i); simpl; [by rewrite Hg|done]. }
  split.
  { rewrite fmap_imap. apply NoDup_imap_inj. intros i j x y.
    apply anonymized_username_inj. }
  split.
  { rewrite fmap_imap. apply NoDup_imap_inj. intros i j x y.
    apply anonymized_email_inj. }
  split; [by apply Hsame|]. split; [by apply Hsame|].
  split; [by apply Hsame|].
  split; [intros i u Hi; by rewrite list_lookup_imap, Hi|].
  split; [apply length_imap|]. split; [|done].
  intros i u. rewrite list_lookup_imap.
  destruct (l !! i) as [v|]; simpl; [|done]. by intros [= <-].
Qed.

(** ** The importer's script *)

Lemma endswith_app p s : endswith (p +:+ s) s = true.
Proof.
  induction p as [|a p IH].
  - destruct s; simpl; [done|].
    by rewrite Ascii.eqb_refl, String.eqb_refl.
  - change (String a p +:+ s) with (String a (p +:+ s)).
    simpl. rewrite IH. apply orb_true_r.
Qed.

Lemma drop_last_app p s : drop_last (String.length s) (p +:+ s) = p.
Proof.
  unfold drop_last. rewrite string_length_app.
  replace (String.length p + String.length s - String.length s)%nat
    with (String.length p) by lia.
  induction p as [|a p IH]; [by destruct s|].
  change (String a p +:+ s) with (String a (p +:+ s)). simpl. by rewrite IH.
Qed.

Lemma tar_is_not_tar_gz p : endswith (p +:+ ".tar") ".tar.gz" = false.
Proof.
  induction p as [|a p IH]; [done|].
  change (String a p +:+ ".tar") with (String a (p +:+ ".tar")).
  cbn [endswith]. rewrite IH, orb_false_r.
  destruct (String.eqb_spec (String a (p +:+ ".tar")) ".tar.gz") as [H|];
    [|done].
  exfalso.
  assert (String.length p = 2%nat) as Hl.
  { apply (f_equal String.length) in H. simpl in H.
    rewrite string_length_app in H. simpl in H. lia. }
  destruct p as [|b [|c [|d p]]]; discriminate.
Qed.

(** X25.  The path that the script gives to the importer.  For a path
    that is no URL, an archive named [p.tar.gz] or [p.tar] is extracted and
    the importer works in [p], whatever [p] is, unless the extraction
    raises, and then so does the script; a path that ends with neither
    extension is taken as it is, and nothing is extracted.  For a URL in
    [http://] or [https://] the importer is never reached: the script
    raises what the request raises, and [ValueError] once the request is
    answered, because the file of the download is opened in binary mode
    with an encoding. *)
Theorem script_project_path_of_archive
    (requests_get : string → outcome unit)
    (extractall : string → string → outcome unit) (p : string) :
  (is_url (p +:+ ".tar.gz") = false →
   script_project_path requests_get extractall (p +:+ ".tar.gz")
   = match extractall (p +:+ ".tar.gz") "r:gz" with
     | Return _ => Return p
     | Raise e => Raise e
     end)
  ∧ (is_url (p +:+ ".tar") = false →
     script_project_path requests_get extractall (p +:+ ".tar")
     = match extractall (p +:+ ".tar") "r:" with
       | Return _ => Return p
       | Raise e => Raise e
       end)
  ∧ (is_url p = false →
     endswith p ".tar.gz" = false → endswith p ".tar" = false →
     script_project_path requests_get extractall p = Return p)
  ∧ (is_url p = true →
     script_project_path requests_get extractall p
     = match requests_get p with
       | Return _ => Raise ValueError
       | Raise e => Raise e
       end).
Proof.
  unfold script_project_path, downloaded_path, extracted_path, is_url.
  split; [|split; [|split]].
  - intros ->. rewrite endswith_app.
    destruct (extractall _ _); [|done].
    f_equal. apply (drop_last_app p ".tar.gz").
  - intros ->. rewrite tar_is_not_tar_gz, endswith_app.
    destruct (extractall _ _); [|done].
    f_equal. apply (drop_last_app p ".tar").
  - by intros -> -> ->.
  - intros ->. by destruct (requests_get p).
Qed.

Lemma script_project_path_of_archive_witness :
  script_project_path (λ _, Return tt) (λ _ _, Return tt) "/data/export.tar.gz"
  = Return "/data/export"
  ∧ script_project_path (λ _, Return tt) (λ _ _, Return tt)
      "https://host/export.tar.gz"
    = Raise ValueError.
Proof.
  destruct (script_project_path_of_archive (λ _, Return tt) (λ _ _, Return tt)
              "/data/export") as (H1 & _).
  destruct (script_project_path_of_archive (λ _, Return tt) (λ _ _, Return tt)
              "https://host/export.tar.gz") as (_ & _ & _ & H2).
  split; [exact (H1 eq_refl)|exact (H2 eq_refl)].
Defined.

(** X26.  The importer's script never asks for the dates of the snapshot:
    no argument of its parser has a name that starts with ["without"], so
    that the options passed to [Importer] are empty and
    [with_original_date] keeps its default, whatever the command line
    is. *)
Theorem importer_script_never_keeps_dates {V}
    (host host_upload public_key private_key project_path : V) :
  importer_options
    (importer_params host host_upload public_key private_key project_path) = []
  ∧ bind_with_original_date
      (importer_options
         (importer_params host host_upload public_key private_key project_path))
      None
    = Return None.
Proof. split; reflexivity. Qed.
